(** * Admission control and dispatch core of the AI gateway

    A shallow embedding of the Go sources of the gateway (package [main]:
    rate limiter, client-identity resolver, CORS and rate-limit middleware,
    reclaim sweep; package [handlers] and package [services]: request
    defaults, backend call, error translation), followed by the properties
    the specification states about them.

    Conventions. A Go function that mutates the limiter, reads the clock,
    writes to the response or calls the backend takes the state it works on
    and returns the state it leaves. An [error] is its message. Log output
    is left out. *)

From Stdlib Require Import ZArith Floats Ascii String Sorted.
From stdpp Require Import gmap strings list pretty.

Open Scope Z_scope.

(** ** Go library types used by the sources *)

Module GoTime.
(** A [time.Time] instant, in nanoseconds since the Unix epoch, and a
    [time.Duration], in nanoseconds. One number stands for both readings a
    [time.Time] carries, the one [After] compares and the wall time [Unix]
    reports. *)
Abbreviation Time := Z.
Abbreviation Duration := Z.

Definition Second : Duration := 1000000000.
Definition Minute : Duration := 60 * Second.

(** [t.Add(d)] *)
Definition Add (t : Time) (d : Duration) : Time := t + d.
(** [t.After(u)]: t is strictly later than u. *)
Definition After (t u : Time) : bool := u <? t.
(** [t.Unix()]: whole seconds since the epoch. *)
Definition Unix (t : Time) : Z := t `div` Second.
End GoTime.

Module GoInt.
(** Go's [int] on the 64-bit targets the service is built for: the result
    of an arithmetic operation is reduced to the signed 64-bit range. *)
Definition wrap (x : Z) : Z := (x + 2 ^ 63) `mod` 2 ^ 64 - 2 ^ 63.
Definition sub (x y : Z) : Z := wrap (x - y).
(** [strconv.Itoa] and [strconv.FormatInt(_, 10)] *)
Definition Itoa (x : Z) : string := pretty x.
End GoInt.

Module GoStrings.
Definition bytes (codes : list nat) : list ascii := ascii_of_nat <$> codes.

(** [strings.Split(s, sep)] for a one-byte separator: the fields between
    its occurrences, never an empty slice. *)
Fixpoint splitBytes (sep : ascii) (l : list ascii) : list (list ascii) :=
  match l with
  | [] => [[]]
  | c :: rest =>
      if decide (c = sep) then [] :: splitBytes sep rest
      else match splitBytes sep rest with
           | field :: fields => (c :: field) :: fields
           | [] => [[c]]
           end
  end.

Definition Split (s : string) (sep : ascii) : list string :=
  string_of_list_ascii <$> splitBytes sep (list_ascii_of_string s).

(** [ss[0]] on a slice that [Split] returned. *)
Definition first (ss : list string) : string := default "" (ss !! 0%nat).

(** The UTF-8 encodings of the code points of [unicode.White_Space]:
    U+0009..U+000D, U+0020, U+0085, U+00A0, U+1680, U+2000..U+200A,
    U+2028, U+2029, U+202F, U+205F, U+3000. *)
Definition spaceRunes : list (list ascii) :=
  bytes <$> ([[9]; [10]; [11]; [12]; [13]; [32]; [194; 133]; [194; 160]; [225; 154; 128]]
             ++ ((λ b, [226; 128; b]) <$> seq 128 11)
             ++ [[226; 128; 168]; [226; 128; 169]; [226; 128; 175];
                 [226; 129; 159]; [227; 128; 128]])%nat.

Fixpoint isPrefix (p l : list ascii) : bool :=
  match p, l with
  | [], _ => true
  | a :: p', b :: l' => if decide (a = b) then isPrefix p' l' else false
  | _ :: _, [] => false
  end.

(** Remove one leading rune of [runes], if the text starts with one. *)
Fixpoint stripRune (runes : list (list ascii)) (l : list ascii)
    : option (list ascii) :=
  match runes with
  | [] => None
  | p :: more => if isPrefix p l then Some (drop (length p) l) else stripRune more l
  end.

Fixpoint trimLeftFuel (runes : list (list ascii)) (fuel : nat) (l : list ascii)
    : list ascii :=
  match fuel with
  | O => l
  | S fuel' =>
      match stripRune runes l with
      | Some l' => trimLeftFuel runes fuel' l'
      | None => l
      end
  end.

Definition trimLeft (l : list ascii) : list ascii :=
  trimLeftFuel spaceRunes (length l) l.
Definition trimRight (l : list ascii) : list ascii :=
  reverse (trimLeftFuel (reverse <$> spaceRunes) (length l) (reverse l)).

(** A JSON string literal of a text with nothing to escape. *)
Definition quoted (s : string) : string :=
  String (ascii_of_nat 34) (s +:+ String (ascii_of_nat 34) EmptyString).

(** [strings.TrimSpace]: leading, then trailing white space removed. *)
Definition TrimSpace (s : string) : string :=
  string_of_list_ascii (trimRight (trimLeft (list_ascii_of_string s))).
End GoStrings.

(** ** Package models *)

Module Models.
Import GoTime.

Record ErrorResponse := {
  Error : string;
  Code : Z;
  Message : string
}.

Record HealthResponse := {
  HealthStatus : string;
  HealthTimestamp : Time;
  Version : string
}.

Record ChatMessage := { Role : string; Content : string }.

Record ChatCompletionRequest := {
  Messages : list ChatMessage;
  ChatMaxTokens : Z;
  ChatTemperature : float;
  ChatUserID : string
}.

(** [CompleteRequest] and [GenerateRequest] have the same four fields. *)
Record PromptRequest := {
  Prompt : string;
  MaxTokens : Z;
  Temperature : float;
  UserID : string
}.

(** [ChatCompletionResponse], [CompleteResponse] and [GenerateResponse]
    have the same four fields. *)
Record TextResponse := {
  Response : string;
  RespUserID : string;
  Timestamp : Time;
  Model : string
}.

(** A decoded JSON value, as far as the gateway looks into it: a string,
    or something else kept as its text. *)
Inductive JValue :=
  | JString (s : string)
  | JOther (raw : string).

(** [map[string]interface{}] *)
Abbreviation JObject := (gmap string JValue).

(** The values the gateway hands to [json.NewEncoder(w).Encode]. *)
Inductive Encoded :=
  | EncError (e : ErrorResponse)
  | EncHealth (h : HealthResponse)
  | EncText (t : TextResponse)
  | EncObject (o : JObject).
End Models.

Module GoHTTP.
Import Models.

(** [http.Header]: the values of each header, under its canonical name. *)
Abbreviation Header := (gmap string (list string)).

Definition upper (c : ascii) : ascii :=
  let n := nat_of_ascii c in
  if bool_decide (97 ≤ n ≤ 122)%nat then ascii_of_nat (n - 32) else c.
Definition lower (c : ascii) : ascii :=
  let n := nat_of_ascii c in
  if bool_decide (65 ≤ n ≤ 90)%nat then ascii_of_nat (n + 32) else c.

Fixpoint canonical (up : bool) (s : string) : string :=
  match s with
  | EmptyString => EmptyString
  | String c rest =>
      let c' := if up then upper c else lower c in
      String c' (canonical (bool_decide (c' = "-"%char)) rest)
  end.

(** [textproto.CanonicalMIMEHeaderKey] on a name made of letters, digits
    and hyphens, which is what the sources pass. *)
Definition CanonicalMIMEHeaderKey (key : string) : string := canonical true key.

(** [h.Get(key)]: the first value of the header, or the empty string. *)
Definition Get (h : Header) (key : string) : string :=
  match h !! CanonicalMIMEHeaderKey key with
  | Some (v :: _) => v
  | _ => ""
  end.
(** [h.Set(key, value)] *)
Definition Set_ (h : Header) (key value : string) : Header :=
  <[CanonicalMIMEHeaderKey key := [value]]> h.
(** [h.Del(key)] *)
Definition Del (h : Header) (key : string) : Header :=
  delete (CanonicalMIMEHeaderKey key) h.

(** The part of [*http.Request] the gateway reads. *)
Record Request := {
  Method : string;
  URLPath : string;
  ReqHeader : Header;
  RemoteAddr : string;
  Body : string
}.

(** What an [http.ResponseWriter] has received: the header map, the status
    line once written, and the body, as the pieces written to it: text, or
    a value given to a JSON encoder (kept as the value). *)
Inductive Chunk :=
  | Text (s : string)
  | Json (v : Encoded).

Record ResponseWriter := {
  RespHeader : Header;
  Status : option Z;
  Written : list Chunk
}.

Definition newWriter : ResponseWriter :=
  {| RespHeader := ∅; Status := None; Written := [] |}.

Definition SetHeader (w : ResponseWriter) (key value : string) : ResponseWriter :=
  {| RespHeader := Set_ (RespHeader w) key value; Status := Status w; Written := Written w |}.

(** [w.WriteHeader(code)]: the first status written stands. *)
Definition WriteHeader (w : ResponseWriter) (code : Z) : ResponseWriter :=
  match Status w with
  | Some _ => w
  | None => {| RespHeader := RespHeader w; Status := Some code; Written := Written w |}
  end.

(** [w.Write(data)]: writes status 200 first if none was written. *)
Definition Write (w : ResponseWriter) (data : Chunk) : ResponseWriter :=
  let w := WriteHeader w 200 in
  {| RespHeader := RespHeader w; Status := Status w; Written := Written w ++ [data] |}.

Definition StatusOK : Z := 200.
Definition StatusBadRequest : Z := 400.
Definition StatusMethodNotAllowed : Z := 405.
Definition StatusTooManyRequests : Z := 429.
Definition StatusInternalServerError : Z := 500.

(** [http.StatusText] on the codes the gateway sends. *)
Definition StatusText (code : Z) : string :=
  if decide (code = 200) then "OK"
  else if decide (code = 400) then "Bad Request"
  else if decide (code = 405) then "Method Not Allowed"
  else if decide (code = 429) then "Too Many Requests"
  else if decide (code = 500) then "Internal Server Error"
  else "".

(** [http.Error(w, error, code)] *)
Definition Error (w : ResponseWriter) (error : string) (code : Z) : ResponseWriter :=
  let h := Del (RespHeader w) "Content-Length" in
  let h := Set_ h "Content-Type" "text/plain; charset=utf-8" in
  let h := Set_ h "X-Content-Type-Options" "nosniff" in
  let w := {| RespHeader := h; Status := Status w; Written := Written w |} in
  let w := WriteHeader w code in
  Write w (Text (error +:+ String (ascii_of_nat 10) EmptyString)).
End GoHTTP.

(** ** Package services *)

Module Services.
Import GoTime Models GoHTTP.

(** [type LLMRequest struct] *)
Record LLMRequest := {
  LLMPrompt : string;
  MaxLength : Z;
  LLMTemperature : float;
  TopP : float;
  DoSample : bool
}.

(** [type LLMResponse struct] *)
Record LLMResponse := {
  GeneratedText : string;
  EchoedPrompt : string
}.

(** The value marshalled into the body of an outbound request. *)
Inductive Payload :=
  | NoPayload
  | LLMPayload (request : LLMRequest)
  | ChatPayload (messages : list ChatMessage) (max_tokens : Z) (temperature : float).

(** An outbound request given to [client.Do]. *)
Record BackendCall := {
  CallMethod : string;
  CallURL : string;
  CallPayload : Payload
}.

(** What [client.Do] followed by [io.ReadAll] comes back with: a transport
    error (no connection, timeout), an error while reading the body, or a
    status code and a body. *)
Inductive BackendReply :=
  | TransportFailure (err : string)
  | ReadFailure (err : string)
  | Reply (statusCode : Z) (body : string).

(** [encoding/json] on the backend's answers: the decoded value or the
    text of the decoding error. *)
Record Unmarshal := {
  unmarshalLLMResponse : string → LLMResponse + string;
  unmarshalObject : string → JObject + string
}.

(** [type AIService struct]; the [*http.Client] is the function from a
    request to what comes back. *)
Record AIService := {
  client : BackendCall → BackendReply;
  llmBaseURL : string;
  model : string
}.

(** [func NewAIService() *AIService], for a given transport. *)
Definition NewAIService (transport : BackendCall → BackendReply) : AIService :=
  {| client := transport; llmBaseURL := "http://llm-server:8082"; model := "distilgpt2" |}.

(** An [error], by its message. *)
Definition error : Type := string.

(** [fmt.Errorf(prefix + ": %w", err)] *)
Definition wrapError (prefix : string) (err : error) : error :=
  prefix +:+ ": " +:+ err.

(** [json.Marshal] refuses a float that is not finite. *)
Definition finite (f : float) : bool :=
  negb (PrimFloat.is_nan f || PrimFloat.is_infinity f).

Definition unsupportedValue : error := "json: unsupported value".

(** What a service call gives back: the Go result pair, and the requests
    it sent to the backend. *)
Definition Outcome (A : Type) : Type := (A + error) * list BackendCall.

Section WithJSON.
Context (json : Unmarshal).

(** [func (s *AIService) callLLMEndpointWithJSON] for the chat map *)
Definition callLLMEndpointWithJSON (s : AIService) (endpoint : string)
    (messages : list ChatMessage) (maxTokens : Z) (temperature : float)
    : Outcome JObject :=
  if negb (finite temperature)
  then (inr (wrapError "failed to marshal request" unsupportedValue), [])
  else
    let url := llmBaseURL s +:+ endpoint in
    let req := {| CallMethod := "POST"; CallURL := url;
                  CallPayload := ChatPayload messages maxTokens temperature |} in
    (match client s req with
     | TransportFailure err =>
         inr (wrapError ("failed to connect to LLM server at " +:+ url) err)
     | ReadFailure err => inr (wrapError "failed to read response" err)
     | Reply statusCode body =>
         if decide (statusCode ≠ StatusOK)
         then inr ("LLM server responded with status " +:+ pretty statusCode
                   +:+ ": " +:+ body)
         else match unmarshalObject json body with
              | inr err => inr (wrapError "failed to parse LLM response" err)
              | inl response => inl response
              end
     end, [req]).

(** [func (s *AIService) callLLMEndpoint] *)
Definition callLLMEndpoint (s : AIService) (endpoint : string)
    (request : LLMRequest) : Outcome string :=
  if negb (finite (LLMTemperature request) && finite (TopP request))
  then (inr (wrapError "failed to marshal request" unsupportedValue), [])
  else
    let url := llmBaseURL s +:+ endpoint in
    let req := {| CallMethod := "POST"; CallURL := url;
                  CallPayload := LLMPayload request |} in
    (match client s req with
     | TransportFailure err =>
         inr (wrapError ("failed to connect to LLM server at " +:+ url) err)
     | ReadFailure err => inr (wrapError "failed to read response" err)
     | Reply statusCode body =>
         if decide (statusCode ≠ StatusOK)
         then inr ("LLM server responded with status " +:+ pretty statusCode
                   +:+ ": " +:+ body)
         else match unmarshalLLMResponse json body with
              | inr err => inr (wrapError "failed to parse LLM response" err)
              | inl response =>
                  let generatedText := GeneratedText response in
                  if decide (generatedText = "")
                  then inr "LLM server returned empty generated text"
                  else inl generatedText
              end
     end, [req]).

(** [func (s *AIService) GetChatCompletion] *)
Definition GetChatCompletion (s : AIService) (messages : list ChatMessage)
    (maxTokens : Z) (temperature : float) : Outcome string :=
  if decide (length messages = 0%nat)
  then (inr "messages cannot be empty", [])
  else
    match callLLMEndpointWithJSON s "/chat/completions" messages maxTokens temperature with
    | (inr err, calls) => (inr (wrapError "chat completion failed" err), calls)
    | (inl response, calls) =>
        match response !! "content" with
        | Some (JString content) => (inl (GoStrings.TrimSpace content), calls)
        | _ =>
            match response !! "generated_text" with
            | Some (JString generatedText) =>
                (inl (GoStrings.TrimSpace generatedText), calls)
            | _ => (inr "unexpected response format from LLM server", calls)
            end
        end
    end.

(** [func (s *AIService) GetComplete] *)
Definition GetComplete (s : AIService) (prompt : string) (maxTokens : Z)
    (temperature : float) : Outcome string :=
  if decide (prompt = "") then (inr "prompt cannot be empty", [])
  else
    let maxTokens := if decide (maxTokens = 0) then 150 else maxTokens in
    let temperature :=
      if PrimFloat.eqb temperature 0 then 0x1.6666666666666p-1%float else temperature in
    let request := {| LLMPrompt := prompt; MaxLength := maxTokens;
                      LLMTemperature := temperature; TopP := 0; DoSample := true |} in
    if negb (finite temperature)
    then (inr (wrapError "failed to marshal request" unsupportedValue), [])
    else
      let url := llmBaseURL s +:+ "/complete" in
      let req := {| CallMethod := "POST"; CallURL := url;
                    CallPayload := LLMPayload request |} in
      (match client s req with
       | TransportFailure err => inr (wrapError "failed to connect to LLM server" err)
       | ReadFailure err => inr (wrapError "failed to read response" err)
       | Reply statusCode body =>
           if decide (statusCode ≠ StatusOK)
           then inr ("LLM server responded with status " +:+ pretty statusCode
                     +:+ ": " +:+ body)
           else match unmarshalObject json body with
                | inr err => inr (wrapError "failed to parse LLM response" err)
                | inl response =>
                    match response !! "completion" with
                    | Some (JString completion) =>
                        if decide (completion ≠ "") then inl completion
                        else inr "LLM server returned empty or invalid completion"
                    | _ => inr "LLM server returned empty or invalid completion"
                    end
                end
       end, [req]).

(** [func (s *AIService) GetGenerate] *)
Definition GetGenerate (s : AIService) (prompt : string) (maxTokens : Z)
    (temperature : float) : Outcome string :=
  if decide (prompt = "") then (inr "prompt cannot be empty", [])
  else
    let maxTokens := if decide (maxTokens = 0) then 150 else maxTokens in
    let temperature :=
      if PrimFloat.eqb temperature 0 then 0x1.6666666666666p-1%float else temperature in
    let request := {| LLMPrompt := prompt; MaxLength := maxTokens;
                      LLMTemperature := temperature; TopP := 0; DoSample := true |} in
    match callLLMEndpoint s "/generate" request with
    | (inr err, calls) => (inr (wrapError "generation failed" err), calls)
    | (inl response, calls) => (inl response, calls)
    end.

(** [func (s *AIService) GetModelInfo] *)
Definition GetModelInfo (s : AIService) : Outcome JObject :=
  let url := llmBaseURL s +:+ "/model-info" in
  let req := {| CallMethod := "GET"; CallURL := url; CallPayload := NoPayload |} in
  (match client s req with
   | TransportFailure err => inr (wrapError "failed to connect to LLM server" err)
   | ReadFailure err => inr (wrapError "failed to read response" err)
   | Reply statusCode body =>
       if decide (statusCode ≠ StatusOK)
       then inr ("LLM server responded with status " +:+ pretty statusCode
                 +:+ ": " +:+ body)
       else match unmarshalObject json body with
            | inr err => inr (wrapError "failed to parse model info" err)
            | inl modelInfo => inl modelInfo
            end
   end, [req]).

(** [func (s *AIService) GetModel] *)
Definition GetModel (s : AIService) : string := model s.
End WithJSON.
End Services.

(** ** Package main: the rate limiter *)

Module Main.
Import GoTime GoStrings GoHTTP Services.

(** [type ClientLimiter struct { requests []time.Time; mutex sync.Mutex }]
    The mutex is part of the interleaving model further down; the
    sequential functions below are the bodies run under it. *)
Record ClientLimiter := { requests : list Time }.

(** [type RateLimiter struct { clients map[string]*ClientLimiter; ... }]
    A key bound to [nil] never occurs: the map only ever receives freshly
    allocated limiters. *)
Record RateLimiter := { clients : gmap string ClientLimiter }.

(** [var rateLimiter = &RateLimiter{clients: make(map[string]*ClientLimiter)}] *)
Definition rateLimiter : RateLimiter := {| clients := ∅ |}.

(** The timestamp slice recorded for an identity (empty when the identity
    has no entry). *)
Definition window (clientIP : string) (rl : RateLimiter) : list Time :=
  match clients rl !! clientIP with
  | Some client => requests client
  | None => []
  end.

(** The "get or create client limiter" block of [isAllowed]. *)
Definition getOrCreate (clientIP : string) (rl : RateLimiter) : RateLimiter :=
  match clients rl !! clientIP with
  | None => {| clients := <[clientIP := {| requests := [] |}]> (clients rl) |}
  | Some _ => rl
  end.

(** [client.requests = reqs] through the pointer held in the map. *)
Definition setRequests (clientIP : string) (reqs : list Time)
    (rl : RateLimiter) : RateLimiter :=
  {| clients := <[clientIP := {| requests := reqs |}]> (clients rl) |}.

(** The loop "remove requests older than 1 minute": the entries that are
    [After] the cutoff, in their order. *)
Definition validRequests (cutoff : Time) (reqs : list Time) : list Time :=
  List.filter (λ reqTime, After reqTime cutoff) reqs.

(** [func isAllowed(clientIP string, limit int) bool]; [now] is the value
    [time.Now()] returns inside the call. *)
Definition isAllowed (now : Time) (clientIP : string) (limit : Z)
    (rl : RateLimiter) : bool * RateLimiter :=
  let rl := getOrCreate clientIP rl in
  let oneMinuteAgo := Add now (- Minute) in
  let valid := validRequests oneMinuteAgo (window clientIP rl) in
  if Z.of_nat (length valid) >=? limit
  then (false, setRequests clientIP valid rl)
  else (true, setRequests clientIP (valid ++ [now]) rl).

(** [func getRemainingRequests(clientIP string, limit int) int] *)
Definition getRemainingRequests (now : Time) (clientIP : string) (limit : Z)
    (rl : RateLimiter) : Z :=
  match clients rl !! clientIP with
  | None => GoInt.sub limit 1
  | Some client =>
      let oneMinuteAgo := Add now (- Minute) in
      let validCount := Z.of_nat (length (validRequests oneMinuteAgo (requests client))) in
      let remaining := GoInt.sub limit validCount in
      if remaining <? 0 then 0 else remaining
  end.

(** A client issuing requests one after the other against one quota: the
    decisions, in order, and the limiter state left behind. *)
Fixpoint serve (clientIP : string) (limit : Z) (nows : list Time)
    (rl : RateLimiter) : list bool * RateLimiter :=
  match nows with
  | [] => ([], rl)
  | now :: rest =>
      let '(ok, rl1) := isAllowed now clientIP limit rl in
      let '(oks, rl2) := serve clientIP limit rest rl1 in
      (ok :: oks, rl2)
  end.

(** [func getClientIP(r *http.Request) string] *)
Definition getClientIP (r : Request) : string :=
  let xff := Get (ReqHeader r) "X-Forwarded-For" in
  if decide (xff ≠ "") then
    let ips := Split xff ","%char in
    TrimSpace (first ips)
  else
    let xri := Get (ReqHeader r) "X-Real-IP" in
    if decide (xri ≠ "") then xri
    else
      let ip := first (Split (RemoteAddr r) ":"%char) in
      ip.

(** The process state a request runs against: the global limiter, the
    wall clock, given as the successive values [time.Now()] returns, and
    the requests sent to the backend so far. *)
Record World := {
  limiter : RateLimiter;
  clock : nat → Time;
  reads : nat;
  outbound : list BackendCall
}.

(** [time.Now()] *)
Definition timeNow (s : World) : Time * World :=
  (clock s (reads s),
   {| limiter := limiter s; clock := clock s; reads := S (reads s);
      outbound := outbound s |}).

Definition setLimiter (rl : RateLimiter) (s : World) : World :=
  {| limiter := rl; clock := clock s; reads := reads s; outbound := outbound s |}.

(** The requests a service call sent, added to the record. *)
Definition sent (calls : list BackendCall) (s : World) : World :=
  {| limiter := limiter s; clock := clock s; reads := reads s;
     outbound := outbound s ++ calls |}.

(** [http.HandlerFunc], in state-passing style: the writer and the world
    after the handler ran. *)
Definition HandlerFunc : Type :=
  ResponseWriter → Request → World → ResponseWriter * World.

(** The literal body of the 429 answer:
    {error: Rate limit exceeded, message: Too many requests. Please try
    again later., code: 429} as JSON text. *)
Definition rateLimitBody : string :=
  "{" +:+ quoted "error" +:+ ":" +:+ quoted "Rate limit exceeded" +:+ ","
      +:+ quoted "message" +:+ ":"
      +:+ quoted "Too many requests. Please try again later." +:+ ","
      +:+ quoted "code" +:+ ":429}".

(** [func rateLimitMiddleware(requestsPerMinute int) func(http.HandlerFunc) http.HandlerFunc] *)
Definition rateLimitMiddleware (requestsPerMinute : Z) (next : HandlerFunc)
    : HandlerFunc :=
  λ w r s,
    let clientIP := getClientIP r in
    let '(now, s) := timeNow s in
    let '(ok, rl) := isAllowed now clientIP requestsPerMinute (limiter s) in
    let s := setLimiter rl s in
    if negb ok then
      let w := SetHeader w "X-RateLimit-Limit" (GoInt.Itoa requestsPerMinute) in
      let w := SetHeader w "X-RateLimit-Remaining" "0" in
      let '(t, s) := timeNow s in
      let w := SetHeader w "X-RateLimit-Reset" (GoInt.Itoa (Unix (Add t Minute))) in
      let w := SetHeader w "Access-Control-Allow-Origin" "*" in
      let w := SetHeader w "Access-Control-Allow-Methods" "GET, POST, OPTIONS" in
      let w := SetHeader w "Access-Control-Allow-Headers" "Content-Type" in
      (GoHTTP.Error w rateLimitBody StatusTooManyRequests, s)
    else
      let '(now', s) := timeNow s in
      let remaining := getRemainingRequests now' clientIP requestsPerMinute (limiter s) in
      let w := SetHeader w "X-RateLimit-Limit" (GoInt.Itoa requestsPerMinute) in
      let w := SetHeader w "X-RateLimit-Remaining" (GoInt.Itoa remaining) in
      let '(t, s) := timeNow s in
      let w := SetHeader w "X-RateLimit-Reset" (GoInt.Itoa (Unix (Add t Minute))) in
      next w r s.

(** [func corsMiddleware(next http.HandlerFunc) http.HandlerFunc] *)
Definition corsMiddleware (next : HandlerFunc) : HandlerFunc :=
  λ w r s,
    let w := SetHeader w "Access-Control-Allow-Origin" "*" in
    let w := SetHeader w "Access-Control-Allow-Methods" "GET, POST, OPTIONS" in
    let w := SetHeader w "Access-Control-Allow-Headers" "Content-Type" in
    if decide (Method r = "OPTIONS") then (WriteHeader w StatusOK, s)
    else next w r s.

(** [func protectedHandler(handler http.HandlerFunc, rateLimit int) http.HandlerFunc] *)
Definition protectedHandler (handler : HandlerFunc) (rateLimit : Z) : HandlerFunc :=
  corsMiddleware (rateLimitMiddleware rateLimit handler).

(** The body of the [range rateLimiter.clients] loop in
    [cleanupOldClients], for the entry the iteration is at. *)
Definition hasRecentRequests (fiveMinutesAgo : Time) (client : ClientLimiter) : bool :=
  existsb (λ reqTime, After reqTime fiveMinutesAgo) (requests client).

Definition sweepVisit (fiveMinutesAgo : Time) (rl : RateLimiter) (clientIP : string)
    : RateLimiter :=
  match clients rl !! clientIP with
  | Some client =>
      if negb (hasRecentRequests fiveMinutesAgo client)
      then {| clients := delete clientIP (clients rl) |}
      else rl
  | None => rl
  end.

(** The map after the loop visited the identities of [visited], in that
    order. Go fixes no iteration order; the body deletes only the entry it
    is at, so a full iteration visits every identity of the map once. *)
Definition sweep (fiveMinutesAgo : Time) (visited : list string) (rl : RateLimiter)
    : RateLimiter :=
  foldl (sweepVisit fiveMinutesAgo) rl visited.

(** One tick of the reclaim goroutine of [cleanupOldClients], iterating in
    [order]. *)
Definition cleanupCycle (now : Time) (order : list string) (rl : RateLimiter)
    : RateLimiter :=
  let fiveMinutesAgo := Add now (- 5 * Minute) in
  sweep fiveMinutesAgo order rl.

(** [order] is an order in which [range] can produce the map's keys. *)
Definition iterationOrder (order : list string) (rl : RateLimiter) : Prop :=
  NoDup order ∧ ∀ clientIP, clientIP ∈ order ↔ is_Some (clients rl !! clientIP).

(** *** Notions of the specification *)

(** Every request time of [all] lies within 60 seconds of every other. *)
Definition oneWindow (all : list Time) : Prop :=
  Forall (λ a, Forall (λ b, a - Minute < b) all) all.

(** Every timestamp of [reqs] has aged out for every request of [all]. *)
Definition agedOut (reqs : list Time) (all : list Time) : Prop :=
  Forall (λ t, Forall (λ now, t <= now - Minute) all) reqs.

(** The times of the requests that were admitted. *)
Fixpoint admittedTimes (oks : list bool) (nows : list Time) : list Time :=
  match oks, nows with
  | ok :: oks', now :: nows' =>
      (if ok then [now] else []) ++ admittedTimes oks' nows'
  | _, _ => []
  end.

(** The entries of [l] in the 60 seconds that end at [T]. *)
Definition inWindow (T : Time) (l : list Time) : list Time :=
  List.filter (λ t, (T - Minute <? t) && (t <=? T)) l.

(** The reset time the specification gives for a denied request: the time
    of the oldest retained timestamp plus 60 seconds, in epoch seconds. *)
Definition resetFromOldest (retained : list Time) : option Z :=
  match retained with
  | oldest :: _ => Some (Unix (Add oldest Minute))
  | [] => None
  end.

(** The specification's account of the reclaim cycle: no removal while
    the iteration is under way, so as long as identities remain to be
    visited the map is the one the cycle found. *)
Definition removalAfterIteration (fiveMinutesAgo : Time) (order : list string)
    (rl : RateLimiter) : Prop :=
  ∀ visited rest,
    order = visited ++ rest → rest ≠ [] → sweep fiveMinutesAgo visited rl = rl.

(** The specification's third rule of identity resolution: the peer
    address with its port suffix, the last colon and what follows it,
    removed. *)
Fixpoint afterColon (l : list ascii) : option (list ascii) :=
  match l with
  | [] => None
  | c :: rest => if decide (c = ":"%char) then Some rest else afterColon rest
  end.

Definition stripPortSuffix (addr : string) : string :=
  match afterColon (reverse (list_ascii_of_string addr)) with
  | Some host => string_of_list_ascii (reverse host)
  | None => addr
  end.
End Main.

(** ** Package handlers *)

Module Handlers.
Import GoTime GoHTTP Models Services Main.

(** [json.NewDecoder(r.Body).Decode(&req)] for the two request shapes:
    the decoded struct, or nothing when decoding fails. A field the body
    does not mention is left at its zero value (0, the empty string). *)
Record Decode := {
  decodeChat : string → option ChatCompletionRequest;
  decodePrompt : string → option PromptRequest
}.

(** [type AIHandler struct] *)
Record AIHandler := { aiService : AIService }.

(** [func NewAIHandler() *AIHandler], for a given transport. *)
Definition NewAIHandler (transport : BackendCall → BackendReply) : AIHandler :=
  {| aiService := NewAIService transport |}.

Definition MethodPost : string := "POST".

(** [func (h *AIHandler) sendErrorResponse] *)
Definition sendErrorResponse (w : ResponseWriter) (statusCode : Z)
    (message : string) : ResponseWriter :=
  let response := {| Error := StatusText statusCode; Code := statusCode;
                     Message := message |} in
  let w := SetHeader w "Content-Type" "application/json" in
  let w := WriteHeader w statusCode in
  Write w (Json (EncError response)).

(** The success tail shared by the three text handlers. *)
Definition sendText (w : ResponseWriter) (response : TextResponse) : ResponseWriter :=
  let w := SetHeader w "Content-Type" "application/json" in
  let w := WriteHeader w StatusOK in
  Write w (Json (EncText response)).

Section WithJSON.
Context (decode : Decode) (json : Unmarshal).

(** [func (h *AIHandler) HandleChatCompletion] *)
Definition HandleChatCompletion (h : AIHandler) : HandlerFunc :=
  λ w r s,
    if decide (Method r ≠ MethodPost)
    then (sendErrorResponse w StatusMethodNotAllowed "Method not allowed", s)
    else
      match decodeChat decode (Body r) with
      | None => (sendErrorResponse w StatusBadRequest "Invalid JSON format", s)
      | Some req =>
          if decide (length (Messages req) = 0%nat)
          then (sendErrorResponse w StatusBadRequest "Messages cannot be empty", s)
          else
            let maxTokens :=
              if decide (ChatMaxTokens req = 0) then 150 else ChatMaxTokens req in
            let temperature :=
              if PrimFloat.eqb (ChatTemperature req) 0
              then 0x1.6666666666666p-1%float else ChatTemperature req in
            let '(result, calls) :=
              GetChatCompletion json (aiService h) (Messages req) maxTokens temperature in
            let s := sent calls s in
            match result with
            | inr err =>
                (sendErrorResponse w StatusInternalServerError
                   "Failed to get chat completion", s)
            | inl aiResponse =>
                let '(now, s) := timeNow s in
                (sendText w {| Response := aiResponse; RespUserID := ChatUserID req;
                               Timestamp := now; Model := GetModel (aiService h) |}, s)
            end
      end.

(** [func (h *AIHandler) HandleComplete] *)
Definition HandleComplete (h : AIHandler) : HandlerFunc :=
  λ w r s,
    if decide (Method r ≠ MethodPost)
    then (sendErrorResponse w StatusMethodNotAllowed "Method not allowed", s)
    else
      match decodePrompt decode (Body r) with
      | None => (sendErrorResponse w StatusBadRequest "Invalid JSON format", s)
      | Some req =>
          if decide (Prompt req = "")
          then (sendErrorResponse w StatusBadRequest "Prompt cannot be empty", s)
          else
            let maxTokens := if decide (MaxTokens req = 0) then 150 else MaxTokens req in
            let temperature :=
              if PrimFloat.eqb (Temperature req) 0
              then 0x1.6666666666666p-1%float else Temperature req in
            let '(result, calls) :=
              GetComplete json (aiService h) (Prompt req) maxTokens temperature in
            let s := sent calls s in
            match result with
            | inr err =>
                (sendErrorResponse w StatusInternalServerError
                   "Failed to get completion", s)
            | inl aiResponse =>
                let '(now, s) := timeNow s in
                (sendText w {| Response := aiResponse; RespUserID := UserID req;
                               Timestamp := now; Model := GetModel (aiService h) |}, s)
            end
      end.

(** [func (h *AIHandler) HandleGenerate] *)
Definition HandleGenerate (h : AIHandler) : HandlerFunc :=
  λ w r s,
    if decide (Method r ≠ MethodPost)
    then (sendErrorResponse w StatusMethodNotAllowed "Method not allowed", s)
    else
      match decodePrompt decode (Body r) with
      | None => (sendErrorResponse w StatusBadRequest "Invalid JSON format", s)
      | Some req =>
          if decide (Prompt req = "")
          then (sendErrorResponse w StatusBadRequest "Prompt cannot be empty", s)
          else
            let maxTokens := if decide (MaxTokens req = 0) then 150 else MaxTokens req in
            let temperature :=
              if PrimFloat.eqb (Temperature req) 0
              then 0x1.6666666666666p-1%float else Temperature req in
            let '(result, calls) :=
              GetGenerate json (aiService h) (Prompt req) maxTokens temperature in
            let s := sent calls s in
            match result with
            | inr err =>
                (sendErrorResponse w StatusInternalServerError
                   "Failed to get generation", s)
            | inl aiResponse =>
                let '(now, s) := timeNow s in
                (sendText w {| Response := aiResponse; RespUserID := UserID req;
                               Timestamp := now; Model := GetModel (aiService h) |}, s)
            end
      end.

(** [func (h *AIHandler) HandleHealth] *)
Definition HandleHealth (h : AIHandler) : HandlerFunc :=
  λ w r s,
    let '(now, s) := timeNow s in
    let response := {| HealthStatus := "healthy"; HealthTimestamp := now;
                       Version := "1.0.0" |} in
    let w := SetHeader w "Content-Type" "application/json" in
    let w := WriteHeader w StatusOK in
    (Write w (Json (EncHealth response)), s).

(** [func (h *AIHandler) HandleModelInfo] *)
Definition HandleModelInfo (h : AIHandler) : HandlerFunc :=
  λ w r s,
    let '(result, calls) := GetModelInfo json (aiService h) in
    let s := sent calls s in
    match result with
    | inr err =>
        (sendErrorResponse w StatusInternalServerError
           "Failed to get model information", s)
    | inl modelInfo =>
        let w := SetHeader w "Content-Type" "application/json" in
        let w := WriteHeader w StatusOK in
        (Write w (Json (EncObject modelInfo)), s)
    end.
End WithJSON.

(** *** Notions of the specification *)

(** What [encoding/json] decodes from an object with these members (a
    member is absent, or present with a value): an absent member leaves the
    field at its zero value. *)
Record PromptMembers := {
  prompt_member : option string;
  max_tokens_member : option Z;
  temperature_member : option float;
  user_id_member : option string
}.

Definition fromMembers (m : PromptMembers) : PromptRequest :=
  {| Prompt := default "" (prompt_member m);
     MaxTokens := default 0 (max_tokens_member m);
     Temperature := default 0%float (temperature_member m);
     UserID := default "" (user_id_member m) |}.

Record ChatMembers := {
  messages_member : option (list ChatMessage);
  chat_max_tokens_member : option Z;
  chat_temperature_member : option float;
  chat_user_id_member : option string
}.

Definition fromChatMembers (m : ChatMembers) : ChatCompletionRequest :=
  {| Messages := default [] (messages_member m);
     ChatMaxTokens := default 0 (chat_max_tokens_member m);
     ChatTemperature := default 0%float (chat_temperature_member m);
     ChatUserID := default "" (chat_user_id_member m) |}.

(** What the specification says of the numbers sent to the backend:
    150 for a token limit of 0, 0.7 for a temperature of 0, the caller's
    value otherwise. *)
Definition defaultsApplied (maxTokens : Z) (temperature : float)
    (sentTokens : Z) (sentTemperature : float) : Prop :=
  (maxTokens = 0 → sentTokens = 150) ∧
  (maxTokens ≠ 0 → sentTokens = maxTokens) ∧
  (PrimFloat.eqb temperature 0 = true → sentTemperature = 0x1.6666666666666p-1%float) ∧
  (PrimFloat.eqb temperature 0 = false → sentTemperature = temperature).


(** The 500 answer with a fixed message, on writer [w]. *)
Definition genericError (w : ResponseWriter) (message : string) (out : ResponseWriter)
    : Prop :=
  Status out = Some 500 ∧
  Written out =
    Written w ++ [Json (EncError {| Models.Error := "Internal Server Error"; Code := 500;
                                    Message := message |})].

(** The value each "set defaults" block computes. *)
Definition orDefaultTokens (maxTokens : Z) : Z :=
  if decide (maxTokens = 0) then 150 else maxTokens.
Definition orDefaultTemperature (temperature : float) : float :=
  if PrimFloat.eqb temperature 0 then 0x1.6666666666666p-1%float else temperature.

(** The request each handler sends to the backend for a decoded body. *)
Definition promptCall (h : AIHandler) (endpoint : string) (req : PromptRequest)
    : BackendCall :=
  {| CallMethod := "POST"; CallURL := llmBaseURL (aiService h) +:+ endpoint;
     CallPayload :=
       LLMPayload {| LLMPrompt := Prompt req;
                     MaxLength := orDefaultTokens (MaxTokens req);
                     LLMTemperature := orDefaultTemperature (Temperature req);
                     TopP := 0; DoSample := true |} |}.

Definition chatCall (h : AIHandler) (req : ChatCompletionRequest) : BackendCall :=
  {| CallMethod := "POST"; CallURL := llmBaseURL (aiService h) +:+ "/chat/completions";
     CallPayload := ChatPayload (Messages req) (orDefaultTokens (ChatMaxTokens req))
                      (orDefaultTemperature (ChatTemperature req)) |}.

Definition modelInfoCall (h : AIHandler) : BackendCall :=
  {| CallMethod := "GET"; CallURL := llmBaseURL (aiService h) +:+ "/model-info";
     CallPayload := NoPayload |}.
End Handlers.

(** ** Package main: the routes *)

Module Wiring.
Import GoHTTP Services Main Handlers.

(** The routes [func main()] registers behind [protectedHandler], with
    their quotas. [root] is the closure registered for the path "/". The
    Swagger and documentation routes are registered without the pipeline
    and are served by library handlers. *)
Definition routes (decode : Decode) (json : Unmarshal) (aiHandler : AIHandler)
    (root : HandlerFunc) : list (string * HandlerFunc) :=
  [ ("/ai/chat/completions",
     protectedHandler (HandleChatCompletion decode json aiHandler) 30);
    ("/ai/complete", protectedHandler (HandleComplete decode json aiHandler) 30);
    ("/ai/generate", protectedHandler (HandleGenerate decode json aiHandler) 30);
    ("/ai/model-info", protectedHandler (HandleModelInfo json aiHandler) 100);
    ("/health", protectedHandler (HandleHealth aiHandler) 200);
    ("/", protectedHandler root 100) ].
End Wiring.

(** ** Goroutines running [isAllowed] side by side *)

Module Interleaving.
Import GoTime Main.

(** Where a goroutine stands in its call [isAllowed(clientIP, limit)]:
    at each point, what it does next. A point is one operation on a mutex,
    or at most one access to the memory the goroutines share: the nil
    check and the insertion, the loop and the assignment of its result,
    the length check and the append, the read and the write of the append
    are points of their own, and another goroutine may run between any
    two of them. The locals of the call ([now], [validRequests], the
    length the check read, the slice [append] returned) travel with the
    point. *)
Inductive Point :=
  | AtLock                    (* 104: rateLimiter.mutex.Lock() *)
  | AtLookup                  (* 108: rateLimiter.clients[clientIP] == nil *)
  | AtCreate                  (* 109: rateLimiter.clients[clientIP] = &ClientLimiter{...} *)
  | AtClient                  (* 114: client := rateLimiter.clients[clientIP] *)
  | AtClientLock              (* 115: client.mutex.Lock() *)
  | AtNow                     (* 118: now := time.Now(); oneMinuteAgo := now.Add(-time.Minute) *)
  | AtLoop (now : Time)       (* 122: the loop over client.requests *)
  | AtAssign (now : Time) (valid : list Time)
                              (* 128: client.requests = validRequests *)
  | AtCheck (now : Time)      (* 131: len(client.requests) >= limit *)
  | AtAppend (now : Time) (count : nat)
                              (* 136: append(client.requests, now) *)
  | AtStore (now : Time) (count : nat) (appended : list Time)
                              (* 136: client.requests = the slice appended to *)
  | AtUnlockClient (result : bool) (count : nat)  (* deferred client.mutex.Unlock() *)
  | AtUnlock (result : bool) (count : nat)        (* deferred rateLimiter.mutex.Unlock() *)
  | Returned (result : bool) (count : nat).

(** A goroutine: the arguments of its call, and where it stands. [count]
    at the last three points is the length the check read. *)
Record Goroutine := {
  clientIP : string;
  limit : Z;
  pc : Point
}.

(** The memory the goroutines share: the limiter's map, who holds
    [rateLimiter.mutex], and who holds the mutex of each client. *)
Record Shared := {
  store : RateLimiter;
  mapMutex : option nat;
  clientMutex : gmap string nat
}.

Record Config := {
  shared : Shared;
  goroutines : list Goroutine
}.

Definition at_ (g : Goroutine) (p : Point) : Goroutine :=
  {| clientIP := clientIP g; limit := limit g; pc := p |}.

(** A write to the limiter; the mutexes stay as they are. *)
Definition write (rl : RateLimiter) (m : Shared) : Shared :=
  {| store := rl; mapMutex := mapMutex m; clientMutex := clientMutex m |}.

(** What goroutine [g], number [i], does at its point, on the shared
    memory; [now] is what the clock shows if it reads it. Nothing when the
    goroutine waits for a mutex or has returned. The local [client] is
    the pointer the map holds for [clientIP]: the goroutine reaches the
    client through the map. The range expression of the loop is evaluated
    once, and the loop fills a slice of its own. *)
Definition perform (i : nat) (now : Time) (g : Goroutine) (m : Shared)
    : option (Goroutine * Shared) :=
  match pc g with
  | AtLock =>
      match mapMutex m with
      | Some _ => None
      | None =>
          Some (at_ g AtLookup,
                {| store := store m; mapMutex := Some i; clientMutex := clientMutex m |})
      end
  | AtLookup =>
      match clients (store m) !! clientIP g with
      | None => Some (at_ g AtCreate, m)
      | Some _ => Some (at_ g AtClient, m)
      end
  | AtCreate =>
      Some (at_ g AtClient,
            write {| clients := <[clientIP g := {| requests := [] |}]> (clients (store m)) |}
              m)
  | AtClient => Some (at_ g AtClientLock, m)
  | AtClientLock =>
      match clientMutex m !! clientIP g with
      | Some _ => None
      | None =>
          Some (at_ g AtNow,
                {| store := store m; mapMutex := mapMutex m;
                   clientMutex := <[clientIP g := i]> (clientMutex m) |})
      end
  | AtNow => Some (at_ g (AtLoop now), m)
  | AtLoop t =>
      let oneMinuteAgo := Add t (- Minute) in
      let validRequests := validRequests oneMinuteAgo (window (clientIP g) (store m)) in
      Some (at_ g (AtAssign t validRequests), m)
  | AtAssign t validRequests =>
      Some (at_ g (AtCheck t), write (setRequests (clientIP g) validRequests (store m)) m)
  | AtCheck t =>
      let count := length (window (clientIP g) (store m)) in
      if Z.of_nat count >=? limit g
      then Some (at_ g (AtUnlockClient false count), m)
      else Some (at_ g (AtAppend t count), m)
  | AtAppend t count =>
      Some (at_ g (AtStore t count (window (clientIP g) (store m) ++ [t])), m)
  | AtStore t count appended =>
      Some (at_ g (AtUnlockClient true count),
            write (setRequests (clientIP g) appended (store m)) m)
  | AtUnlockClient result count =>
      Some (at_ g (AtUnlock result count),
            {| store := store m; mapMutex := mapMutex m;
               clientMutex := delete (clientIP g) (clientMutex m) |})
  | AtUnlock result count =>
      Some (at_ g (Returned result count),
            {| store := store m; mapMutex := None; clientMutex := clientMutex m |})
  | Returned _ _ => None
  end.

(** Goroutine [i] is scheduled: it runs its point if it can. *)
Definition step (i : nat) (now : Time) (c : Config) : option Config :=
  match goroutines c !! i with
  | None => None
  | Some g =>
      match perform i now g (shared c) with
      | None => None
      | Some (g', m') => Some {| shared := m'; goroutines := <[i := g']> (goroutines c) |}
      end
  end.

(** A schedule: which goroutine gets the processor next, and what the
    clock shows then. A goroutine that cannot move stays where it is. *)
Fixpoint run (schedule : list (nat * Time)) (c : Config) : Config :=
  match schedule with
  | [] => c
  | (i, now) :: rest =>
      match step i now c with
      | Some c' => run rest c'
      | None => run rest c
      end
  end.

(** [n] requests of one identity against one quota, about to start on
    limiter [rl], no mutex held. *)
Definition start (ip : string) (quota : Z) (n : nat) (rl : RateLimiter) : Config :=
  {| shared := {| store := rl; mapMutex := None; clientMutex := ∅ |};
     goroutines := replicate n {| clientIP := ip; limit := quota; pc := AtLock |} |}.

Definition returned (g : Goroutine) : bool :=
  match pc g with Returned _ _ => true | _ => false end.

(** The call has decided to admit: its timestamp is in the window. *)
Definition admitted (g : Goroutine) : bool :=
  match pc g with
  | AtUnlockClient true _ | AtUnlock true _ | Returned true _ => true
  | _ => false
  end.

(** The call has decided to deny. *)
Definition denied (g : Goroutine) : bool :=
  match pc g with
  | AtUnlockClient false _ | AtUnlock false _ | Returned false _ => true
  | _ => false
  end.

(** The length a call that has decided read in its check. *)
Definition observed (g : Goroutine) : option nat :=
  match pc g with
  | AtUnlockClient _ count | AtUnlock _ count | Returned _ count => Some count
  | _ => None
  end.

(** The clock reading of a call that has made it and not yet decided. *)
Definition reading (g : Goroutine) : option Time :=
  match pc g with
  | AtLoop now | AtAssign now _ | AtCheck now | AtAppend now _ | AtStore now _ _ => Some now
  | _ => None
  end.

(** Between [Lock] and the deferred [Unlock] of [rateLimiter.mutex]. *)
Definition inCritical (g : Goroutine) : bool :=
  match pc g with
  | AtLock | Returned _ _ => false
  | _ => true
  end.

(** Between [Lock] and the deferred [Unlock] of the client's mutex. *)
Definition holdsClient (g : Goroutine) : bool :=
  match pc g with
  | AtNow | AtLoop _ | AtAssign _ _ | AtCheck _ | AtAppend _ _ | AtStore _ _ _
  | AtUnlockClient _ _ => true
  | _ => false
  end.

(** The locals of a call agree with the memory: what the call read is
    still what the memory holds. *)
Definition locals (g : Goroutine) (rl : RateLimiter) : Prop :=
  let reqs := window (clientIP g) rl in
  match pc g with
  | AtCreate => clients rl !! clientIP g = None
  | AtAssign now valid => valid = validRequests (Add now (- Minute)) reqs
  | AtAppend now count => count = length reqs ∧ Z.of_nat count < limit g
  | AtStore now count appended =>
      count = length reqs ∧ Z.of_nat count < limit g ∧ appended = reqs ++ [now]
  | _ => True
  end.

(** How many goroutines of a pool satisfy a test. *)
Fixpoint count (test : Goroutine → bool) (gs : list Goroutine) : nat :=
  match gs with
  | [] => 0
  | g :: rest => (if test g then 1 else 0) + count test rest
  end.

(** The points a goroutine has before it at most, and their number over
    a pool. *)
Definition remaining (g : Goroutine) : nat :=
  match pc g with
  | AtLock => 13
  | AtLookup => 12
  | AtCreate => 11
  | AtClient => 10
  | AtClientLock => 9
  | AtNow => 8
  | AtLoop _ => 7
  | AtAssign _ _ => 6
  | AtCheck _ => 5
  | AtAppend _ _ => 4
  | AtStore _ _ _ => 3
  | AtUnlockClient _ _ => 2
  | AtUnlock _ _ => 1
  | Returned _ _ => 0
  end.

Definition work (gs : list Goroutine) : nat := sum_list (remaining <$> gs).

(** What holds of the two mutexes in every configuration a pool of calls
    for identity [ip] reaches: a mutex is held by exactly the goroutine
    that stands between its Lock and its Unlock. *)
Record LockInvariant (ip : string) (c : Config) : Prop := {
  inv_map_mutex : ∀ i g, goroutines c !! i = Some g →
    (inCritical g = true ↔ mapMutex (shared c) = Some i);
  inv_map_holder : ∀ i, mapMutex (shared c) = Some i → is_Some (goroutines c !! i);
  inv_client_mutex : ∀ i g, goroutines c !! i = Some g →
    (holdsClient g = true ↔ clientMutex (shared c) !! ip = Some i);
  inv_client_holder : ∀ i, clientMutex (shared c) !! ip = Some i →
    is_Some (goroutines c !! i)
}.

(** What holds of the window of [ip] in every configuration a pool of
    calls against quota [quota] reaches from an empty window, when the
    clock only shows times of [times]. *)
Record WindowInvariant (ip : string) (quota : Z) (times : list Time) (c : Config)
    : Prop := {
  inv_args : ∀ i g, goroutines c !! i = Some g → clientIP g = ip ∧ limit g = quota;
  inv_fresh : ∀ t, t ∈ window ip (store (shared c)) → t ∈ times;
  inv_clock : ∀ i g now, goroutines c !! i = Some g → reading g = Some now → now ∈ times;
  inv_locals : ∀ i g, goroutines c !! i = Some g → locals g (store (shared c));
  inv_count : length (window ip (store (shared c))) = count admitted (goroutines c);
  inv_quota : Z.of_nat (length (window ip (store (shared c)))) <= quota;
  inv_denied : ∀ i g, goroutines c !! i = Some g → denied g = true →
    quota <= Z.of_nat (length (window ip (store (shared c))));
  inv_observed : ∀ i g n, goroutines c !! i = Some g → admitted g = true →
    observed g = Some n → (n < length (window ip (store (shared c))))%nat;
  inv_distinct : ∀ i j gi gj n, i ≠ j →
    goroutines c !! i = Some gi → goroutines c !! j = Some gj →
    admitted gi = true → admitted gj = true →
    observed gi = Some n → observed gj ≠ Some n
}.

Definition Invariant (ip : string) (quota : Z) (times : list Time) (c : Config) : Prop :=
  LockInvariant ip c ∧ WindowInvariant ip quota times c.
End Interleaving.

(** ** Calls on the one limiter, whatever the identity and the route *)

Module Traffic.
Import GoTime Main.

(** One call of [isAllowed] as the rate-limit stage of a route makes it:
    the identity of the caller, the quota of the route, and the clock
    reading of the call. *)
Record Arrival := {
  identity : string;
  quota : Z;
  instant : Time
}.

(** Calls of [isAllowed] made one after the other on the one limiter, for
    whatever identities and quotas: the decisions, in order, and the
    limiter state left behind. *)
Fixpoint serveAll (arrivals : list Arrival) (rl : RateLimiter)
    : list bool * RateLimiter :=
  match arrivals with
  | [] => ([], rl)
  | a :: rest =>
      let '(ok, rl1) := isAllowed (instant a) (identity a) (quota a) rl in
      let '(oks, rl2) := serveAll rest rl1 in
      (ok :: oks, rl2)
  end.

(** The calls of one identity against one quota, at the given times. *)
Definition arrivalsAt (clientIP : string) (limit : Z) (nows : list Time) : list Arrival :=
  (λ now, {| identity := clientIP; quota := limit; instant := now |}) <$> nows.

(** The arrivals of one identity, and the decisions they received. *)
Definition arrivalsOf (clientIP : string) (arrivals : list Arrival) : list Arrival :=
  List.filter (λ a, bool_decide (identity a = clientIP)) arrivals.

Fixpoint decisionsOf (clientIP : string) (arrivals : list Arrival) (oks : list bool)
    : list bool :=
  match arrivals, oks with
  | a :: arrivals', ok :: oks' =>
      (if bool_decide (identity a = clientIP) then [ok] else [])
      ++ decisionsOf clientIP arrivals' oks'
  | _, _ => []
  end.

(** Two limiters hold the same live timestamps, for every identity and
    every call whose cutoff is [cutoff] or later. *)
Definition sameLive (cutoff : Time) (rl1 rl2 : RateLimiter) : Prop :=
  ∀ clientIP c, cutoff <= c →
    validRequests c (window clientIP rl1) = validRequests c (window clientIP rl2).
End Traffic.

(** ** Package main: the closure for the pattern "/" *)

Module Root.
Import GoStrings GoHTTP Services Main Handlers Wiring.

(** [strings.HasPrefix(s, prefix)] *)
Definition HasPrefix (s prefix : string) : bool :=
  isPrefix (list_ascii_of_string prefix) (list_ascii_of_string s).

Definition StatusNotFound : Z := 404.

(** [http.NotFound(w, r)] *)
Definition NotFound (w : ResponseWriter) (r : Request) : ResponseWriter :=
  GoHTTP.Error w "404 page not found" StatusNotFound.

(** The raw string literal the closure writes: an object of members, one
    per line, indented with tabs as in the source file. *)
Definition newline : string := String (ascii_of_nat 10) EmptyString.
Definition tabs (n : nat) : string := string_of_list_ascii (replicate n (ascii_of_nat 9)).
Definition member (depth : nat) (key value : string) : string :=
  tabs depth +:+ quoted key +:+ ": " +:+ quoted value.
Definition opening (depth : nat) (key : string) : string :=
  tabs depth +:+ quoted key +:+ ": {".

Definition apiInformation : string :=
  "{" +:+ newline
  +:+ member 4 "service" "AI Service API" +:+ "," +:+ newline
  +:+ member 4 "version" "1.0.0" +:+ "," +:+ newline
  +:+ opening 4 "documentation" +:+ newline
  +:+ member 5 "swagger_ui" "/swagger/" +:+ "," +:+ newline
  +:+ member 5 "docs" "/docs" +:+ "," +:+ newline
  +:+ member 5 "openapi_spec" "/swagger/doc.json" +:+ newline
  +:+ tabs 4 +:+ "}," +:+ newline
  +:+ opening 4 "endpoints" +:+ newline
  +:+ member 5 "health" "/health" +:+ "," +:+ newline
  +:+ member 5 "chat_completions" "/ai/chat/completions" +:+ "," +:+ newline
  +:+ member 5 "complete" "/ai/complete" +:+ "," +:+ newline
  +:+ member 5 "generate" "/ai/generate" +:+ "," +:+ newline
  +:+ member 5 "model_info" "/ai/model-info" +:+ newline
  +:+ tabs 4 +:+ "}" +:+ newline
  +:+ tabs 3 +:+ "}".

(** The closure [main] registers for the pattern "/". *)
Definition rootHandler : HandlerFunc :=
  λ w r s,
    if decide (URLPath r = "/") then
      let w := SetHeader w "Access-Control-Allow-Origin" "*" in
      let w := SetHeader w "Access-Control-Allow-Methods" "GET, POST, OPTIONS" in
      let w := SetHeader w "Access-Control-Allow-Headers" "Content-Type" in
      if decide (Method r = "OPTIONS") then (WriteHeader w StatusOK, s)
      else
        let w := SetHeader w "Content-Type" "application/json" in
        let w := WriteHeader w StatusOK in
        (Write w (Text apiInformation), s)
    else if HasPrefix (URLPath r) "/swagger/" then (w, s)
    else
      let w := SetHeader w "Access-Control-Allow-Origin" "*" in
      (NotFound w r, s).

(** The routes of [main] behind the pipeline, the closure included. *)
Definition mainRoutes (decode : Decode) (json : Unmarshal) (aiHandler : AIHandler)
    : list (string * HandlerFunc) :=
  routes decode json aiHandler rootHandler.
End Root.

(** ** What an answer of the gateway looks like *)

Module Answers.
Import GoTime GoHTTP Models Services Main Handlers.

(** The three CORS headers, as [corsMiddleware] sets them. *)
Definition corsHeaders (w : ResponseWriter) : Prop :=
  Get (RespHeader w) "Access-Control-Allow-Origin" = "*" ∧
  Get (RespHeader w) "Access-Control-Allow-Methods" = "GET, POST, OPTIONS" ∧
  Get (RespHeader w) "Access-Control-Allow-Headers" = "Content-Type".

(** A handler that leaves in place the CORS headers it finds. *)
Definition keepsCors (handler : HandlerFunc) : Prop :=
  ∀ w r s, corsHeaders w → corsHeaders (handler w r s).1.

(** An answer to a request that found writer [w] and world [s]: one
    status out of those the gateway sends, one piece of body, and at most
    one request to the backend, none when the status is 400, 404, 405 or
    429. *)
Definition answersOnce (w : ResponseWriter) (s : World) (out : ResponseWriter * World)
    : Prop :=
  ∃ code chunk calls,
    Status out.1 = Some code ∧ code ∈ [200; 400; 404; 405; 429; 500] ∧
    Written out.1 = Written w ++ [chunk] ∧
    outbound out.2 = outbound s ++ calls ∧ (length calls ≤ 1)%nat ∧
    (code ∈ [400; 404; 405; 429] → calls = []).

(** A handler that answers once whatever the request, on a writer without
    a status. *)
Definition answers (handler : HandlerFunc) : Prop :=
  ∀ w r s, Status w = None → answersOnce w s (handler w r s).

(** The answer [code] with the error envelope carrying [message], to a
    request that the limiter has counted at its first clock reading and
    that led to no backend call. *)
Definition rejectedButCounted (code : Z) (message : string)
    (w : ResponseWriter) (r : Request) (s : World) (out : ResponseWriter * World) : Prop :=
  let t0 := clock s (reads s) in
  Status out.1 = Some code ∧
  Written out.1 =
    Written w ++ [Json (EncError {| Models.Error := StatusText code; Code := code;
                                    Message := message |})] ∧
  outbound out.2 = outbound s ∧
  window (getClientIP r) (limiter out.2) =
    List.filter (λ t, t0 - Minute <? t) (window (getClientIP r) (limiter s)) ++ [t0].

(** The world after a handler sent [call] and then read the clock once. *)
Definition afterCall (call : BackendCall) (s : World) : World :=
  {| limiter := limiter s; clock := clock s; reads := S (reads s);
     outbound := outbound s ++ [call] |}.

(** The 200 answer the three text handlers give for [text]. *)
Definition textAnswer (h : AIHandler) (w : ResponseWriter) (s : World)
    (text userID : string) : ResponseWriter :=
  sendText w {| Response := text; RespUserID := userID; Timestamp := clock s (reads s);
                Model := model (aiService h) |}.
End Answers.

(** ** Text of a forwarding header *)

Module Tokens.
Import GoStrings.

(** ASCII white space: tab, line feed, vertical tab, form feed, carriage
    return, space. *)
Definition asciiSpace (c : ascii) : Prop := c ∈ bytes [9; 10; 11; 12; 13; 32]%nat.
(** A visible ASCII character. *)
Definition visible (c : ascii) : Prop := (33 ≤ nat_of_ascii c ≤ 126)%nat.
(** A text of ASCII white space only. *)
Definition blank (s : string) : Prop := Forall asciiSpace (list_ascii_of_string s).
(** A non-empty run of visible characters without a comma, as an address
    in a forwarding header is. *)
Definition token (s : string) : Prop :=
  s ≠ "" ∧ Forall (λ c, visible c ∧ c ≠ ","%char) (list_ascii_of_string s).
End Tokens.

(** ** Goroutines of any identities running [isAllowed] *)

Module Serialization.
Import GoTime Main Traffic Interleaving.

(** Calls of [isAllowed] for whatever identities and quotas, about to
    start on limiter [rl], no mutex held. *)
Definition launch (calls : list (string * Z)) (rl : RateLimiter) : Config :=
  {| shared := {| store := rl; mapMutex := None; clientMutex := ∅ |};
     goroutines :=
       (λ call, {| clientIP := call.1; limit := call.2; pc := AtLock |}) <$> calls |}.

(** The call of goroutine [g], with the clock reading [now]. *)
Definition arrival (g : Goroutine) (now : Time) : Arrival :=
  {| identity := clientIP g; quota := limit g; instant := now |}.

(** The limiter as the goroutine inside the critical section has it, when
    the calls decided before it left [base]. *)
Definition stage (g : Goroutine) (base : RateLimiter) : RateLimiter :=
  match pc g with
  | AtClient | AtClientLock | AtNow | AtLoop _ | AtAssign _ _ =>
      getOrCreate (clientIP g) base
  | AtCheck now | AtAppend now _ | AtStore now _ _ =>
      setRequests (clientIP g)
        (validRequests (Add now (- Minute)) (window (clientIP g) base))
        (getOrCreate (clientIP g) base)
  | _ => base
  end.

(** The value a call that has decided returns. *)
Definition outcome (g : Goroutine) : option bool :=
  match pc g with
  | AtUnlockClient result _ | AtUnlock result _ | Returned result _ => Some result
  | _ => None
  end.

(** [order] lists the calls that have decided, in the order of their
    decisions, each with its number in the pool and the call it made, clock
    reading included; made one after the other in that order from [rl],
    these calls give the decisions the goroutines hold and the limiter
    the configuration holds. The clock reading of a call is the one its
    goroutine made: that of a step of this goroutine in [steps]. *)
Record Serialized (rl : RateLimiter) (steps : list (nat * Time)) (c : Config)
    (order : list (nat * Arrival)) : Prop := {
  ser_nodup : NoDup order.*1;
  ser_decided : ∀ i g, goroutines c !! i = Some g → is_Some (outcome g) → i ∈ order.*1;
  ser_clock : ∀ i g now, goroutines c !! i = Some g → reading g = Some now →
    (i, now) ∈ steps;
  ser_locals : ∀ i g, goroutines c !! i = Some g → locals g (store (shared c));
  ser_calls : ∀ k i a, order !! k = Some (i, a) →
    (i, instant a) ∈ steps ∧
    ∃ g, goroutines c !! i = Some g ∧ identity a = clientIP g ∧ quota a = limit g ∧
         is_Some (outcome g) ∧ outcome g = (serveAll order.*2 rl).1 !! k;
  ser_store :
    match mapMutex (shared c) with
    | Some i => ∃ g, goroutines c !! i = Some g ∧
                     store (shared c) = stage g (serveAll order.*2 rl).2
    | None => store (shared c) = (serveAll order.*2 rl).2
    end
}.

(** Who holds [rateLimiter.mutex]: the goroutine between its Lock and its
    Unlock, and no other. *)
Record MapMutexInvariant (c : Config) : Prop := {
  mm_holder : ∀ i g, goroutines c !! i = Some g →
    (inCritical g = true ↔ mapMutex (shared c) = Some i);
  mm_exists : ∀ i, mapMutex (shared c) = Some i → is_Some (goroutines c !! i)
}.

(** Who holds the mutex of each client. *)
Record ClientMutexInvariant (c : Config) : Prop := {
  cm_holder : ∀ i g, goroutines c !! i = Some g → holdsClient g = true →
    clientMutex (shared c) !! clientIP g = Some i;
  cm_exists : ∀ k i, clientMutex (shared c) !! k = Some i →
    ∃ g, goroutines c !! i = Some g ∧ clientIP g = k ∧ holdsClient g = true
}.
End Serialization.

(** ** Sample inputs *)

Module Examples.
Import GoTime GoStrings GoHTTP Models Services Main Handlers.

Definition sampleIP : string := "203.0.113.7".

(** Three requests within two seconds. *)
Definition sampleTimes : list Time := [0; Second; 2 * Second].

(** A limiter that remembers one request of the identity, two minutes
    before the first sample time. *)
Definition sampleHistory : RateLimiter :=
  {| clients := {[ sampleIP := {| requests := [- 2 * Minute] |} ]} |}.

(** Two identities whose only request dates from time 0. *)
Definition sampleIdle : RateLimiter :=
  {| clients := {[ "a" := {| requests := [0] |}; "b" := {| requests := [0] |} ]} |}.

(** A body with a prompt and nothing else, and a body with one message. *)
Definition promptBody : string :=
  "{" +:+ quoted "prompt" +:+ ":" +:+ quoted "Hello" +:+ "}".
Definition chatBody : string :=
  "{" +:+ quoted "messages" +:+ ":[{" +:+ quoted "role" +:+ ":" +:+ quoted "user" +:+ ","
      +:+ quoted "content" +:+ ":" +:+ quoted "Hello" +:+ "}]}".

Definition sampleRequest (method path body : string) : Request :=
  {| Method := method; URLPath := path; ReqHeader := ∅;
     RemoteAddr := sampleIP +:+ ":40112"; Body := body |}.

(** What [encoding/json] makes of the two sample bodies, and nothing
    else. *)
Definition samplePrompt : PromptRequest :=
  fromMembers {| prompt_member := Some "Hello"; max_tokens_member := None;
                 temperature_member := None; user_id_member := None |}.

Definition sampleChat : ChatCompletionRequest :=
  fromChatMembers {| messages_member := Some [{| Role := "user"; Content := "Hello" |}];
                     chat_max_tokens_member := None; chat_temperature_member := None;
                     chat_user_id_member := None |}.

Definition sampleDecode : Decode :=
  {| decodePrompt := λ body, if decide (body = promptBody) then Some samplePrompt else None;
     decodeChat := λ body, if decide (body = chatBody) then Some sampleChat else None |}.

(** A stand-in for [encoding/json] on backend answers: no answer parses. *)
Definition sampleUnmarshal : Unmarshal :=
  {| unmarshalLLMResponse := λ _, inr "unexpected end of JSON input";
     unmarshalObject := λ _, inr "unexpected end of JSON input" |}.

(** A backend that answers every request with 503. *)
Definition backendDown : BackendCall → BackendReply :=
  λ _, Reply 503 "upstream connect error".

(** A world with an empty limiter whose clock advances by one second per
    reading. *)
Definition sampleWorld : World :=
  {| limiter := rateLimiter; clock := λ n, Z.of_nat n * Second; reads := 0;
     outbound := [] |}.

(** A world in which the identity used its quota of one at time 0 and the
    clock shows second 30. *)
Definition busyWorld : World :=
  {| limiter := {| clients := {[ sampleIP := {| requests := [0] |} ]} |};
     clock := λ _, 30 * Second; reads := 0; outbound := [] |}.

(** Three goroutines taking turns, a point at a time. *)
Definition sampleSchedule : list (nat * Time) :=
  mjoin (replicate 13 [(0%nat, 0); (1%nat, Second); (2%nat, 2 * Second)])
  ++ mjoin (replicate 13 [(1%nat, 3 * Second); (2%nat, 3 * Second)])
  ++ replicate 13 (2%nat, 4 * Second).
End Examples.

(** ** More sample inputs *)

Module Scenarios.
Import GoTime GoStrings GoHTTP Models Services Main Handlers Traffic Examples.

(** A request that came through a proxy: the client's address first in
    the forwarding header, with blanks around it, then the proxy's. *)
Definition forwardedRequest : Request :=
  {| Method := "POST"; URLPath := "/ai/generate";
     ReqHeader := Set_ ∅ "X-Forwarded-For" " 203.0.113.7 , 10.0.0.1";
     RemoteAddr := "10.0.0.9:52110"; Body := promptBody |}.

(** The answers of a backend that is up, one per endpoint. *)
Definition generateAnswer : string :=
  "{" +:+ quoted "generated_text" +:+ ":" +:+ quoted "Hello there" +:+ ","
      +:+ quoted "prompt" +:+ ":" +:+ quoted "Hello" +:+ "}".
Definition completeAnswer : string :=
  "{" +:+ quoted "completion" +:+ ":" +:+ quoted " there" +:+ "}".
Definition chatAnswer : string :=
  "{" +:+ quoted "content" +:+ ":" +:+ quoted "  Hello there  " +:+ "}".

Definition backendUp : BackendCall → BackendReply :=
  λ call,
    if decide (CallURL call = "http://llm-server:8082/generate")
    then Reply 200 generateAnswer
    else if decide (CallURL call = "http://llm-server:8082/complete")
    then Reply 200 completeAnswer
    else if decide (CallURL call = "http://llm-server:8082/chat/completions")
    then Reply 200 chatAnswer
    else Reply 404 "Not Found".

(** What [encoding/json] makes of these three answers, and of nothing
    else. *)
Definition answerUnmarshal : Unmarshal :=
  {| unmarshalLLMResponse := λ body,
       if decide (body = generateAnswer)
       then inl {| GeneratedText := "Hello there"; EchoedPrompt := "Hello" |}
       else inr "unexpected end of JSON input";
     unmarshalObject := λ body,
       if decide (body = completeAnswer) then inl {[ "completion" := JString " there" ]}
       else if decide (body = chatAnswer)
       then inl {[ "content" := JString "  Hello there  " ]}
       else inr "unexpected end of JSON input" |}.

(** Answers of a backend that says 200 and sends what the gateway cannot
    use: a page of a proxy in front of it, a completion that is empty, a
    chat content of blanks. *)
Definition proxyPage : string := "<html><body>Bad Gateway</body></html>".
Definition emptyCompletion : string :=
  "{" +:+ quoted "completion" +:+ ":" +:+ quoted EmptyString +:+ "}".
Definition blankContent : string :=
  "{" +:+ quoted "content" +:+ ":" +:+ quoted "   " +:+ "}".

Definition backendOdd : BackendCall → BackendReply :=
  λ call,
    if decide (CallURL call = "http://llm-server:8082/generate")
    then Reply 200 proxyPage
    else if decide (CallURL call = "http://llm-server:8082/complete")
    then Reply 200 emptyCompletion
    else if decide (CallURL call = "http://llm-server:8082/chat/completions")
    then Reply 200 blankContent
    else Reply 404 "Not Found".

(** What [encoding/json] makes of these three answers, and of nothing
    else. *)
Definition oddUnmarshal : Unmarshal :=
  {| unmarshalLLMResponse := λ body,
       if decide (body = proxyPage)
       then inr "invalid character '<' looking for beginning of value"
       else inr "unexpected end of JSON input";
     unmarshalObject := λ body,
       if decide (body = emptyCompletion) then inl {[ "completion" := JString "" ]}
       else if decide (body = blankContent) then inl {[ "content" := JString "   " ]}
       else inr "unexpected end of JSON input" |}.

(** Two identities coming back ten minutes after their last request. *)
Definition returningArrivals : list Arrival :=
  [ {| identity := "a"; quota := 1; instant := 10 * Minute |};
    {| identity := "b"; quota := 1; instant := 10 * Minute + Second |} ].
End Scenarios.

Import GoTime GoStrings GoHTTP Models Services Main Handlers Wiring.

(** * Properties *)

(** ** The sliding window of [isAllowed] *)

Section Window.
Context (clientIP : string) (limit : Z).

Lemma window_getOrCreate rl :
  window clientIP (getOrCreate clientIP rl) = window clientIP rl.
Proof.
  unfold getOrCreate, window.
  destruct (clients rl !! clientIP) as [c|] eqn:E; simpl.
  - by rewrite E.
  - by rewrite lookup_insert_eq.
Qed.

Lemma window_setRequests reqs rl :
  window clientIP (setRequests clientIP reqs rl) = reqs.
Proof. unfold window, setRequests; simpl. by rewrite lookup_insert_eq. Qed.

Lemma window_setRequests_ne other reqs rl :
  other ≠ clientIP →
  window other (setRequests clientIP reqs (getOrCreate clientIP rl)) = window other rl.
Proof.
  intros Hne. unfold window, setRequests, getOrCreate; simpl.
  rewrite lookup_insert_ne by done.
  destruct (clients rl !! clientIP); simpl; [done|].
  by rewrite lookup_insert_ne.
Qed.

(** The decision of one call. *)
Lemma isAllowed_decision now rl :
  (isAllowed now clientIP limit rl).1 =
  bool_decide (Z.of_nat (length (validRequests (now - Minute) (window clientIP rl))) < limit).
Proof.
  unfold isAllowed, Add. rewrite window_getOrCreate.
  replace (now + - Minute) with (now - Minute) by lia.
  destruct (Z.geb_spec
              (Z.of_nat (length (validRequests (now - Minute) (window clientIP rl)))) limit)
    as [Hge|Hlt]; simpl.
  - rewrite bool_decide_eq_false_2; [done | lia].
  - rewrite bool_decide_eq_true_2; [done | lia].
Qed.

(** The window one call leaves behind. *)
Lemma isAllowed_window now rl :
  window clientIP (isAllowed now clientIP limit rl).2 =
  if (isAllowed now clientIP limit rl).1
  then validRequests (now - Minute) (window clientIP rl) ++ [now]
  else validRequests (now - Minute) (window clientIP rl).
Proof.
  unfold isAllowed, Add. rewrite window_getOrCreate.
  replace (now + - Minute) with (now - Minute) by lia.
  destruct (_ >=? _); simpl; by rewrite window_setRequests.
Qed.

Lemma isAllowed_window_ne other now rl :
  other ≠ clientIP →
  window other (isAllowed now clientIP limit rl).2 = window other rl.
Proof.
  intros Hne. unfold isAllowed.
  destruct (_ >=? _); simpl; by apply window_setRequests_ne.
Qed.
End Window.

Section Quota.
Context (clientIP : string) (limit : Z).

Lemma validRequests_all cutoff reqs :
  Forall (λ t, cutoff < t) reqs → validRequests cutoff reqs = reqs.
Proof.
  induction 1 as [|t reqs Ht _ IH]; [done|].
  unfold validRequests in *; simpl. unfold After at 1.
  destruct (Z.ltb_spec cutoff t); [by rewrite IH | lia].
Qed.

Lemma validRequests_none cutoff reqs :
  Forall (λ t, t <= cutoff) reqs → validRequests cutoff reqs = [].
Proof.
  induction 1 as [|t reqs Ht _ IH]; [done|].
  unfold validRequests in *; simpl. unfold After at 1.
  destruct (Z.ltb_spec cutoff t); [lia | done].
Qed.

Lemma validRequests_newer cutoff reqs :
  Forall (λ t, cutoff < t) (validRequests cutoff reqs).
Proof.
  apply Forall_forall. intros t Ht.
  apply list_elem_of_In, filter_In in Ht as [_ Ht].
  unfold After in Ht. lia.
Qed.

Lemma validRequests_length cutoff reqs :
  (length (validRequests cutoff reqs) ≤ length reqs)%nat.
Proof. apply filter_length_le. Qed.

(** While the live part of the window is [live], made of request times of
    [all], a run of requests taken from [all] is admitted until the quota
    is reached. *)
Lemma serve_from_live (all : list Time) :
  (∀ a b, a ∈ all → b ∈ all → a - Minute < b) →
  ∀ nows rl live,
    nows ⊆ all → live ⊆ all →
    (∀ now, now ∈ all → validRequests (now - Minute) (window clientIP rl) = live) →
    (serve clientIP limit nows rl).1 =
    (λ j, bool_decide (Z.of_nat (length live + j) < limit)) <$> seq 0 (length nows).
Proof.
  intros Hwin nows. induction nows as [|now rest IH]; intros rl live Hsub Hlive Hw; [done|].
  assert (Hnow : now ∈ all) by (apply Hsub; left).
  assert (Hrest : rest ⊆ all) by (intros x Hx; apply Hsub; by right).
  simpl.
  pose proof (isAllowed_decision clientIP limit now rl) as Hd.
  pose proof (isAllowed_window clientIP limit now rl) as Hw'.
  destruct (isAllowed now clientIP limit rl) as [ok rl1]; simpl in Hd, Hw'.
  rewrite (Hw now Hnow) in Hd, Hw'.
  assert (Hfresh : ∀ now', now' ∈ all → Forall (λ t, now' - Minute < t) live).
  { intros now' Hn. apply Forall_forall. intros t Ht. apply Hwin; [done | by apply Hlive]. }
  destruct ok.
  - specialize (IH rl1 (live ++ [now])).
    destruct (serve clientIP limit rest rl1) as [oks rl2]; simpl in *.
    rewrite Nat.add_0_r. f_equal; [done|].
    rewrite IH.
    + rewrite <- fmap_S_seq, <- list_fmap_compose. apply list_fmap_ext.
      intros _ j _; simpl. rewrite length_app; simpl.
      by replace (length live + 1 + j)%nat with (length live + S j)%nat by lia.
    + done.
    + intros x [Hx|Hx%list_elem_of_singleton]%elem_of_app; [by apply Hlive | by subst].
    + intros now' Hn. rewrite Hw'. apply validRequests_all.
      apply Forall_app. split; [by apply Hfresh|].
      apply Forall_singleton. by apply Hwin.
  - specialize (IH rl1 live).
    destruct (serve clientIP limit rest rl1) as [oks rl2]; simpl in *.
    rewrite Nat.add_0_r. f_equal; [done|].
    rewrite IH.
    + rewrite <- fmap_S_seq, <- list_fmap_compose. apply list_fmap_ext.
      intros _ j _; simpl.
      symmetry in Hd. apply bool_decide_eq_false in Hd.
      rewrite !bool_decide_eq_false_2; [done| lia | lia].
    + done.
    + done.
    + intros now' Hn. rewrite Hw'. apply validRequests_all. by apply Hfresh.
Qed.
End Quota.

Section Sliding.
Context (clientIP : string) (limit : Z).

Lemma validRequests_app cutoff l1 l2 :
  validRequests cutoff (l1 ++ l2) = validRequests cutoff l1 ++ validRequests cutoff l2.
Proof. apply List.filter_app. Qed.

Lemma validRequests_later c c' l :
  c <= c' → validRequests c' (validRequests c l) = validRequests c' l.
Proof.
  intros Hle. unfold validRequests, After.
  induction l as [|t l IH]; [done|]. simpl.
  destruct (Z.ltb_spec c t); simpl; destruct (Z.ltb_spec c' t); rewrite ?IH; try done; lia.
Qed.

Lemma inWindow_app T l1 l2 : inWindow T (l1 ++ l2) = inWindow T l1 ++ inWindow T l2.
Proof. apply List.filter_app. Qed.

Lemma inWindow_valid T now l :
  now <= T → (length (inWindow T l) ≤ length (validRequests (now - Minute) l))%nat.
Proof.
  intros Hle. unfold inWindow, validRequests, After.
  induction l as [|t l IH]; [done|]. simpl.
  destruct (Z.ltb_spec (T - Minute) t); destruct (Z.leb_spec t T);
    destruct (Z.ltb_spec (now - Minute) t); simpl; lia.
Qed.

(** However the requests are spread in time, as long as the clock does not
    go back, no 60 seconds hold more than [limit] admitted requests. *)
Lemma serve_sliding nows : ∀ past rl,
  0 <= limit →
  StronglySorted Z.le nows →
  (∀ now, now ∈ nows →
     validRequests (now - Minute) (window clientIP rl) = validRequests (now - Minute) past) →
  (∀ T, Z.of_nat (length (inWindow T past)) <= limit) →
  ∀ T, Z.of_nat (length (inWindow T
                          (past ++ admittedTimes (serve clientIP limit nows rl).1 nows)))
       <= limit.
Proof.
  induction nows as [|now rest IH]; intros past rl Hlim Hsorted Hwin Hpast T.
  - simpl. by rewrite app_nil_r.
  - apply StronglySorted_inv in Hsorted as [Hrest Hnow].
    rewrite Forall_forall in Hnow.
    simpl.
    pose proof (isAllowed_decision clientIP limit now rl) as Hd.
    pose proof (isAllowed_window clientIP limit now rl) as Hw.
    rewrite (Hwin now) in Hd, Hw by left.
    destruct (isAllowed now clientIP limit rl) as [ok rl1]; simpl in Hd, Hw.
    pose proof (IH (past ++ (if ok then [now] else [])) rl1 Hlim Hrest) as IH'.
    destruct (serve clientIP limit rest rl1) as [oks rl2]; simpl in *.
    rewrite app_assoc. apply IH'.
    + intros now' Hnow'. rewrite Hw.
      assert (now - Minute <= now' - Minute) by (specialize (Hnow now' Hnow'); lia).
      destruct ok; rewrite ?validRequests_app, validRequests_later by done;
        by rewrite ?app_nil_r.
    + intros T'. destruct ok; [|by rewrite app_nil_r].
      symmetry in Hd. apply bool_decide_eq_true in Hd.
      rewrite inWindow_app, length_app.
      unfold inWindow at 2; simpl.
      destruct (Z.ltb_spec (T' - Minute) now); destruct (Z.leb_spec now T'); simpl;
        try (specialize (Hpast T'); lia).
      pose proof (inWindow_valid T' now past ltac:(lia)). lia.
Qed.
End Sliding.

(** C1. One call of [isAllowed] admits exactly when the timestamps on record
    that are newer than now minus 60 seconds number strictly less than the
    limit; a limit of 0 denies whatever the state. For requests of one
    identity against quota N, arriving when nothing recorded earlier is
    still live: if they all fall within one 60-second window, request
    number k (counted from 0) is admitted exactly when k < N, so the N-th
    request is admitted and the (N+1)-th and later ones are denied; and
    however they are spread in time, as long as the clock does not go back
    and N >= 0, the admitted requests of any 60 seconds number at most N. *)
Theorem isAllowed_sliding_window_quota
    (clientIP : string) (N : Z) (rl : RateLimiter) (nows : list Time)
    (Hstale : agedOut (window clientIP rl) nows) :
  (∀ now limit rl',
     (isAllowed now clientIP limit rl').1 = true ↔
     Z.of_nat (length (List.filter (λ t, now - Minute <? t) (window clientIP rl'))) < limit) ∧
  (∀ now rl', (isAllowed now clientIP 0 rl').1 = false) ∧
  (oneWindow nows →
   (serve clientIP N nows rl).1 =
     (λ k : nat, bool_decide (Z.of_nat k < N)) <$> seq 0 (length nows)) ∧
  (0 <= N → StronglySorted Z.le nows →
   ∀ T, Z.of_nat (length (inWindow T (admittedTimes (serve clientIP N nows rl).1 nows)))
        <= N).
Proof.
  assert (∀ now, now ∈ nows → validRequests (now - Minute) (window clientIP rl) = [])
    as Hnone.
  { intros now Hnow. apply validRequests_none, Forall_forall.
    intros t Ht. unfold agedOut in Hstale.
    rewrite Forall_forall in Hstale. specialize (Hstale t Ht).
    rewrite Forall_forall in Hstale. by apply Hstale. }
  split_and!.
  - intros now limit rl'. rewrite isAllowed_decision, bool_decide_eq_true. done.
  - intros now rl'. rewrite isAllowed_decision. apply bool_decide_eq_false_2. lia.
  - intros Hwindow. apply (serve_from_live clientIP N nows) with (live := []).
    + intros a b Ha Hb. unfold oneWindow in Hwindow.
      rewrite Forall_forall in Hwindow. specialize (Hwindow a Ha).
      rewrite Forall_forall in Hwindow. by apply Hwindow.
    + done.
    + intros t Ht. by apply elem_of_nil in Ht.
    + done.
  - intros HN Hsorted T.
    apply (serve_sliding clientIP N nows [] rl HN Hsorted); [done|].
    intros T'. simpl. lia.
Qed.

Section Invariant.
Context (clientIP : string) (limit : Z).

Lemma isAllowed_length now rl :
  Z.of_nat (length (window clientIP rl)) <= limit →
  Z.of_nat (length (window clientIP (isAllowed now clientIP limit rl).2)) <= limit.
Proof.
  intros Hlen.
  rewrite isAllowed_window.
  pose proof (isAllowed_decision clientIP limit now rl) as Hd.
  pose proof (validRequests_length (now - Minute) (window clientIP rl)) as Hle.
  destruct (isAllowed now clientIP limit rl).1.
  - symmetry in Hd. apply bool_decide_eq_true in Hd.
    rewrite length_app; simpl. lia.
  - lia.
Qed.

Lemma serve_length nows : ∀ rl,
  Z.of_nat (length (window clientIP rl)) <= limit →
  Z.of_nat (length (window clientIP (serve clientIP limit nows rl).2)) <= limit.
Proof.
  induction nows as [|now rest IH]; intros rl Hlen; [done|].
  simpl.
  pose proof (isAllowed_length now rl Hlen) as Hstep.
  destruct (isAllowed now clientIP limit rl) as [ok rl1]; simpl in Hstep.
  specialize (IH rl1 Hstep).
  by destruct (serve clientIP limit rest rl1) as [oks rl2].
Qed.

Lemma isAllowed_newer now rl :
  Forall (λ t, now - Minute < t) (window clientIP (isAllowed now clientIP limit rl).2).
Proof.
  rewrite isAllowed_window.
  destruct (isAllowed now clientIP limit rl).1.
  - apply Forall_app. split; [apply validRequests_newer|].
    apply Forall_singleton. unfold Minute, Second. lia.
  - apply validRequests_newer.
Qed.
End Invariant.

(** C10. Starting from an empty window and calling [isAllowed] any number of
    times ([earlier], at arbitrary times) with a fixed limit N >= 0, the
    window left by one more call at time [now] holds at most N entries, each
    strictly newer than [now] minus 60 seconds; and when that call is denied
    the window it leaves is the window it found with the aged-out entries
    removed, so nothing was appended. *)
Theorem isAllowed_window_invariant
    (clientIP : string) (N : Z) (rl : RateLimiter) (earlier : list Time) (now : Time)
    (HN : 0 <= N)
    (Hempty : window clientIP rl = []) :
  let before := (serve clientIP N earlier rl).2 in
  let call := isAllowed now clientIP N before in
  Z.of_nat (length (window clientIP call.2)) <= N ∧
  Forall (λ t, now - Minute < t) (window clientIP call.2) ∧
  (call.1 = false →
     window clientIP call.2 =
     List.filter (λ t, now - Minute <? t) (window clientIP before)).
Proof.
  intros before call. split_and!.
  - apply isAllowed_length, serve_length. rewrite Hempty. simpl. lia.
  - apply isAllowed_newer.
  - intros Hdenied. unfold call. rewrite isAllowed_window.
    fold call. by rewrite Hdenied.
Qed.

(** ** The middleware pipeline *)

Section Middleware.
Context (requestsPerMinute : Z) (next : HandlerFunc).

Lemma Get_SetHeader_eq w key value :
  Get (RespHeader (SetHeader w key value)) key = value.
Proof. unfold Get, SetHeader, Set_; simpl. by rewrite lookup_insert_eq. Qed.

Lemma Get_SetHeader_ne w key key' value :
  CanonicalMIMEHeaderKey key ≠ CanonicalMIMEHeaderKey key' →
  Get (RespHeader (SetHeader w key value)) key' = Get (RespHeader w) key'.
Proof. intros Hne. unfold Get, SetHeader, Set_; simpl. by rewrite lookup_insert_ne. Qed.

Lemma Get_Error_ne w text code key :
  CanonicalMIMEHeaderKey key ∉
    [CanonicalMIMEHeaderKey "Content-Length"; CanonicalMIMEHeaderKey "Content-Type";
     CanonicalMIMEHeaderKey "X-Content-Type-Options"] →
  Get (RespHeader (GoHTTP.Error w text code)) key = Get (RespHeader w) key.
Proof.
  intros Hne. unfold Get, GoHTTP.Error, Write, WriteHeader, Set_, Del; simpl.
  assert (∀ (h : Header),
    <[CanonicalMIMEHeaderKey "X-Content-Type-Options":=["nosniff"]]>
      (<[CanonicalMIMEHeaderKey "Content-Type":=["text/plain; charset=utf-8"]]>
         (delete (CanonicalMIMEHeaderKey "Content-Length") h))
    !! CanonicalMIMEHeaderKey key = h !! CanonicalMIMEHeaderKey key) as Hh.
  { intros h.
    rewrite lookup_insert_ne by (intros E; apply Hne; rewrite <- E; set_solver).
    rewrite lookup_insert_ne by (intros E; apply Hne; rewrite <- E; set_solver).
    rewrite lookup_delete_ne by (intros E; apply Hne; rewrite <- E; set_solver).
    done. }
  destruct (Status w); simpl; by rewrite Hh.
Qed.

Lemma Status_Error w text code :
  Status w = None → Status (GoHTTP.Error w text code) = Some code.
Proof. intros Hw. unfold GoHTTP.Error, Write, WriteHeader; simpl. by rewrite Hw. Qed.

(** After an admitting call, the count [getRemainingRequests] subtracts is
    within the quota, so the subtraction stays in range. *)
Lemma getRemainingRequests_after_admission now later clientIP rl :
  requestsPerMinute < 2 ^ 63 →
  (isAllowed now clientIP requestsPerMinute rl).1 = true →
  getRemainingRequests later clientIP requestsPerMinute
    (isAllowed now clientIP requestsPerMinute rl).2 =
  requestsPerMinute -
  Z.of_nat (length (validRequests (later - Minute)
                      (window clientIP (isAllowed now clientIP requestsPerMinute rl).2))).
Proof.
  intros Hq Hok.
  pose proof (isAllowed_window clientIP requestsPerMinute now rl) as Hw.
  pose proof (isAllowed_decision clientIP requestsPerMinute now rl) as Hd.
  rewrite Hok in Hw, Hd. symmetry in Hd. apply bool_decide_eq_true in Hd.
  unfold getRemainingRequests.
  unfold window in Hw at 1. unfold window at 1.
  destruct (clients (isAllowed now clientIP requestsPerMinute rl).2 !! clientIP)
    as [client|] eqn:E.
  - unfold Add. replace (later + - Minute) with (later - Minute) by lia.
    pose proof (validRequests_length (later - Minute) (requests client)) as Hle.
    assert (length (requests client) =
            S (length (validRequests (now - Minute) (window clientIP rl)))) as Hlen
      by (rewrite Hw, length_app; simpl; lia).
    remember (Z.of_nat (length (validRequests (later - Minute) (requests client))))
      as count eqn:Hcount.
    assert (0 <= requestsPerMinute - count < 2 ^ 63) as Hr by lia.
    unfold GoInt.sub, GoInt.wrap.
    replace ((requestsPerMinute - count + 2 ^ 63) `mod` 2 ^ 64 - 2 ^ 63)
      with (requestsPerMinute - count).
    + destruct (Z.ltb_spec (requestsPerMinute - count) 0); [lia|done].
    + rewrite Z.mod_small; lia.
  - by destruct (validRequests (now - Minute) (window clientIP rl)).
Qed.
End Middleware.

(** Side condition of [Get_Error_ne] on a literal header name. *)
Ltac other_header :=
  rewrite !not_elem_of_cons; split_and!; [by vm_compute.. | apply not_elem_of_nil].

Lemma protectedHandler_preflight handler rateLimit w r s :
  Status w = None → Method r = "OPTIONS" →
  protectedHandler handler rateLimit w r s =
  (WriteHeader
     (SetHeader (SetHeader (SetHeader w
        "Access-Control-Allow-Origin" "*")
        "Access-Control-Allow-Methods" "GET, POST, OPTIONS")
        "Access-Control-Allow-Headers" "Content-Type") StatusOK, s) ∧
  Status (protectedHandler handler rateLimit w r s).1 = Some 200.
Proof.
  intros Hfresh Hoptions. unfold protectedHandler, corsMiddleware.
  rewrite decide_True by done. split; [done|].
  unfold WriteHeader; simpl. by rewrite Hfresh.
Qed.

(** C4. On every route wired through [protectedHandler], whatever the quota
    and the handler, a request with method OPTIONS is answered by the CORS
    stage with status 200, and the world it leaves is the world it found:
    the limiter holds the same timestamps for every identity, no clock
    reading and no backend call was made, and the answer does not depend on
    the inner stages. This holds in particular of each route that [main]
    registers behind the pipeline. *)
Theorem preflight_bypasses_rate_limit
    (handler : HandlerFunc) (rateLimit : Z)
    (w : ResponseWriter) (r : Request) (s : World)
    (Hfresh : Status w = None)
    (Hoptions : Method r = "OPTIONS") :
  let out := protectedHandler handler rateLimit w r s in
  Status out.1 = Some 200 ∧
  out.2 = s ∧
  (∀ clientIP, window clientIP (limiter out.2) = window clientIP (limiter s)) ∧
  (∀ handler' rateLimit', protectedHandler handler' rateLimit' w r s = out) ∧
  (∀ decode json aiHandler root path route,
     (path, route) ∈ routes decode json aiHandler root →
     Status (route w r s).1 = Some 200 ∧ (route w r s).2 = s).
Proof.
  intros out. unfold out.
  destruct (protectedHandler_preflight handler rateLimit w r s Hfresh Hoptions)
    as [Hout Hstatus].
  split_and!.
  - done.
  - by rewrite Hout.
  - by rewrite Hout.
  - intros handler' rateLimit'. rewrite Hout.
    by destruct (protectedHandler_preflight handler' rateLimit' w r s Hfresh Hoptions).
  - intros decode json aiHandler root path route Hroute. unfold routes in Hroute.
    repeat (apply elem_of_cons in Hroute as [[= -> ->]|Hroute];
            [match goal with
             | |- context [protectedHandler ?h ?q w r s] =>
                 destruct (protectedHandler_preflight h q w r s Hfresh Hoptions)
                   as [Heq Hst]
             end; split; [exact Hst | by rewrite Heq] |]).
    by apply elem_of_nil in Hroute.
Qed.

(** C3, as the code has it. A fresh writer goes through the rate-limit
    stage for a quota below 2^63; t0, t1, t2 are the successive clock
    readings of the request. When [isAllowed] (at t0) denies, the answer has
    status 429, X-RateLimit-Remaining 0 and X-RateLimit-Reset equal to the
    epoch seconds of t1 plus 60 seconds, t1 being the time the header is
    written. When it admits, the handler runs on a writer whose
    X-RateLimit-Remaining is the quota minus the number of the identity's
    timestamps still newer than t1 minus 60 seconds (the quota minus the new
    count when none has aged out since the admission), and whose
    X-RateLimit-Reset is the epoch seconds of t2 plus 60 seconds. *)
Theorem rate_limit_headers
    (requestsPerMinute : Z) (next : HandlerFunc)
    (w : ResponseWriter) (r : Request) (s : World)
    (Hfresh : Status w = None)
    (Hint : requestsPerMinute < 2 ^ 63) :
  let clientIP := getClientIP r in
  let t0 := clock s (reads s) in
  let t1 := clock s (S (reads s)) in
  let t2 := clock s (S (S (reads s))) in
  let decision := isAllowed t0 clientIP requestsPerMinute (limiter s) in
  let out := rateLimitMiddleware requestsPerMinute next w r s in
  (decision.1 = false →
     Status out.1 = Some 429 ∧
     Get (RespHeader out.1) "X-RateLimit-Remaining" = "0" ∧
     Get (RespHeader out.1) "X-RateLimit-Reset" = GoInt.Itoa (Unix (t1 + Minute)) ∧
     limiter out.2 = decision.2 ∧
     ∀ next', rateLimitMiddleware requestsPerMinute next' w r s = out) ∧
  (decision.1 = true →
     ∃ w' s',
       out = next w' r s' ∧
       limiter s' = decision.2 ∧
       Get (RespHeader w') "X-RateLimit-Remaining" =
         GoInt.Itoa (requestsPerMinute -
                     Z.of_nat (length (List.filter (λ t, t1 - Minute <? t)
                                         (window clientIP decision.2)))) ∧
       (Forall (λ t, t1 - Minute < t) (window clientIP decision.2) →
        Get (RespHeader w') "X-RateLimit-Remaining" =
          GoInt.Itoa (requestsPerMinute - Z.of_nat (length (window clientIP decision.2)))) ∧
       Get (RespHeader w') "X-RateLimit-Reset" = GoInt.Itoa (Unix (t2 + Minute))).
Proof.
  intros clientIP t0 t1 t2 decision out.
  pose proof (getRemainingRequests_after_admission requestsPerMinute t0 t1 clientIP
                (limiter s) Hint) as Hrem.
  fold decision in Hrem.
  assert (∀ next', rateLimitMiddleware requestsPerMinute next' w r s =
    let '(ok, rl) := decision in
    if negb ok then
      (GoHTTP.Error
         (SetHeader (SetHeader (SetHeader (SetHeader (SetHeader (SetHeader w
            "X-RateLimit-Limit" (GoInt.Itoa requestsPerMinute))
            "X-RateLimit-Remaining" "0")
            "X-RateLimit-Reset" (GoInt.Itoa (Unix (t1 + Minute))))
            "Access-Control-Allow-Origin" "*")
            "Access-Control-Allow-Methods" "GET, POST, OPTIONS")
            "Access-Control-Allow-Headers" "Content-Type")
         rateLimitBody StatusTooManyRequests,
       {| limiter := rl; clock := clock s; reads := S (S (reads s));
          outbound := outbound s |})
    else
      next'
        (SetHeader (SetHeader (SetHeader w
           "X-RateLimit-Limit" (GoInt.Itoa requestsPerMinute))
           "X-RateLimit-Remaining"
             (GoInt.Itoa (getRemainingRequests t1 clientIP requestsPerMinute rl)))
           "X-RateLimit-Reset" (GoInt.Itoa (Unix (t2 + Minute))))
        r
        {| limiter := rl; clock := clock s; reads := S (S (S (reads s)));
           outbound := outbound s |}) as Hunfold.
  { intros next'. unfold rateLimitMiddleware, timeNow.
    cbn [limiter clock reads outbound setLimiter fst snd].
    fold clientIP t0 t1 t2. fold decision. by destruct decision as [[] rl]. }
  unfold out. rewrite (Hunfold next).
  destruct decision as [ok rl] eqn:Hdec. cbn [fst snd] in *.
  split; intros ->; cbn [negb fst snd limiter].
  - split_and!.
    + by apply Status_Error.
    + rewrite Get_Error_ne by other_header.
      rewrite !Get_SetHeader_ne by (by vm_compute).
      apply Get_SetHeader_eq.
    + rewrite Get_Error_ne by other_header.
      rewrite !Get_SetHeader_ne by (by vm_compute).
      apply Get_SetHeader_eq.
    + done.
    + intros next'. by rewrite Hunfold.
  - eexists _, _. split; [reflexivity|]. cbn [limiter]. split_and!.
    + done.
    + rewrite Get_SetHeader_ne by (by vm_compute).
      rewrite Get_SetHeader_eq. by rewrite Hrem.
    + intros Hall.
      rewrite Get_SetHeader_ne by (by vm_compute).
      rewrite Get_SetHeader_eq, Hrem by done.
      by rewrite validRequests_all.
    + apply Get_SetHeader_eq.
Qed.

(** C3, a request denied at second 30 while the retained timestamp dates
    from second 0: the reset header says 90, the oldest retained timestamp
    plus 60 seconds is 60. *)
Lemma denied_reset_not_from_oldest :
  let r := Examples.sampleRequest "POST" "/ai/generate" Examples.promptBody in
  let out := rateLimitMiddleware 1 (λ w _ s, (w, s)) newWriter r Examples.busyWorld in
  getClientIP r = Examples.sampleIP ∧
  Status out.1 = Some 429 ∧
  resetFromOldest (window Examples.sampleIP (limiter out.2)) = Some 60 ∧
  Get (RespHeader out.1) "X-RateLimit-Reset" = "90" ∧
  Some (Get (RespHeader out.1) "X-RateLimit-Reset") ≠
    GoInt.Itoa <$> resetFromOldest (window Examples.sampleIP (limiter out.2)).
Proof. vm_compute. split_and!; [done | done | done | done | discriminate]. Qed.

(** ** The reclaim cycle *)

Section Reclaim.
Context (fiveMinutesAgo : Time).

Lemma sweep_cons clientIP visited rl :
  sweep fiveMinutesAgo (clientIP :: visited) rl =
  sweep fiveMinutesAgo visited (sweepVisit fiveMinutesAgo rl clientIP).
Proof. done. Qed.

Lemma sweepVisit_lookup rl clientIP k :
  clients (sweepVisit fiveMinutesAgo rl clientIP) !! k =
  match clients rl !! k with
  | Some client =>
      if bool_decide (k = clientIP) && negb (hasRecentRequests fiveMinutesAgo client)
      then None else Some client
  | None => None
  end.
Proof.
  unfold sweepVisit.
  destruct (decide (k = clientIP)) as [->|Hne].
  - rewrite bool_decide_eq_true_2 by done.
    destruct (clients rl !! clientIP) as [client|] eqn:E; [|by rewrite E].
    destruct (hasRecentRequests fiveMinutesAgo client); simpl.
    + by rewrite E.
    + by rewrite lookup_delete_eq.
  - rewrite bool_decide_eq_false_2 by done. simpl.
    destruct (clients rl !! clientIP) as [client|] eqn:E.
    + destruct (hasRecentRequests fiveMinutesAgo client); simpl.
      * by destruct (clients rl !! k).
      * rewrite lookup_delete_ne by done. by destruct (clients rl !! k).
    + by destruct (clients rl !! k).
Qed.

(** The entry of an identity after the loop visited [visited]. *)
Lemma sweep_lookup visited : ∀ rl k,
  clients (sweep fiveMinutesAgo visited rl) !! k =
  match clients rl !! k with
  | Some client =>
      if bool_decide (k ∈ visited) && negb (hasRecentRequests fiveMinutesAgo client)
      then None else Some client
  | None => None
  end.
Proof.
  induction visited as [|clientIP visited IH]; intros rl k.
  - simpl. by destruct (clients rl !! k).
  - rewrite sweep_cons, IH, sweepVisit_lookup.
    destruct (clients rl !! k) as [client|]; [|done].
    destruct (decide (k = clientIP)) as [->|Hne].
    + rewrite (bool_decide_eq_true_2 (clientIP = clientIP)) by done.
      rewrite (bool_decide_eq_true_2 (clientIP ∈ clientIP :: visited)) by left.
      destruct (hasRecentRequests fiveMinutesAgo client) eqn:E; simpl; [|done].
      by rewrite E, andb_false_r.
    + rewrite (bool_decide_eq_false_2 (k = clientIP)) by done. simpl.
      destruct (decide (k ∈ visited)) as [Hin|Hnin].
      * rewrite (bool_decide_eq_true_2 (k ∈ visited)) by done.
        by rewrite (bool_decide_eq_true_2 (k ∈ clientIP :: visited)) by (by right).
      * rewrite (bool_decide_eq_false_2 (k ∈ visited)) by done.
        rewrite (bool_decide_eq_false_2 (k ∈ clientIP :: visited)); [done|].
        by intros [?|?]%elem_of_cons.
Qed.
End Reclaim.

(** C5, as the code has it. A reclaim cycle at time [now], in whatever order
    the iteration produces the identities, leaves in the store exactly the
    identities that have a timestamp newer than [now] minus 5 minutes, each
    with its limiter untouched; and an identity with no such timestamp is
    deleted by the loop body at its own visit, while the identities after it
    in the iteration are still to be visited. *)
Theorem reclaim_cycle_removes_idle
    (now : Time) (order : list string) (rl : RateLimiter)
    (Horder : iterationOrder order rl) :
  (∀ clientIP,
     clients (cleanupCycle now order rl) !! clientIP =
     match clients rl !! clientIP with
     | Some client =>
         if existsb (λ t, now - 5 * Minute <? t) (requests client)
         then Some client else None
     | None => None
     end) ∧
  (∀ visited clientIP rest client,
     order = visited ++ clientIP :: rest →
     clients rl !! clientIP = Some client →
     existsb (λ t, now - 5 * Minute <? t) (requests client) = false →
     clients (sweep (now - 5 * Minute) (visited ++ [clientIP]) rl) !! clientIP = None).
Proof.
  destruct Horder as [Hnodup Hkeys]. split.
  - intros clientIP. unfold cleanupCycle, Add.
    replace (now + - 5 * Minute) with (now - 5 * Minute) by lia.
    rewrite sweep_lookup.
    destruct (clients rl !! clientIP) as [client|] eqn:E; [|done].
    rewrite bool_decide_eq_true_2 by (apply Hkeys; by rewrite E).
    unfold hasRecentRequests, After. simpl.
    by destruct (existsb _ _).
  - intros visited clientIP rest client _ Hclient Hidle.
    rewrite sweep_lookup, Hclient.
    rewrite bool_decide_eq_true_2 by (apply elem_of_app; right; left).
    unfold hasRecentRequests, After. by rewrite Hidle.
Qed.

Lemma sampleIdle_order : iterationOrder ["a"; "b"] Examples.sampleIdle.
Proof.
  split.
  - apply NoDup_cons. split; [|apply NoDup_singleton].
    by intros ?%list_elem_of_singleton.
  - intros clientIP. unfold Examples.sampleIdle; simpl. split.
    + intros [->|[->|[]%elem_of_nil]%elem_of_cons]%elem_of_cons;
        exists {| requests := [0] |}; by vm_compute.
    + intros [client Hc].
      destruct (decide (clientIP = "a")) as [->|Ha]; [left|].
      destruct (decide (clientIP = "b")) as [->|Hb]; [right; left|].
      rewrite lookup_insert_ne, lookup_singleton_ne in Hc by done. done.
Qed.

(** C5, two identities idle for ten minutes, visited in the order a, b:
    after the visit of a, with b still to be visited, a is gone from the
    map, so the removal did not wait for the end of the iteration. *)
Lemma removal_during_iteration :
  let fiveMinutesAgo := Add (10 * Minute) (- 5 * Minute) in
  iterationOrder ["a"; "b"] Examples.sampleIdle ∧
  clients (sweep fiveMinutesAgo ["a"] Examples.sampleIdle) !! "a" = None ∧
  ¬ removalAfterIteration fiveMinutesAgo ["a"; "b"] Examples.sampleIdle.
Proof.
  intros fiveMinutesAgo.
  assert (clients (sweep fiveMinutesAgo ["a"] Examples.sampleIdle) !! "a" = None) as Hgone
    by (by vm_compute).
  split_and!; [exact sampleIdle_order | done |].
  intros Hspec. specialize (Hspec ["a"] ["b"] eq_refl).
  rewrite Hspec in Hgone by done. by vm_compute in Hgone.
Qed.

(** ** Identity resolution *)

Section Resolver.
Context (r : Request).

Lemma getClientIP_forwarded :
  Get (ReqHeader r) "X-Forwarded-For" ≠ "" →
  getClientIP r = TrimSpace (first (Split (Get (ReqHeader r) "X-Forwarded-For") ",")).
Proof. intros Hxff. unfold getClientIP. by rewrite decide_True. Qed.

Lemma getClientIP_real_ip :
  Get (ReqHeader r) "X-Forwarded-For" = "" →
  Get (ReqHeader r) "X-Real-IP" ≠ "" →
  getClientIP r = Get (ReqHeader r) "X-Real-IP".
Proof.
  intros Hxff Hxri. unfold getClientIP.
  rewrite decide_False by (by intros []). by rewrite decide_True.
Qed.

Lemma getClientIP_peer :
  Get (ReqHeader r) "X-Forwarded-For" = "" →
  Get (ReqHeader r) "X-Real-IP" = "" →
  getClientIP r = first (Split (RemoteAddr r) ":").
Proof.
  intros Hxff Hxri. unfold getClientIP.
  rewrite decide_False by (by intros []). by rewrite decide_False by (by intros []).
Qed.
End Resolver.

Section PeerAddress.
Lemma list_ascii_of_string_app (a b : string) :
  list_ascii_of_string (a +:+ b) = list_ascii_of_string a ++ list_ascii_of_string b.
Proof. induction a as [|c a IH]; simpl; [done | by rewrite IH]. Qed.

Lemma splitBytes_head sep (l rest : list ascii) :
  sep ∉ l →
  ∃ fields, splitBytes sep (l ++ sep :: rest) = l :: fields.
Proof.
  induction l as [|c l IH]; intros Hnin; simpl.
  - rewrite decide_True by done. eauto.
  - rewrite decide_False by (intros ->; apply Hnin; left).
    destruct IH as [fields ->]; [by intros ?; apply Hnin; right|]. eauto.
Qed.

Lemma afterColon_skip (p rest : list ascii) :
  ":"%char ∉ p → afterColon (p ++ ":"%char :: rest) = Some rest.
Proof.
  induction p as [|c p IH]; intros Hnin; simpl.
  - done.
  - rewrite decide_False by (intros ->; apply Hnin; left).
    apply IH. by intros ?; apply Hnin; right.
Qed.

(** For a peer address of the form host:port with no colon in the host,
    the text before the first colon is the address with its port suffix
    stripped. *)
Lemma peer_host_port (host port : string) :
  ":"%char ∉ list_ascii_of_string host →
  ":"%char ∉ list_ascii_of_string port →
  first (Split (host +:+ ":" +:+ port) ":") = host ∧
  stripPortSuffix (host +:+ ":" +:+ port) = host.
Proof.
  intros Hhost Hport. split.
  - unfold Split, first. rewrite list_ascii_of_string_app. simpl.
    replace (EmptyString +:+ port) with port by done.
    destruct (splitBytes_head ":"%char (list_ascii_of_string host)
                (list_ascii_of_string port) Hhost) as [fields ->].
    simpl. apply string_of_list_ascii_of_string.
  - unfold stripPortSuffix. rewrite list_ascii_of_string_app. simpl.
    replace (EmptyString +:+ port) with port by done.
    rewrite reverse_app, reverse_cons, <- app_assoc. simpl.
    rewrite afterColon_skip by (by rewrite elem_of_reverse).
    rewrite reverse_involutive. apply string_of_list_ascii_of_string.
Qed.
End PeerAddress.

(** C8, at a peer reached over IPv6 with no proxy header: the resolver
    returns the text before the first colon of the peer address, an opening
    bracket and the first group, where the address with its port suffix
    stripped is the bracketed address. *)
Theorem getClientIP_ipv6_peer :
  let r := {| Method := "POST"; URLPath := "/ai/generate"; ReqHeader := ∅;
              RemoteAddr := "[2001:db8::1]:54321"; Body := "{}" |} in
  getClientIP r = "[2001" ∧
  stripPortSuffix (RemoteAddr r) = "[2001:db8::1]" ∧
  getClientIP r ≠ stripPortSuffix (RemoteAddr r).
Proof. by vm_compute. Qed.

(** ** The dispatcher *)

Section Dispatcher.
Context (decode : Decode) (json : Unmarshal) (h : AIHandler).
Context (w : ResponseWriter) (r : Request) (s : World).

Lemma Status_sendErrorResponse statusCode message :
  Status w = None →
  Status (sendErrorResponse w statusCode message) = Some statusCode.
Proof. intros Hw. unfold sendErrorResponse, Write, WriteHeader; simpl. by rewrite Hw. Qed.

Lemma Written_sendErrorResponse statusCode message :
  Written (sendErrorResponse w statusCode message) =
  Written w ++ [Json (EncError {| Models.Error := StatusText statusCode;
                                  Code := statusCode; Message := message |})].
Proof.
  unfold sendErrorResponse, Write, WriteHeader; simpl.
  destruct (Status w) eqn:E; simpl; by rewrite ?E.
Qed.

Lemma genericError_sendErrorResponse message :
  Status w = None →
  genericError w message (sendErrorResponse w StatusInternalServerError message).
Proof.
  intros Hw. split.
  - by apply Status_sendErrorResponse.
  - apply Written_sendErrorResponse.
Qed.

(** The three POST routes answer any other method with 405 and the error
    envelope, and leave the world as it was: no backend call. *)
Lemma post_routes_reject_other_methods :
  Method r ≠ "POST" →
  HandleChatCompletion decode json h w r s =
    (sendErrorResponse w 405 "Method not allowed", s) ∧
  HandleComplete decode json h w r s =
    (sendErrorResponse w 405 "Method not allowed", s) ∧
  HandleGenerate decode json h w r s =
    (sendErrorResponse w 405 "Method not allowed", s).
Proof.
  intros Hm. unfold HandleChatCompletion, HandleComplete, HandleGenerate, MethodPost.
  by rewrite !decide_True.
Qed.
End Dispatcher.

(** *** Defaults *)

Section Defaults.
Context (decode : Decode) (json : Unmarshal) (h : AIHandler).

Lemma orDefaultTokens_idem n : orDefaultTokens (orDefaultTokens n) = orDefaultTokens n.
Proof. unfold orDefaultTokens. by repeat case_decide. Qed.

Lemma orDefaultTemperature_idem t :
  orDefaultTemperature (orDefaultTemperature t) = orDefaultTemperature t.
Proof. unfold orDefaultTemperature. by destruct (PrimFloat.eqb t 0) eqn:E; [|rewrite E]. Qed.

Lemma orDefaultTemperature_finite t :
  finite t = true → finite (orDefaultTemperature t) = true.
Proof. intros Ht. unfold orDefaultTemperature. by destruct (PrimFloat.eqb t 0). Qed.

Lemma defaultsApplied_orDefault n t :
  defaultsApplied n t (orDefaultTokens n) (orDefaultTemperature t).
Proof.
  unfold defaultsApplied, orDefaultTokens, orDefaultTemperature.
  split_and!; intros Hc; try rewrite Hc; by try case_decide.
Qed.

Lemma GetGenerate_sends prompt n t :
  prompt ≠ "" → finite (orDefaultTemperature t) = true →
  (GetGenerate json (aiService h) prompt n t).2 =
  [{| CallMethod := "POST"; CallURL := llmBaseURL (aiService h) +:+ "/generate";
      CallPayload := LLMPayload {| LLMPrompt := prompt; MaxLength := orDefaultTokens n;
                                   LLMTemperature := orDefaultTemperature t;
                                   TopP := 0; DoSample := true |} |}].
Proof.
  intros Hprompt Hfin. unfold GetGenerate, callLLMEndpoint.
  rewrite decide_False by done.
  fold (orDefaultTokens n). fold (orDefaultTemperature t).
  cbn [LLMTemperature TopP]. rewrite Hfin.
  assert (finite 0 = true) as -> by (vm_compute; reflexivity). cbn [negb andb].
  match goal with
  | |- (match ?x with inl _ => _ | inr _ => _ end).2 = _ => by destruct x
  end.
Qed.

Lemma GetComplete_sends prompt n t :
  prompt ≠ "" → finite (orDefaultTemperature t) = true →
  (GetComplete json (aiService h) prompt n t).2 =
  [{| CallMethod := "POST"; CallURL := llmBaseURL (aiService h) +:+ "/complete";
      CallPayload := LLMPayload {| LLMPrompt := prompt; MaxLength := orDefaultTokens n;
                                   LLMTemperature := orDefaultTemperature t;
                                   TopP := 0; DoSample := true |} |}].
Proof.
  intros Hprompt Hfin. unfold GetComplete.
  rewrite decide_False by done.
  fold (orDefaultTokens n). fold (orDefaultTemperature t).
  by rewrite Hfin.
Qed.

Lemma GetChatCompletion_sends messages n t :
  messages ≠ [] → finite t = true →
  (GetChatCompletion json (aiService h) messages n t).2 =
  [{| CallMethod := "POST"; CallURL := llmBaseURL (aiService h) +:+ "/chat/completions";
      CallPayload := ChatPayload messages n t |}].
Proof.
  intros Hmsgs Hfin. unfold GetChatCompletion, callLLMEndpointWithJSON.
  rewrite decide_False by (by destruct messages).
  rewrite Hfin. cbn [negb].
  match goal with
  | |- (match ?x with inl _ => _ | inr _ => _ end).2 = _ =>
      destruct x as [response|err]; [|done]
  end.
  destruct (response !! "content") as [[content|raw]|]; [done|..];
    by destruct (response !! "generated_text") as [[text|raw']|].
Qed.

(** The requests a text handler sent are those of its service call. *)
Lemma HandleGenerate_outbound w r s req :
  Method r = "POST" → decodePrompt decode (Body r) = Some req → Prompt req ≠ "" →
  outbound (HandleGenerate decode json h w r s).2 =
  outbound s ++ (GetGenerate json (aiService h) (Prompt req)
                   (orDefaultTokens (MaxTokens req))
                   (orDefaultTemperature (Temperature req))).2.
Proof.
  intros Hpost Hdec Hprompt. unfold HandleGenerate, MethodPost.
  rewrite decide_False by (by intros []). rewrite Hdec, decide_False by done.
  fold (orDefaultTokens (MaxTokens req)). fold (orDefaultTemperature (Temperature req)).
  by destruct (GetGenerate _ _ _ _ _) as [[aiResponse|err] calls].
Qed.

Lemma HandleComplete_outbound w r s req :
  Method r = "POST" → decodePrompt decode (Body r) = Some req → Prompt req ≠ "" →
  outbound (HandleComplete decode json h w r s).2 =
  outbound s ++ (GetComplete json (aiService h) (Prompt req)
                   (orDefaultTokens (MaxTokens req))
                   (orDefaultTemperature (Temperature req))).2.
Proof.
  intros Hpost Hdec Hprompt. unfold HandleComplete, MethodPost.
  rewrite decide_False by (by intros []). rewrite Hdec, decide_False by done.
  fold (orDefaultTokens (MaxTokens req)). fold (orDefaultTemperature (Temperature req)).
  by destruct (GetComplete _ _ _ _ _) as [[aiResponse|err] calls].
Qed.

Lemma HandleChatCompletion_outbound w r s req :
  Method r = "POST" → decodeChat decode (Body r) = Some req → Messages req ≠ [] →
  outbound (HandleChatCompletion decode json h w r s).2 =
  outbound s ++ (GetChatCompletion json (aiService h) (Messages req)
                   (orDefaultTokens (ChatMaxTokens req))
                   (orDefaultTemperature (ChatTemperature req))).2.
Proof.
  intros Hpost Hdec Hmsgs. unfold HandleChatCompletion, MethodPost.
  rewrite decide_False by (by intros []).
  rewrite Hdec, decide_False by (by destruct (Messages req)).
  fold (orDefaultTokens (ChatMaxTokens req)).
  fold (orDefaultTemperature (ChatTemperature req)).
  by destruct (GetChatCompletion _ _ _ _ _) as [[aiResponse|err] calls].
Qed.
End Defaults.

(** C6. For a POST request whose body decodes, has the required prompt or
    messages, and whose temperature is finite (as every decoded JSON number
    is), each of the generate, complete and chat handlers sends exactly one
    request to the backend, and the token limit and temperature it carries
    are 150 and 0.7 where the caller's value is 0 and the caller's value
    otherwise. A member the body omits decodes to 0, like a member sent as
    0. The generate and complete payloads name the token limit max_length. *)
Theorem defaults_injected
    (decode : Decode) (json : Unmarshal) (h : AIHandler)
    (w : ResponseWriter) (r : Request) (s : World)
    (Hpost : Method r = "POST") :
  (∀ req, decodePrompt decode (Body r) = Some req → Prompt req ≠ "" →
     finite (Temperature req) = true →
     ∃ request,
       outbound (HandleGenerate decode json h w r s).2 =
         outbound s ++ [{| CallMethod := "POST";
                           CallURL := llmBaseURL (aiService h) +:+ "/generate";
                           CallPayload := LLMPayload request |}] ∧
       LLMPrompt request = Prompt req ∧
       defaultsApplied (MaxTokens req) (Temperature req)
         (MaxLength request) (LLMTemperature request)) ∧
  (∀ req, decodePrompt decode (Body r) = Some req → Prompt req ≠ "" →
     finite (Temperature req) = true →
     ∃ request,
       outbound (HandleComplete decode json h w r s).2 =
         outbound s ++ [{| CallMethod := "POST";
                           CallURL := llmBaseURL (aiService h) +:+ "/complete";
                           CallPayload := LLMPayload request |}] ∧
       LLMPrompt request = Prompt req ∧
       defaultsApplied (MaxTokens req) (Temperature req)
         (MaxLength request) (LLMTemperature request)) ∧
  (∀ req, decodeChat decode (Body r) = Some req → Messages req ≠ [] →
     finite (ChatTemperature req) = true →
     ∃ maxTokens temperature,
       outbound (HandleChatCompletion decode json h w r s).2 =
         outbound s ++ [{| CallMethod := "POST";
                           CallURL := llmBaseURL (aiService h) +:+ "/chat/completions";
                           CallPayload := ChatPayload (Messages req) maxTokens temperature |}] ∧
       defaultsApplied (ChatMaxTokens req) (ChatTemperature req) maxTokens temperature) ∧
  (∀ m : PromptMembers,
     (max_tokens_member m = None ∨ max_tokens_member m = Some 0 →
      MaxTokens (fromMembers m) = 0) ∧
     (temperature_member m = None ∨ temperature_member m = Some 0%float →
      PrimFloat.eqb (Temperature (fromMembers m)) 0 = true)) ∧
  (∀ m : ChatMembers,
     (chat_max_tokens_member m = None ∨ chat_max_tokens_member m = Some 0 →
      ChatMaxTokens (fromChatMembers m) = 0) ∧
     (chat_temperature_member m = None ∨ chat_temperature_member m = Some 0%float →
      PrimFloat.eqb (ChatTemperature (fromChatMembers m)) 0 = true)).
Proof.
  split_and!.
  - intros req Hdec Hprompt Hfin.
    rewrite (HandleGenerate_outbound decode json h w r s req) by done.
    rewrite GetGenerate_sends;
      [|done|rewrite orDefaultTemperature_idem; by apply orDefaultTemperature_finite].
    rewrite orDefaultTokens_idem, orDefaultTemperature_idem.
    eexists. split; [reflexivity|]. split; [done|]. apply defaultsApplied_orDefault.
  - intros req Hdec Hprompt Hfin.
    rewrite (HandleComplete_outbound decode json h w r s req) by done.
    rewrite GetComplete_sends;
      [|done|rewrite orDefaultTemperature_idem; by apply orDefaultTemperature_finite].
    rewrite orDefaultTokens_idem, orDefaultTemperature_idem.
    eexists. split; [reflexivity|]. split; [done|]. apply defaultsApplied_orDefault.
  - intros req Hdec Hmsgs Hfin.
    rewrite (HandleChatCompletion_outbound decode json h w r s req) by done.
    rewrite GetChatCompletion_sends by (done || by apply orDefaultTemperature_finite).
    eexists _, _. split; [reflexivity|]. apply defaultsApplied_orDefault.
  - intros m. unfold fromMembers; simpl. split; intros [->| ->]; by vm_compute.
  - intros m. unfold fromChatMembers; simpl. split; intros [->| ->]; by vm_compute.
Qed.

(** *** Error translation *)

Section BackendFailure.
Context (decode : Decode) (json : Unmarshal) (h : AIHandler).





End BackendFailure.


(** *** Method checks *)

(** C9, on the two GET routes: whatever the method of the request, the
    health handler answers a fresh writer with 200, and the model-info
    handler sends its request to the backend; neither answers 405. Through
    the whole pipeline, the route [main] registers for /health answers a
    POST with 200. *)
Theorem get_routes_accept_any_method :
  ∀ (decode : Decode) (json : Unmarshal) (h : AIHandler) (root : HandlerFunc)
    (r : Request) (s : World),
    Status (HandleHealth h newWriter r s).1 = Some 200 ∧
    outbound (HandleModelInfo json h newWriter r s).2 = outbound s ++ [modelInfoCall h] ∧
    Status (HandleModelInfo json h newWriter r s).1 ≠ Some 405 ∧
    (∀ route, ("/health", route) ∈ routes decode json h root →
       Status (route newWriter (Examples.sampleRequest "POST" "/health" "")
                 Examples.sampleWorld).1 = Some 200).
Proof.
  intros decode json h root r s. split_and!.
  - done.
  - unfold HandleModelInfo, GetModelInfo.
    by match goal with
       | |- context [match ?x with inl _ => _ | inr _ => _ end] => destruct x
       end.
  - unfold HandleModelInfo, GetModelInfo.
    by match goal with
       | |- context [match ?x with inl _ => _ | inr _ => _ end] => destruct x
       end.
  - intros route Hroute. unfold routes in Hroute.
    repeat (apply elem_of_cons in Hroute as [Heq|Hroute]; [simplify_eq; by vm_compute|]).
    by apply elem_of_nil in Hroute.
Qed.

(** ** Concurrent requests of one identity *)

Import Interleaving.

Ltac at_lookup H :=
  match type of H with
  | <[?i:=_]> ?gs !! ?j = Some _ =>
      destruct (decide (j = i)) as [->|?];
      [rewrite list_lookup_insert_eq in H by (eapply lookup_lt_Some; eassumption);
       simplify_eq
      |rewrite list_lookup_insert_ne in H by done]
  end.

Section Steps.
Lemma step_inv i now c c' :
  step i now c = Some c' →
  ∃ g g' m', goroutines c !! i = Some g ∧ perform i now g (shared c) = Some (g', m') ∧
             c' = {| shared := m'; goroutines := <[i := g']> (goroutines c) |}.
Proof.
  unfold step. destruct (goroutines c !! i) as [g|] eqn:Hg; [|done].
  destruct (perform i now g (shared c)) as [[g' m']|] eqn:Hp; [|done].
  intros [= <-]. by exists g, g', m'.
Qed.

(** When [rateLimiter.mutex] is held by the goroutine inside the critical
    section and by no other, a goroutine that can run finds every other
    goroutine outside the critical section. *)
Lemma others_outside i now c c' :
  (∀ j g, goroutines c !! j = Some g →
          (inCritical g = true ↔ mapMutex (shared c) = Some j)) →
  step i now c = Some c' →
  ∀ j gj, j ≠ i → goroutines c !! j = Some gj → inCritical gj = false.
Proof.
  intros Hholder (g & g' & m' & Hg & Hp & ->)%step_inv j gj Hne Hj.
  destruct (inCritical gj) eqn:Hcrit; [exfalso|done].
  apply (Hholder j gj Hj) in Hcrit.
  pose proof (Hholder i g Hg) as Hi. unfold inCritical in Hi.
  unfold perform in Hp. destruct (pc g) eqn:Hpc;
    try (destruct Hi as [Hi _]; specialize (Hi eq_refl); congruence).
  - by rewrite Hcrit in Hp.
  - done.
Qed.

(** Outside the critical section a call has no locals yet, or none any
    more. *)
Lemma outside_locals g rl : inCritical g = false → locals g rl.
Proof. unfold inCritical, locals. by destruct (pc g). Qed.
End Steps.

Section Pool.
Context (ip : string) (quota : Z) (times : list Time).
Context (Hwin : ∀ a b, a ∈ times → b ∈ times → a - Minute < b).

Lemma count_insert test gs : ∀ i g g',
  gs !! i = Some g →
  (count test (<[i:=g']> gs) + (if test g then 1 else 0) =
   count test gs + (if test g' then 1 else 0))%nat.
Proof.
  induction gs as [|g0 gs IH]; intros [|i] g g' Hg; simplify_eq/=.
  - lia.
  - specialize (IH i g g' Hg). lia.
Qed.

Lemma count_replicate test n g :
  count test (replicate n g) = if test g then n else 0%nat.
Proof.
  induction n as [|n IH]; simpl; [by destruct (test g)|].
  rewrite IH. by destruct (test g).
Qed.

Lemma Invariant_start n rl :
  0 <= quota →
  window ip rl = [] → Invariant ip quota times (start ip quota n rl).
Proof.
  intros Hquota Hempty. unfold start.
  split; split; simpl.
  - by intros i g [-> _]%lookup_replicate.
  - by intros i ?.
  - intros i g [-> _]%lookup_replicate. by rewrite lookup_empty.
  - intros i. by rewrite lookup_empty.
  - by intros i g [-> _]%lookup_replicate.
  - rewrite Hempty. by intros t ?%elem_of_nil.
  - by intros i g now [-> _]%lookup_replicate.
  - by intros i g [-> _]%lookup_replicate.
  - by rewrite Hempty, count_replicate.
  - rewrite Hempty. simpl. lia.
  - by intros i g [-> _]%lookup_replicate.
  - by intros i g n0 [-> _]%lookup_replicate.
  - by intros i j gi gj n0 _ [-> _]%lookup_replicate.
Qed.

Lemma validRequests_fresh now reqs :
  now ∈ times → (∀ t, t ∈ reqs → t ∈ times) →
  validRequests (Add now (- Minute)) reqs = reqs.
Proof.
  intros Hnow Hreqs. apply validRequests_all, Forall_forall.
  intros t Ht. unfold Add. specialize (Hwin now t Hnow (Hreqs t Ht)). lia.
Qed.

Lemma is_Some_insert (gs : list Goroutine) i j g :
  is_Some (gs !! j) → is_Some (<[i:=g]> gs !! j).
Proof.
  intros Hj. apply lookup_lt_is_Some. rewrite length_insert.
  by apply lookup_lt_is_Some.
Qed.

(** A point that touches neither mutex and keeps the goroutine on the
    same side of both keeps the lock invariant. *)
Lemma LockInvariant_frame c i g g' m' :
  goroutines c !! i = Some g →
  mapMutex m' = mapMutex (shared c) →
  clientMutex m' = clientMutex (shared c) →
  inCritical g' = inCritical g →
  holdsClient g' = holdsClient g →
  LockInvariant ip c →
  LockInvariant ip {| shared := m'; goroutines := <[i:=g']> (goroutines c) |}.
Proof.
  intros Hg Hm Hc Hin Hhold [Hmm Hmh Hcm Hch].
  split; simpl; rewrite ?Hm, ?Hc.
  - intros j gj Hj. at_lookup Hj; [rewrite Hin|]; eauto.
  - intros j Hj. by apply is_Some_insert, Hmh.
  - intros j gj Hj. at_lookup Hj; [rewrite Hhold|]; eauto.
  - intros j Hj. by apply is_Some_insert, Hch.
Qed.

(** A point that leaves the window of [ip] as it is and does not decide
    keeps the window invariant, when the locals it sets agree with the
    memory and the other goroutines are outside the critical section. *)
Lemma WindowInvariant_frame c i g g' m' :
  goroutines c !! i = Some g →
  (∀ j gj, j ≠ i → goroutines c !! j = Some gj → inCritical gj = false) →
  window ip (store m') = window ip (store (shared c)) →
  clientIP g' = clientIP g → limit g' = limit g →
  admitted g' = admitted g → denied g' = denied g → observed g' = observed g →
  (∀ now, reading g' = Some now → now ∈ times) →
  locals g' (store m') →
  WindowInvariant ip quota times c →
  WindowInvariant ip quota times
    {| shared := m'; goroutines := <[i:=g']> (goroutines c) |}.
Proof.
  intros Hg Hout Hw Hip Hlim Hadm Hden Hobs Hclk Hloc
    [Hargs Hfresh Hclock Hlocals Hcount Hq Hdn Hob Hdist].
  split; simpl; rewrite ?Hw.
  - intros j gj Hj. at_lookup Hj; [rewrite Hip, Hlim|]; eauto.
  - done.
  - intros j gj now Hj Hpc. at_lookup Hj; eauto.
  - intros j gj Hj. at_lookup Hj; [done|]. apply outside_locals. by eapply Hout.
  - pose proof (count_insert admitted (goroutines c) i g g' Hg) as Hc.
    rewrite Hadm in Hc. lia.
  - done.
  - intros j gj Hj Hd. at_lookup Hj; [rewrite Hden in Hd|]; eauto.
  - intros j gj n Hj Ha Ho. at_lookup Hj; [rewrite Hadm in Ha; rewrite Hobs in Ho|]; eauto.
  - intros j k gj gk n Hjk Hj Hk Haj Hak Hoj Hok.
    at_lookup Hj; at_lookup Hk; try done.
    + rewrite Hadm in Haj. rewrite Hobs in Hoj. by eapply (Hdist i k g gk).
    + rewrite Hadm in Hak. rewrite Hobs in Hok. by eapply (Hdist j i gj g).
    + by eapply (Hdist j k gj gk).
Qed.

Ltac status :=
  unfold admitted, denied, observed, reading, inCritical, holdsClient, locals, at_, write;
  simpl; repeat match goal with H : pc _ = _ |- _ => rewrite H end; try done.

Lemma Invariant_step i now c c' :
  now ∈ times →
  Invariant ip quota times c → step i now c = Some c' → Invariant ip quota times c'.
Proof.
  intros Hnow [Hlock Hwindow] Hstep.
  pose proof (others_outside i now c c' (inv_map_mutex _ _ Hlock) Hstep) as Hout.
  apply step_inv in Hstep as (g & g' & m' & Hg & Hp & ->).
  destruct (inv_args _ _ _ _ Hwindow i g Hg) as [Hip Hlim].
  pose proof (inv_map_mutex _ _ Hlock i g Hg) as Hmi.
  pose proof (inv_client_mutex _ _ Hlock i g Hg) as Hci.
  pose proof (inv_locals _ _ _ _ Hwindow i g Hg) as Hloc.
  pose proof (inv_clock _ _ _ _ Hwindow i g) as Hread.
  unfold perform in Hp. rewrite Hip, Hlim in Hp.
  unfold locals in Hloc. rewrite Hip, Hlim in Hloc.
  unfold inCritical in Hmi. unfold holdsClient in Hci. unfold reading in Hread.
  destruct (pc g) as [| | | | | |t|t valid|t|t n|t n appended|b n|b n|b n] eqn:Hpc.
  - (* rateLimiter.mutex.Lock() *)
    destruct (mapMutex (shared c)) eqn:Hfree; [done|].
    injection Hp as <- <-. split.
    + destruct Hlock as [Hmm Hmh Hcm Hch]. split; simpl.
      * intros j gj Hj. at_lookup Hj; [by status|].
        specialize (Hmm j gj Hj). rewrite Hfree in Hmm.
        split; [intros ?%Hmm; done | intros [=]; done].
      * intros j [= <-]. apply is_Some_insert. by rewrite Hg.
      * intros j gj Hj. at_lookup Hj; [by status|]. eauto.
      * intros j Hj. by apply is_Some_insert, Hch.
    + apply (WindowInvariant_frame c i g); try done; by status.
  - (* rateLimiter.clients[clientIP] == nil *)
    destruct (clients (store (shared c)) !! ip) eqn:Hentry; injection Hp as <- <-.
    + split; [apply (LockInvariant_frame c i g); try done; by status|].
      apply (WindowInvariant_frame c i g); try done; by status.
    + split; [apply (LockInvariant_frame c i g); try done; by status|].
      apply (WindowInvariant_frame c i g); try done; try (by status).
      unfold locals. simpl. by rewrite Hip.
  - (* rateLimiter.clients[clientIP] = &ClientLimiter{...} *)
    injection Hp as <- <-. split.
    + apply (LockInvariant_frame c i g); try done; by status.
    + apply (WindowInvariant_frame c i g); try done; try (by status).
      unfold window, write. simpl. by rewrite lookup_insert_eq, Hloc.
  - (* client := rateLimiter.clients[clientIP] *)
    injection Hp as <- <-. split.
    + apply (LockInvariant_frame c i g); try done; by status.
    + apply (WindowInvariant_frame c i g); try done; by status.
  - (* client.mutex.Lock() *)
    destruct (clientMutex (shared c) !! ip) eqn:Hfree; [done|].
    injection Hp as <- <-. split.
    + destruct Hlock as [Hmm Hmh Hcm Hch]. split; simpl.
      * intros j gj Hj. at_lookup Hj; [by status|]. eauto.
      * intros j Hj. by apply is_Some_insert, Hmh.
      * intros j gj Hj. rewrite lookup_insert_eq. at_lookup Hj; [by status|].
        specialize (Hcm j gj Hj). rewrite Hfree in Hcm.
        split; [intros ?%Hcm; done | intros [=]; done].
      * intros j. rewrite lookup_insert_eq. intros [= <-].
        apply is_Some_insert. by rewrite Hg.
    + apply (WindowInvariant_frame c i g); try done; by status.
  - (* now := time.Now() *)
    injection Hp as <- <-. split.
    + apply (LockInvariant_frame c i g); try done; by status.
    + apply (WindowInvariant_frame c i g); try done; try (by status).
      unfold reading. simpl. by intros ? [= <-].
  - (* the loop over client.requests *)
    injection Hp as <- <-. split.
    + apply (LockInvariant_frame c i g); try done; by status.
    + apply (WindowInvariant_frame c i g); try done; try (by status).
      * unfold reading. simpl. intros ? [= <-]. by apply Hread.
      * unfold locals. simpl. by rewrite Hip.
  - (* client.requests = validRequests *)
    injection Hp as <- <-. split.
    + apply (LockInvariant_frame c i g); try done; by status.
    + apply (WindowInvariant_frame c i g); try done; try (by status).
      * unfold write. simpl. rewrite window_setRequests, Hloc.
        apply validRequests_fresh; [by apply Hread|]. apply (inv_fresh _ _ _ _ Hwindow).
      * unfold reading. simpl. intros ? [= <-]. by apply Hread.
  - (* len(client.requests) >= limit *)
    destruct (Z.geb_spec (Z.of_nat (length (window ip (store (shared c))))) quota)
      as [Hfull|Hroom]; injection Hp as <- <-.
    + split; [apply (LockInvariant_frame c i g); try done; by status|].
      destruct Hwindow as [Hargs Hfresh Hclock Hlocals Hcount Hq Hdn Hob Hdist].
      split; simpl.
      * intros j gj Hj. at_lookup Hj; eauto.
      * done.
      * intros j gj now' Hj Hpc'. at_lookup Hj; eauto.
      * intros j gj Hj. at_lookup Hj; [done|]. eauto.
      * pose proof (count_insert admitted (goroutines c) i g
                      (at_ g (AtUnlockClient false (length (window ip (store (shared c))))))
                      Hg) as Hc.
        replace (admitted g) with false in Hc by status.
        simpl in Hc. lia.
      * done.
      * intros j gj Hj Hd. at_lookup Hj; [lia|]. eauto.
      * intros j gj n Hj Ha Ho. at_lookup Hj; try done; eauto.
      * intros j k gj gk n Hjk Hj Hk Haj Hak Hoj Hok.
        at_lookup Hj; at_lookup Hk; try done. by eapply (Hdist j k gj gk).
    + split; [apply (LockInvariant_frame c i g); try done; by status|].
      apply (WindowInvariant_frame c i g); try done; try (by status).
      * unfold reading. simpl. intros ? [= <-]. by apply Hread.
      * unfold locals. simpl. rewrite Hip, Hlim. split; [done | lia].
  - (* append(client.requests, now) *)
    injection Hp as <- <-. destruct Hloc as [Hn Hroom]. split.
    + apply (LockInvariant_frame c i g); try done; by status.
    + apply (WindowInvariant_frame c i g); try done; try (by status).
      * unfold reading. simpl. intros ? [= <-]. by apply Hread.
      * unfold locals. simpl. by rewrite Hip, Hlim.
  - (* client.requests = the slice appended to *)
    injection Hp as <- <-. destruct Hloc as (Hn & Hroom & ->).
    split; [apply (LockInvariant_frame c i g); try done; by status|].
    destruct Hwindow as [Hargs Hfresh Hclock Hlocals Hcount Hq Hdn Hob Hdist].
    split; unfold write; simpl; rewrite ?window_setRequests, ?length_app; simpl.
    + intros j gj Hj. at_lookup Hj; eauto.
    + intros t' [Ht' | ->%list_elem_of_singleton]%elem_of_app; eauto.
    + intros j gj now' Hj Hpc'. at_lookup Hj; eauto.
    + intros j gj Hj. at_lookup Hj; [done|]. apply outside_locals. by eapply Hout.
    + pose proof (count_insert admitted (goroutines c) i g
                    (at_ g (AtUnlockClient true n)) Hg) as Hc.
      replace (admitted g) with false in Hc by status.
      simpl in Hc. lia.
    + lia.
    + intros j gj Hj Hd. at_lookup Hj; try done. specialize (Hdn j gj Hj Hd). lia.
    + intros j gj n' Hj Ha Ho. at_lookup Hj.
      * injection Ho as <-. lia.
      * specialize (Hob j gj n' Hj Ha Ho). lia.
    + intros j k gj gk n' Hjk Hj Hk Haj Hak Hoj Hok.
      at_lookup Hj; at_lookup Hk; try done.
      * injection Hoj as <-. specialize (Hob k gk _ Hk Hak Hok). lia.
      * injection Hok as <-. specialize (Hob j gj _ Hj Haj Hoj). lia.
      * by eapply (Hdist j k gj gk).
  - (* deferred client.mutex.Unlock() *)
    injection Hp as <- <-. split.
    + destruct Hlock as [Hmm Hmh Hcm Hch]. split; simpl.
      * intros j gj Hj. at_lookup Hj; [by status|]. eauto.
      * intros j Hj. by apply is_Some_insert, Hmh.
      * intros j gj Hj. rewrite lookup_delete_eq. at_lookup Hj; [by status|].
        specialize (Hcm j gj Hj).
        split; [|done]. intros Hh%Hcm.
        destruct Hci as [Hci _]. rewrite Hci in Hh by done. by injection Hh.
      * intros j. by rewrite lookup_delete_eq.
    + apply (WindowInvariant_frame c i g); try done; by status.
  - (* deferred rateLimiter.mutex.Unlock() *)
    injection Hp as <- <-. split.
    + destruct Hlock as [Hmm Hmh Hcm Hch]. split; simpl.
      * intros j gj Hj. at_lookup Hj; [by status|].
        specialize (Hmm j gj Hj).
        split; [|done]. intros Hh%Hmm.
        destruct Hmi as [Hmi _]. rewrite Hmi in Hh by done. by injection Hh.
      * done.
      * intros j gj Hj. at_lookup Hj; [by status|]. eauto.
      * intros j Hj. by apply is_Some_insert, Hch.
    + apply (WindowInvariant_frame c i g); try done; by status.
  - done.
Qed.

Lemma Invariant_run schedule : ∀ c,
  (∀ i now, (i, now) ∈ schedule → now ∈ times) →
  Invariant ip quota times c → Invariant ip quota times (run schedule c).
Proof.
  induction schedule as [|[i now] rest IH]; intros c Htimes Hinv; [done|].
  simpl. assert (now ∈ times) as Hnow by (apply (Htimes i); left).
  assert (∀ j t, (j, t) ∈ rest → t ∈ times) as Hrest
    by (intros j t ?; apply (Htimes j); by right).
  destruct (step i now c) as [c'|] eqn:Hstep; [|by apply IH].
  apply IH; [done|]. by eapply Invariant_step.
Qed.

Lemma step_length i now c c' :
  step i now c = Some c' → length (goroutines c') = length (goroutines c).
Proof.
  unfold step. destruct (goroutines c !! i); [|done].
  destruct (perform _ _ _ _) as [[g' m']|]; [|done].
  intros [= <-]. simpl. apply length_insert.
Qed.

Lemma run_length schedule : ∀ c,
  length (goroutines (run schedule c)) = length (goroutines c).
Proof.
  induction schedule as [|[i now] rest IH]; intros c; [done|]. simpl.
  destruct (step i now c) as [c'|] eqn:Hstep; [|done].
  rewrite IH. by eapply step_length.
Qed.

(** Among calls that have all returned, each was admitted or denied. *)
Lemma count_returned gs :
  Forall (λ g, returned g = true) gs →
  (count admitted gs + count denied gs = length gs)%nat.
Proof.
  induction 1 as [|g gs Hg _ IH]; [done|]. simpl.
  unfold returned in Hg. unfold admitted at 1, denied at 1.
  destruct (pc g) as [| | | | | |?|? ?|?|? ?|? ? ?|[] ?|[] ?|[] ?]; try done; simpl; lia.
Qed.

Lemma count_pos test gs :
  (0 < count test gs)%nat → ∃ i g, gs !! i = Some g ∧ test g = true.
Proof.
  induction gs as [|g gs IH]; simpl; [lia|].
  destruct (test g) eqn:Hg.
  - intros _. by exists 0%nat, g.
  - intros (i & g' & Hi & Ht)%IH. by exists (S i), g'.
Qed.

(** Once every call has returned, the admitted ones number the quota, or
    all of them when they are fewer. *)
Lemma admitted_exactly c :
  Invariant ip quota times c →
  Forall (λ g, returned g = true) (goroutines c) →
  Z.of_nat (count admitted (goroutines c)) = Z.min (Z.of_nat (length (goroutines c))) quota.
Proof.
  intros [_ Hwindow] Hall.
  pose proof (count_returned _ Hall) as Hsum.
  pose proof (inv_count _ _ _ _ Hwindow) as Hcount.
  pose proof (inv_quota _ _ _ _ Hwindow) as Hq.
  destruct (decide (0 < count denied (goroutines c))%nat) as [Hden|Hnone].
  - apply count_pos in Hden as (i & g & Hg & Hd).
    pose proof (inv_denied _ _ _ _ Hwindow i g Hg Hd). lia.
  - lia.
Qed.

(** Some goroutine can run its point, unless all have returned. *)
Lemma progress c :
  Invariant ip quota times c →
  Forall (λ g, returned g = true) (goroutines c) ∨
  ∃ i, ∀ now, is_Some (step i now c).
Proof.
  intros [Hlock Hwindow].
  destruct (mapMutex (shared c)) as [j|] eqn:Hmap.
  - right. exists j.
    destruct (inv_map_holder _ _ Hlock j Hmap) as [g Hg].
    pose proof (inv_map_mutex _ _ Hlock j g Hg) as [_ Hin].
    specialize (Hin Hmap).
    destruct (inv_args _ _ _ _ Hwindow j g Hg) as [Hip _].
    intros now. unfold step. rewrite Hg. unfold perform.
    unfold inCritical in Hin.
    destruct (pc g) eqn:Hpc; try done.
    + by destruct (clients _ !! _).
    + rewrite Hip. destruct (clientMutex (shared c) !! ip) as [k|] eqn:Hk; [|done].
      destruct (inv_client_holder _ _ Hlock k Hk) as [gk Hgk].
      pose proof (inv_client_mutex _ _ Hlock k gk Hgk) as [_ Hhold].
      specialize (Hhold Hk).
      pose proof (inv_map_mutex _ _ Hlock k gk Hgk) as [Hcrit _].
      rewrite Hmap in Hcrit.
      assert (k = j) as ->.
      { assert (Some j = Some k) as [=]; [|done]. apply Hcrit.
        unfold holdsClient in Hhold. unfold inCritical.
        by destruct (pc gk). }
      rewrite Hg in Hgk. injection Hgk as <-.
      unfold holdsClient in Hhold. by rewrite Hpc in Hhold.
    + by destruct (_ >=? _).
  - destruct (decide (Forall (λ g, returned g = true) (goroutines c))) as [|Hsome];
      [by left|right].
    apply not_Forall_Exists in Hsome; [|apply _].
    apply Exists_exists in Hsome as (g & [i Hg]%list_elem_of_lookup & Hnot).
    exists i. intros now. unfold step. rewrite Hg. unfold perform.
    pose proof (inv_map_mutex _ _ Hlock i g Hg) as [Hcrit _].
    rewrite Hmap in Hcrit. unfold inCritical in Hcrit. unfold returned in Hnot.
    simpl in Hnot.
    destruct (pc g); simpl in *;
      [by rewrite Hmap | by specialize (Hcrit eq_refl).. | done].
Qed.

Lemma work_insert gs : ∀ i g g',
  gs !! i = Some g →
  (work (<[i:=g']> gs) + remaining g = work gs + remaining g')%nat.
Proof.
  unfold work.
  induction gs as [|g0 gs IH]; intros [|i] g g' Hg; simplify_eq/=.
  - lia.
  - specialize (IH i g g' Hg). lia.
Qed.

(** A point that runs leaves fewer points to run. *)
Lemma step_work i now c c' :
  step i now c = Some c' → (work (goroutines c') < work (goroutines c))%nat.
Proof.
  intros (g & g' & m' & Hg & Hp & ->)%step_inv. simpl.
  pose proof (work_insert (goroutines c) i g g' Hg) as Hw.
  assert (remaining g' < remaining g)%nat; [|lia].
  unfold perform in Hp. unfold remaining at 2.
  destruct (pc g); simplify_eq; try done; unfold remaining; simpl; try lia.
  - destruct (mapMutex _); simplify_eq. simpl. lia.
  - destruct (clients _ !! _); simplify_eq; simpl; lia.
  - destruct (clientMutex _ !! _); simplify_eq. simpl. lia.
  - destruct (_ >=? _); simplify_eq; simpl; lia.
Qed.

(** From a configuration the pool has reached, giving the processor to
    goroutines that can move, at clock reading [now], brings every call
    to its return. *)
Lemma completes now :
  now ∈ times →
  ∀ k c, (work (goroutines c) ≤ k)%nat → Invariant ip quota times c →
  ∃ more,
    Forall (λ e : nat * Time, e.2 = now) more ∧
    Forall (λ g, returned g = true) (goroutines (run more c)).
Proof.
  intros Hnow k. induction k as [|k IH]; intros c Hwork Hinv.
  - destruct (progress c Hinv) as [Hall|[i Hi]]; [by exists []|].
    destruct (Hi now) as [c' Hstep]. apply step_work in Hstep. lia.
  - destruct (progress c Hinv) as [Hall|[i Hi]]; [by exists []|].
    destruct (Hi now) as [c' Hstep].
    destruct (IH c') as (more & Hmore & Hret).
    + apply step_work in Hstep. lia.
    + by eapply Invariant_step.
    + exists ((i, now) :: more). split; [by constructor|].
      simpl. by rewrite Hstep.
Qed.

Lemma run_app s1 s2 : ∀ c, run (s1 ++ s2) c = run s2 (run s1 c).
Proof.
  induction s1 as [|[i now] s1 IH]; intros c; [done|]. simpl.
  by destruct (step i now c).
Qed.
End Pool.

Lemma oneWindow_spec all :
  oneWindow all ↔ ∀ a b, a ∈ all → b ∈ all → a - Minute < b.
Proof.
  unfold oneWindow. rewrite Forall_forall.
  split.
  - intros H a b Ha Hb. specialize (H a Ha). rewrite Forall_forall in H. by apply H.
  - intros H a Ha. apply Forall_forall. intros b Hb. by apply H.
Qed.

(** C2. [n] goroutines call [isAllowed] for one identity against one quota
    [quota] >= 0, starting on an empty window, under any schedule whose
    clock readings lie within one 60-second window; a goroutine may lose
    the processor between any two accesses to the shared memory, so also
    between its length check and its append. In every configuration the
    schedule reaches: at most one goroutine stands between Lock and Unlock
    of the identity's mutex, and at most one between those of the
    limiter's; the admitted calls number at most the quota; an admitted
    call read in its check a length below the number of admitted calls, and
    no two admitted calls read the same length. Once all calls have
    returned, exactly min(n, quota) were admitted and the others denied.
    The pool never deadlocks: unless all calls have returned, some
    goroutine can run its next point; and the schedule can be continued so
    that all calls return. *)
Theorem concurrent_requests_admit_exactly_quota
    (ip : string) (quota : Z) (n : nat) (rl : RateLimiter)
    (schedule : list (nat * Time))
    (Hquota : 0 <= quota)
    (Hempty : window ip rl = [])
    (Hwindow : oneWindow schedule.*2) :
  let reached := run schedule (start ip quota n rl) in
  (∀ i j gi gj,
     goroutines reached !! i = Some gi → goroutines reached !! j = Some gj →
     (holdsClient gi = true → holdsClient gj = true → i = j) ∧
     (inCritical gi = true → inCritical gj = true → i = j)) ∧
  Z.of_nat (count admitted (goroutines reached)) <= quota ∧
  (∀ i gi k, goroutines reached !! i = Some gi → admitted gi = true →
     observed gi = Some k → (k < count admitted (goroutines reached))%nat) ∧
  (∀ i j gi gj k, i ≠ j →
     goroutines reached !! i = Some gi → goroutines reached !! j = Some gj →
     admitted gi = true → admitted gj = true →
     observed gi = Some k → observed gj ≠ Some k) ∧
  (Forall (λ g, returned g = true) (goroutines reached) →
     Z.of_nat (count admitted (goroutines reached)) = Z.min (Z.of_nat n) quota ∧
     (count admitted (goroutines reached) + count denied (goroutines reached))%nat = n) ∧
  (Forall (λ g, returned g = true) (goroutines reached) ∨
   ∃ i, ∀ now, is_Some (step i now reached)) ∧
  (∃ more,
     oneWindow (schedule ++ more).*2 ∧
     Forall (λ g, returned g = true)
       (goroutines (run (schedule ++ more) (start ip quota n rl)))).
Proof.
  intros reached.
  assert (length (goroutines reached) = n) as Hlen.
  { unfold reached. rewrite run_length. simpl. apply length_replicate. }
  assert (∀ times, (∀ a b, a ∈ times → b ∈ times → a - Minute < b) →
            schedule.*2 ⊆ times → Invariant ip quota times reached) as Hinv.
  { intros times Hwin Hsub. apply Invariant_run; [done| |by apply Invariant_start].
    intros i now Hin. apply Hsub. apply list_elem_of_fmap. by exists (i, now). }
  pose proof (proj1 (oneWindow_spec _) Hwindow) as Hwin.
  pose proof (Hinv _ Hwin ltac:(done)) as [Hlock Hwin_inv].
  split_and!.
  - intros i j gi gj Hi Hj. split.
    + intros Hhi%(inv_client_mutex _ _ Hlock i gi Hi) Hhj%(inv_client_mutex _ _ Hlock j gj Hj).
      congruence.
    + intros Hci%(inv_map_mutex _ _ Hlock i gi Hi) Hcj%(inv_map_mutex _ _ Hlock j gj Hj).
      congruence.
  - rewrite <- (inv_count _ _ _ _ Hwin_inv). apply (inv_quota _ _ _ _ Hwin_inv).
  - intros i gi k Hi Ha Ho. rewrite <- (inv_count _ _ _ _ Hwin_inv).
    by apply (inv_observed _ _ _ _ Hwin_inv i gi).
  - apply (inv_distinct _ _ _ _ Hwin_inv).
  - intros Hall. split.
    + rewrite <- Hlen. by eapply admitted_exactly.
    + rewrite <- Hlen. by apply count_returned.
  - by eapply progress.
  - set (now := default 0 (head schedule.*2)).
    set (times := now :: schedule.*2).
    assert (∀ a b, a ∈ times → b ∈ times → a - Minute < b) as Hwin'.
    { assert (∀ a, a ∈ times → a ∈ schedule.*2 ∨ (schedule.*2 = [] ∧ a = 0)) as Hcase.
      { intros a [->|Ha]%elem_of_cons; [|by left]. unfold now.
        destruct (schedule.*2) as [|t ts]; [by right|]. left. simpl. left. }
      intros a b [Ha|[He ->]]%Hcase [Hb|[He' ->]]%Hcase.
      - by apply Hwin.
      - rewrite He' in Ha. by apply elem_of_nil in Ha.
      - rewrite He in Hb. by apply elem_of_nil in Hb.
      - unfold Minute, Second. lia. }
    assert (now ∈ times) as Hnow by left.
    pose proof (Hinv times Hwin' ltac:(by intros t ?; right)) as Hinv'.
    destruct (completes ip quota times Hwin' now Hnow _ reached (le_n _) Hinv')
      as (more & Hmore & Hret).
    exists more. split.
    + apply oneWindow_spec.
      assert (∀ a, a ∈ (schedule ++ more).*2 → a ∈ times) as Hin.
      { intros a. rewrite fmap_app.
        intros [Ha|Ha]%elem_of_app; [by right|].
        apply list_elem_of_fmap in Ha as (e & -> & He).
        rewrite Forall_forall in Hmore. rewrite (Hmore e He). left. }
      intros a b Ha%Hin Hb%Hin. by apply Hwin'.
    + by rewrite run_app.
Qed.

(** * The properties on the sample inputs *)

Import Examples.

Lemma sampleTimes_oneWindow : oneWindow sampleTimes.
Proof. repeat constructor. Qed.

Lemma sampleSchedule_oneWindow : oneWindow sampleSchedule.*2.
Proof. unfold oneWindow. apply (bool_decide_unpack _). by vm_compute. Qed.

(** C1 on three requests within two seconds against a quota of 2, after a
    request two minutes earlier: admitted, admitted, denied, and no more
    than two admitted in the 60 seconds that end at second 2. *)
Lemma isAllowed_sliding_window_quota_witness :
  agedOut (window sampleIP sampleHistory) sampleTimes ∧
  oneWindow sampleTimes ∧
  0 <= 2 ∧
  StronglySorted Z.le sampleTimes ∧
  (serve sampleIP 2 sampleTimes sampleHistory).1 = [true; true; false] ∧
  Z.of_nat (length (inWindow (2 * Second)
                      (admittedTimes (serve sampleIP 2 sampleTimes sampleHistory).1
                         sampleTimes))) <= 2.
Proof.
  assert (agedOut (window sampleIP sampleHistory) sampleTimes) as Haged
    by (repeat constructor; by vm_compute).
  assert (StronglySorted Z.le sampleTimes) as Hsorted
    by (repeat constructor; by vm_compute).
  destruct (isAllowed_sliding_window_quota sampleIP 2 sampleHistory sampleTimes Haged)
    as (_ & _ & Hrun & Hsliding).
  split_and!; [exact Haged | exact sampleTimes_oneWindow | lia | exact Hsorted | |].
  - rewrite (Hrun sampleTimes_oneWindow). reflexivity.
  - apply Hsliding; [lia | exact Hsorted].
Defined.

(** C2 on three goroutines against a quota of 2, taking turns a point at
    a time: all return, two are admitted. *)
Lemma concurrent_requests_admit_exactly_quota_witness :
  0 <= 2 ∧
  window sampleIP rateLimiter = [] ∧
  oneWindow sampleSchedule.*2 ∧
  Forall (λ g, returned g = true)
    (goroutines (run sampleSchedule (start sampleIP 2 3 rateLimiter))) ∧
  Z.of_nat (count admitted
              (goroutines (run sampleSchedule (start sampleIP 2 3 rateLimiter)))) = 2.
Proof.
  assert (Forall (λ g, returned g = true)
            (goroutines (run sampleSchedule (start sampleIP 2 3 rateLimiter)))) as Hall
    by (apply (bool_decide_unpack _); by vm_compute).
  split_and!; [lia | reflexivity | exact sampleSchedule_oneWindow | exact Hall |].
  destruct (concurrent_requests_admit_exactly_quota sampleIP 2 3 rateLimiter sampleSchedule
              ltac:(lia) eq_refl sampleSchedule_oneWindow) as (_ & _ & _ & _ & Hexact & _).
  destruct (Hexact Hall) as [-> _]. reflexivity.
Defined.

(** C3 on a request denied at second 30: status 429, nothing remaining,
    reset at second 90. *)
Lemma rate_limit_headers_witness :
  Status newWriter = None ∧
  1 < 2 ^ 63 ∧
  let out := rateLimitMiddleware 1 (λ w _ s, (w, s)) newWriter
               (sampleRequest "POST" "/ai/generate" promptBody) busyWorld in
  Status out.1 = Some 429 ∧
  Get (RespHeader out.1) "X-RateLimit-Remaining" = "0" ∧
  Get (RespHeader out.1) "X-RateLimit-Reset" = "90".
Proof.
  split_and!; [reflexivity | lia |].
  destruct (rate_limit_headers 1 (λ w _ s, (w, s)) newWriter
              (sampleRequest "POST" "/ai/generate" promptBody) busyWorld
              eq_refl ltac:(lia)) as [Hdenied _].
  destruct (Hdenied ltac:(by vm_compute)) as (Hstatus & Hremaining & Hreset & _).
  split_and!; [exact Hstatus | exact Hremaining |].
  rewrite Hreset. by vm_compute.
Defined.

(** C4 on a preflight for the generate route. *)
Lemma preflight_bypasses_rate_limit_witness :
  Status newWriter = None ∧
  Method (sampleRequest "OPTIONS" "/ai/generate" "") = "OPTIONS" ∧
  let out := protectedHandler
               (HandleGenerate sampleDecode sampleUnmarshal (NewAIHandler backendDown)) 30
               newWriter (sampleRequest "OPTIONS" "/ai/generate" "") sampleWorld in
  Status out.1 = Some 200 ∧ out.2 = sampleWorld.
Proof.
  split_and!; [reflexivity | reflexivity |].
  destruct (preflight_bypasses_rate_limit
              (HandleGenerate sampleDecode sampleUnmarshal (NewAIHandler backendDown)) 30
              newWriter (sampleRequest "OPTIONS" "/ai/generate" "") sampleWorld
              eq_refl eq_refl) as (Hstatus & Hworld & _).
  split; [exact Hstatus | exact Hworld].
Defined.

(** C5 on two identities idle for ten minutes: the cycle empties the map. *)
Lemma reclaim_cycle_removes_idle_witness :
  iterationOrder ["a"; "b"] sampleIdle ∧
  clients (cleanupCycle (10 * Minute) ["a"; "b"] sampleIdle) !! "a" = None ∧
  clients (cleanupCycle (10 * Minute) ["a"; "b"] sampleIdle) !! "b" = None.
Proof.
  split; [exact sampleIdle_order|].
  destruct (reclaim_cycle_removes_idle (10 * Minute) ["a"; "b"] sampleIdle
              sampleIdle_order) as [Hleft _].
  split; rewrite Hleft; by vm_compute.
Defined.

(** C6 on a generate request and a chat request that name no number. *)
Lemma defaults_injected_witness :
  Method (sampleRequest "POST" "/ai/generate" promptBody) = "POST" ∧
  decodePrompt sampleDecode promptBody = Some samplePrompt ∧
  Prompt samplePrompt ≠ "" ∧
  finite (Temperature samplePrompt) = true ∧
  decodeChat sampleDecode chatBody = Some sampleChat ∧
  Messages sampleChat ≠ [] ∧
  finite (ChatTemperature sampleChat) = true ∧
  (∃ request,
     outbound (HandleGenerate sampleDecode sampleUnmarshal (NewAIHandler backendDown)
                 newWriter (sampleRequest "POST" "/ai/generate" promptBody) sampleWorld).2 =
       [{| CallMethod := "POST"; CallURL := "http://llm-server:8082/generate";
           CallPayload := LLMPayload request |}] ∧
     MaxLength request = 150 ∧
     LLMTemperature request = 0x1.6666666666666p-1%float) ∧
  (∃ maxTokens temperature,
     outbound (HandleChatCompletion sampleDecode sampleUnmarshal (NewAIHandler backendDown)
                 newWriter (sampleRequest "POST" "/ai/chat/completions" chatBody)
                 sampleWorld).2 =
       [{| CallMethod := "POST"; CallURL := "http://llm-server:8082/chat/completions";
           CallPayload := ChatPayload [{| Role := "user"; Content := "Hello" |}]
                            maxTokens temperature |}] ∧
     maxTokens = 150 ∧ temperature = 0x1.6666666666666p-1%float).
Proof.
  split_and!; [reflexivity | by vm_compute | done | by vm_compute
              | by vm_compute | done | by vm_compute | |].
  - destruct (defaults_injected sampleDecode sampleUnmarshal (NewAIHandler backendDown)
                newWriter (sampleRequest "POST" "/ai/generate" promptBody) sampleWorld
                eq_refl) as (Hgenerate & _).
    destruct (Hgenerate samplePrompt)
      as (request & Hsent & _ & Htokens & _ & Htemp & _);
      [by vm_compute | done | by vm_compute |].
    exists request. split_and!; [exact Hsent | by apply Htokens | by apply Htemp].
  - destruct (defaults_injected sampleDecode sampleUnmarshal (NewAIHandler backendDown)
                newWriter (sampleRequest "POST" "/ai/chat/completions" chatBody) sampleWorld
                eq_refl) as (_ & _ & Hchat & _).
    destruct (Hchat sampleChat)
      as (maxTokens & temperature & Hsent & Htokens & _ & Htemp & _);
      [by vm_compute | done | by vm_compute |].
    exists maxTokens, temperature.
    split_and!; [exact Hsent | by apply Htokens | by apply Htemp].
Defined.


(** C10 on a third call within two seconds against a quota of 2. *)
Lemma isAllowed_window_invariant_witness :
  0 <= 2 ∧
  window sampleIP rateLimiter = [] ∧
  let before := (serve sampleIP 2 [0; Second] rateLimiter).2 in
  let call := isAllowed (2 * Second) sampleIP 2 before in
  call.1 = false ∧
  window sampleIP call.2 = [0; Second] ∧
  Z.of_nat (length (window sampleIP call.2)) <= 2.
Proof.
  split_and!; [lia | reflexivity |].
  destruct (isAllowed_window_invariant sampleIP 2 rateLimiter [0; Second] (2 * Second)
              ltac:(lia) eq_refl) as (Hlen & _ & Hdenied).
  split_and!; [by vm_compute | | exact Hlen].
  rewrite Hdenied by (by vm_compute). by vm_compute.
Defined.

(** * Further properties of the sources *)

Import Traffic Root Answers Tokens Serialization Scenarios.

(** ** One limiter for every identity and every route *)

Section Isolation.
Context (clientIP : string).

(** The decision of a call and the window it leaves depend on the limiter
    through the live part of the caller's window only. *)
Lemma isAllowed_live now limit rl1 rl2 :
  validRequests (now - Minute) (window clientIP rl1) =
  validRequests (now - Minute) (window clientIP rl2) →
  (isAllowed now clientIP limit rl1).1 = (isAllowed now clientIP limit rl2).1 ∧
  window clientIP (isAllowed now clientIP limit rl1).2 =
  window clientIP (isAllowed now clientIP limit rl2).2.
Proof.
  intros Hlive.
  rewrite !isAllowed_window, !isAllowed_decision, Hlive. done.
Qed.

Lemma serveAll_isolated arrivals : ∀ rl1 rl2,
  window clientIP rl1 = window clientIP rl2 →
  decisionsOf clientIP arrivals (serveAll arrivals rl1).1 =
    (serveAll (arrivalsOf clientIP arrivals) rl2).1 ∧
  window clientIP (serveAll arrivals rl1).2 =
    window clientIP (serveAll (arrivalsOf clientIP arrivals) rl2).2.
Proof.
  induction arrivals as [|a rest IH]; intros rl1 rl2 Hw; [done|].
  simpl. destruct (decide (identity a = clientIP)) as [Heq|Hne].
  - rewrite bool_decide_eq_true_2 by done. simpl.
    destruct (isAllowed_live (instant a) (quota a) rl1 rl2) as [Hd Hw'];
      [by rewrite Hw|].
    rewrite Heq.
    destruct (isAllowed (instant a) clientIP (quota a) rl1) as [ok1 rl1'].
    destruct (isAllowed (instant a) clientIP (quota a) rl2) as [ok2 rl2'].
    simpl in Hd, Hw'. subst ok2.
    specialize (IH rl1' rl2' Hw').
    destruct (serveAll rest rl1') as [oks1 rl1''].
    destruct (serveAll (arrivalsOf clientIP rest) rl2') as [oks2 rl2''].
    simpl in *.
    destruct IH as [-> ->]. done.
  - rewrite bool_decide_eq_false_2 by done.
    pose proof (isAllowed_window_ne (identity a) (quota a) clientIP (instant a) rl1
                  ltac:(done)) as Hw'.
    destruct (isAllowed (instant a) (identity a) (quota a) rl1) as [ok1 rl1'].
    simpl in Hw'.
    specialize (IH rl1' rl2 ltac:(by rewrite Hw')).
    destruct (serveAll rest rl1') as [oks1 rl1''].
    simpl in *. done.
Qed.
End Isolation.

(** X1. Identities are accounted separately. In any sequence of calls of
    [isAllowed], for whatever identities, quotas and clock readings, the
    decisions the calls of one identity receive, and the window that
    identity is left with, are those the same calls would have received
    had no other identity called at all. *)
Theorem identities_are_accounted_separately
    (clientIP : string) (arrivals : list Arrival) (rl : RateLimiter) :
  decisionsOf clientIP arrivals (serveAll arrivals rl).1 =
    (serveAll (arrivalsOf clientIP arrivals) rl).1 ∧
  window clientIP (serveAll arrivals rl).2 =
    window clientIP (serveAll (arrivalsOf clientIP arrivals) rl).2.
Proof. by apply serveAll_isolated. Qed.

Section Shared.
Context (clientIP : string).

Lemma serveAll_serve limit nows : ∀ rl,
  serveAll (arrivalsAt clientIP limit nows) rl = serve clientIP limit nows rl.
Proof.
  induction nows as [|now rest IH]; intros rl; [done|].
  simpl. destruct (isAllowed now clientIP limit rl) as [ok rl1].
  fold (arrivalsAt clientIP limit rest). by rewrite IH.
Qed.

(** Requests within one window that fit under the quota are all admitted,
    and all on record afterwards. *)
Lemma serve_admits_all limit (all : list Time) :
  (∀ a b, a ∈ all → b ∈ all → a - Minute < b) →
  ∀ nows rl live,
    nows ⊆ all → live ⊆ all →
    (∀ now, now ∈ all → validRequests (now - Minute) (window clientIP rl) = live) →
    Z.of_nat (length live + length nows) <= limit →
    (serve clientIP limit nows rl).1 = replicate (length nows) true ∧
    (∀ now, now ∈ all →
       validRequests (now - Minute) (window clientIP (serve clientIP limit nows rl).2) =
       live ++ nows).
Proof.
  intros Hwin nows. induction nows as [|now rest IH]; intros rl live Hsub Hlive Hw Hfit.
  - simpl. split; [done|]. intros now Hnow. by rewrite app_nil_r, Hw.
  - assert (Hnow : now ∈ all) by (apply Hsub; left).
    assert (Hrest : rest ⊆ all) by (intros x Hx; apply Hsub; by right).
    simpl in *.
    pose proof (isAllowed_decision clientIP limit now rl) as Hd.
    pose proof (isAllowed_window clientIP limit now rl) as Hw'.
    destruct (isAllowed now clientIP limit rl) as [ok rl1]; simpl in Hd, Hw'.
    rewrite (Hw now Hnow) in Hd, Hw'.
    rewrite bool_decide_eq_true_2 in Hd by lia. subst ok.
    destruct (IH rl1 (live ++ [now])) as [IHd IHw].
    + done.
    + intros x [Hx|Hx%list_elem_of_singleton]%elem_of_app; [by apply Hlive | by subst].
    + intros now' Hn. rewrite Hw'. apply validRequests_all.
      apply Forall_forall. intros t [Ht|Ht%list_elem_of_singleton]%elem_of_app.
      * apply Hwin; [done | by apply Hlive].
      * subst. by apply Hwin.
    + rewrite length_app. simpl. lia.
    + destruct (serve clientIP limit rest rl1) as [oks rl2]; simpl in *.
      split; [by rewrite IHd|].
      intros now' Hn. rewrite IHw by done. by rewrite <- app_assoc.
Qed.

(** Limiters that agree on what is live of the identity's window at each
    of the request times give the same decisions. *)
Lemma serve_live limit nows : ∀ rl1 rl2,
  (∀ now, now ∈ nows →
     validRequests (now - Minute) (window clientIP rl1) =
     validRequests (now - Minute) (window clientIP rl2)) →
  (serve clientIP limit nows rl1).1 = (serve clientIP limit nows rl2).1 ∧
  (nows ≠ [] →
   window clientIP (serve clientIP limit nows rl1).2 =
   window clientIP (serve clientIP limit nows rl2).2).
Proof.
  induction nows as [|now rest IH]; intros rl1 rl2 Hlive; [done|].
  simpl.
  destruct (isAllowed_live clientIP now limit rl1 rl2) as [Hd Hw]; [apply Hlive; left|].
  destruct (isAllowed now clientIP limit rl1) as [ok1 rl1'].
  destruct (isAllowed now clientIP limit rl2) as [ok2 rl2'].
  simpl in Hd, Hw. subst ok2.
  destruct (IH rl1' rl2') as [IHd IHw]; [intros; by rewrite Hw|].
  assert (window clientIP (serve clientIP limit rest rl1').2 =
          window clientIP (serve clientIP limit rest rl2').2) as Hw''.
  { destruct rest as [|now' rest']; [done | by apply IHw]. }
  destruct (serve clientIP limit rest rl1') as [oks1 rl1''].
  destruct (serve clientIP limit rest rl2') as [oks2 rl2''].
  simpl in *. by rewrite IHd.
Qed.
End Shared.

(** X2. The quota is per identity, not per route. Every route checks its
    own quota against the one window the identity has, so requests admitted
    on a route with a high quota use up the quota of a route with a lower
    one: after [nows] requests of an identity within one 60-second window,
    all admitted against quota [high], a request of that identity against a
    quota [low] no larger than their number is denied, although it is the
    first one checked against that quota. *)
Theorem quota_is_shared_between_routes
    (clientIP : string) (high low : Z) (nows : list Time) (now : Time) (rl : RateLimiter)
    (Hstale : agedOut (window clientIP rl) (nows ++ [now]))
    (Hwindow : oneWindow (nows ++ [now]))
    (Hhigh : Z.of_nat (length nows) <= high)
    (Hlow : low <= Z.of_nat (length nows)) :
  let served := serveAll (arrivalsAt clientIP high nows) rl in
  served.1 = replicate (length nows) true ∧
  List.filter (λ t, now - Minute <? t) (window clientIP served.2) = nows ∧
  (isAllowed now clientIP low served.2).1 = false.
Proof.
  intros served. unfold served. rewrite serveAll_serve.
  pose proof (proj1 (oneWindow_spec _) Hwindow) as Hwin.
  assert (∀ t, t ∈ nows ++ [now] →
            validRequests (t - Minute) (window clientIP rl) = []) as Hnone.
  { intros t Ht. apply validRequests_none, Forall_forall.
    intros u Hu. unfold agedOut in Hstale.
    rewrite Forall_forall in Hstale. specialize (Hstale u Hu).
    rewrite Forall_forall in Hstale. by apply Hstale. }
  destruct (serve_admits_all clientIP high (nows ++ [now]) Hwin nows rl [])
    as [Hd Hw]; [set_solver | set_solver | done | simpl; lia |].
  assert (now ∈ nows ++ [now]) as Hnow by set_solver.
  split_and!.
  - done.
  - apply (Hw now Hnow).
  - rewrite isAllowed_decision, (Hw now Hnow). simpl.
    apply bool_decide_eq_false_2. lia.
Qed.

(** X3. Timestamps that have aged out have no influence. When every
    timestamp on record for an identity is 60 seconds or more older than
    each of the coming requests, these requests receive the decisions they
    would receive from the empty limiter the process starts with, and leave
    the same window. *)
Theorem stale_history_is_forgotten
    (clientIP : string) (limit : Z) (nows : list Time) (rl : RateLimiter)
    (Hstale : agedOut (window clientIP rl) nows) :
  (serve clientIP limit nows rl).1 = (serve clientIP limit nows rateLimiter).1 ∧
  (nows ≠ [] →
   window clientIP (serve clientIP limit nows rl).2 =
   window clientIP (serve clientIP limit nows rateLimiter).2).
Proof.
  apply serve_live. intros now Hnow.
  rewrite validRequests_none; [done|].
  apply Forall_forall. intros u Hu. unfold agedOut in Hstale.
  rewrite Forall_forall in Hstale. specialize (Hstale u Hu).
  rewrite Forall_forall in Hstale. by apply Hstale.
Qed.

Section Transparent.
Context (cutoff : Time).

Lemma isAllowed_sameLive now clientIP limit rl1 rl2 :
  cutoff <= now - Minute →
  sameLive cutoff rl1 rl2 →
  (isAllowed now clientIP limit rl1).1 = (isAllowed now clientIP limit rl2).1 ∧
  sameLive cutoff (isAllowed now clientIP limit rl1).2 (isAllowed now clientIP limit rl2).2.
Proof.
  intros Hnow Hsame.
  destruct (isAllowed_live clientIP now limit rl1 rl2) as [Hd Hw]; [by apply Hsame|].
  split; [done|].
  intros other c Hc. destruct (decide (other = clientIP)) as [->|Hne].
  - by rewrite Hw.
  - rewrite !isAllowed_window_ne by done. by apply Hsame.
Qed.

Lemma serveAll_sameLive arrivals : ∀ rl1 rl2,
  Forall (λ a, cutoff <= instant a - Minute) arrivals →
  sameLive cutoff rl1 rl2 →
  (serveAll arrivals rl1).1 = (serveAll arrivals rl2).1 ∧
  sameLive cutoff (serveAll arrivals rl1).2 (serveAll arrivals rl2).2.
Proof.
  induction arrivals as [|a rest IH]; intros rl1 rl2 Hall Hsame; [done|].
  apply Forall_cons in Hall as [Ha Hrest]. simpl.
  destruct (isAllowed_sameLive (instant a) (identity a) (quota a) rl1 rl2 Ha Hsame)
    as [Hd Hsame'].
  destruct (isAllowed (instant a) (identity a) (quota a) rl1) as [ok1 rl1'].
  destruct (isAllowed (instant a) (identity a) (quota a) rl2) as [ok2 rl2'].
  simpl in Hd, Hsame'. subst ok2.
  destruct (IH rl1' rl2' Hrest Hsame') as [IHd IHs].
  destruct (serveAll rest rl1') as [oks1 rl1''].
  destruct (serveAll rest rl2') as [oks2 rl2''].
  simpl in *. by rewrite IHd.
Qed.

Lemma hasRecentRequests_false client :
  hasRecentRequests cutoff client = false → Forall (λ t, t <= cutoff) (requests client).
Proof.
  unfold hasRecentRequests. intros Hnone. apply Forall_forall. intros t Ht.
  destruct (Z.ltb_spec cutoff t) as [Hlt|]; [|done].
  assert (existsb (λ reqTime, After reqTime cutoff) (requests client) = true) as Hex.
  { apply existsb_exists. exists t. split; [by apply list_elem_of_In|].
    unfold After. by apply Z.ltb_lt. }
  congruence.
Qed.

Lemma sweep_sameLive visited rl : sameLive cutoff (sweep cutoff visited rl) rl.
Proof.
  intros clientIP c Hc. unfold window. rewrite sweep_lookup.
  destruct (clients rl !! clientIP) as [client|]; [|done].
  destruct (bool_decide _ && negb (hasRecentRequests cutoff client)) eqn:E; [|done].
  apply andb_true_iff in E as [_ E]. apply negb_true_iff in E.
  simpl. symmetry. apply validRequests_none.
  eapply Forall_impl; [by apply hasRecentRequests_false|]. simpl. lia.
Qed.
End Transparent.

(** X4. The reclaim cycle is invisible to admission. Calls of [isAllowed]
    made no earlier than four minutes before the cycle's clock reading,
    for whatever identities and quotas, receive after a reclaim cycle the
    decisions they would have received without it, whatever the identities
    the cycle visited and removed; and the limiters they leave hold the
    same live timestamps for every identity. *)
Theorem reclaim_is_invisible_to_admission
    (now : Time) (order : list string) (rl : RateLimiter) (arrivals : list Arrival)
    (Hlater : Forall (λ a, now - 4 * Minute <= instant a) arrivals) :
  (serveAll arrivals (cleanupCycle now order rl)).1 = (serveAll arrivals rl).1 ∧
  ∀ clientIP later,
    now - 4 * Minute <= later →
    List.filter (λ t, later - Minute <? t)
      (window clientIP (serveAll arrivals (cleanupCycle now order rl)).2) =
    List.filter (λ t, later - Minute <? t) (window clientIP (serveAll arrivals rl).2).
Proof.
  destruct (serveAll_sameLive (now - 5 * Minute) arrivals (cleanupCycle now order rl) rl)
    as [Hd Hsame].
  - eapply Forall_impl; [exact Hlater|]. simpl. intros a Ha. lia.
  - unfold cleanupCycle, Add. replace (now + - 5 * Minute) with (now - 5 * Minute) by lia.
    apply sweep_sameLive.
  - split; [done|]. intros clientIP later Hl.
    apply (Hsame clientIP (later - Minute)). lia.
Qed.

Section Chronological.
Context (clientIP : string) (limit : Z).

Lemma sorted_app (l1 l2 : list Time) :
  StronglySorted Z.le (l1 ++ l2) ↔
  (∀ x1 x2, x1 ∈ l1 → x2 ∈ l2 → x1 <= x2) ∧
  StronglySorted Z.le l1 ∧ StronglySorted Z.le l2.
Proof.
  induction l1 as [|t l1 IH]; simpl.
  - split; [|by intros (_ & _ & ?)]. intros H. split_and!; [|constructor|done].
    by intros x1 x2 ?%elem_of_nil.
  - split.
    + intros [Hsorted Hall]%StronglySorted_inv. apply IH in Hsorted as (Hcross & H1 & H2).
      apply Forall_app in Hall as [Hall1 Hall2]. rewrite Forall_forall in Hall2.
      split_and!; [|by constructor|done].
      intros x1 x2 [-> | Hx1]%elem_of_cons Hx2; [by apply Hall2 | by apply Hcross].
    + intros (Hcross & [H1 Hall]%StronglySorted_inv & H2). constructor.
      * apply IH. split_and!; [|done..]. intros x1 x2 Hx1 Hx2. apply Hcross; [by right|done].
      * apply Forall_app. split; [done|]. apply Forall_forall. intros x Hx.
        apply Hcross; [by left | done].
Qed.

Lemma validRequests_sorted cutoff reqs rest :
  StronglySorted Z.le (reqs ++ rest) →
  StronglySorted Z.le (validRequests cutoff reqs ++ rest).
Proof.
  rewrite !sorted_app. intros (Hcross & Hreqs & Hrest). split_and!; [| |done].
  - intros x1 x2 Hx1 Hx2. apply Hcross; [|done].
    unfold validRequests in Hx1. apply list_elem_of_In, filter_In in Hx1 as [Hx1 _].
    by apply list_elem_of_In.
  - clear Hcross. induction Hreqs as [|t reqs Hsorted IH Hall]; [constructor|].
    unfold validRequests in *. simpl. destruct (After t cutoff); [|done].
    constructor; [done|]. apply Forall_forall. intros u Hu.
    rewrite Forall_forall in Hall. apply Hall.
    apply list_elem_of_In, filter_In in Hu as [Hu _]. by apply list_elem_of_In.
Qed.

Lemma serve_sorted nows : ∀ rl,
  StronglySorted Z.le (window clientIP rl ++ nows) →
  StronglySorted Z.le (window clientIP (serve clientIP limit nows rl).2).
Proof.
  induction nows as [|now rest IH]; intros rl Hsorted.
  - simpl. by rewrite app_nil_r in Hsorted.
  - simpl.
    pose proof (isAllowed_window clientIP limit now rl) as Hw.
    destruct (isAllowed now clientIP limit rl) as [ok rl1]. simpl in Hw.
    specialize (IH rl1).
    destruct (serve clientIP limit rest rl1) as [oks rl2]. simpl in *.
    apply IH. rewrite Hw.
    apply (validRequests_sorted (now - Minute)) in Hsorted.
    destruct ok.
    + by rewrite <- app_assoc.
    + apply sorted_app in Hsorted as (Hcross & Hvalid & Hrest).
      apply sorted_app. split_and!; [|done|].
      * intros x1 x2 Hx1 Hx2. apply Hcross; [done | by right].
      * by apply StronglySorted_inv in Hrest as [? _].
Qed.
End Chronological.

(** X5. With a clock that does not go back, a window is in the order of
    time. When the timestamps on record for an identity followed by the
    clock readings of its coming requests are in non-decreasing order, the
    window these requests leave is in non-decreasing order too: its first
    entry is the oldest and its last the newest. *)
Theorem window_is_chronological
    (clientIP : string) (limit : Z) (nows : list Time) (rl : RateLimiter)
    (Hsorted : StronglySorted Z.le (window clientIP rl ++ nows)) :
  let kept := window clientIP (serve clientIP limit nows rl).2 in
  StronglySorted Z.le kept ∧
  (∀ t, t ∈ kept → default t (head kept) <= t ∧ t <= default t (last kept)).
Proof.
  intros kept. assert (StronglySorted Z.le kept) as Hkept by (by apply serve_sorted).
  split; [done|]. intros t Ht. split.
  - destruct kept as [|oldest rest]; [by apply elem_of_nil in Ht|]. simpl.
    apply StronglySorted_inv in Hkept as [_ Hall].
    apply elem_of_cons in Ht as [-> | Ht]; [lia|].
    rewrite Forall_forall in Hall. by apply Hall.
  - destruct (last kept) as [newest|] eqn:Hlast; simpl; [|lia].
    apply last_Some in Hlast as [front ->].
    apply elem_of_app in Ht as [Ht | ->%list_elem_of_singleton]; [|lia].
    apply sorted_app in Hkept as (Hcross & _).
    apply Hcross; [done | by left].
Qed.

(** X6. What [getRemainingRequests] reports, against what [isAllowed]
    decides, for a quota in 0 .. 2^63 - 1 and a window whose length is an
    [int]. For an identity with an entry in the map, it reports the quota
    minus the number of live timestamps, or 0 when that is negative, and a
    call of [isAllowed] at the same time is admitted exactly when the
    report is positive. For an identity without an entry it reports the
    quota minus one, while [isAllowed] admits exactly when the quota is
    positive. *)
Theorem getRemainingRequests_matches_isAllowed
    (now : Time) (clientIP : string) (limit : Z) (rl : RateLimiter)
    (Hlimit : 0 <= limit < 2 ^ 63)
    (Hlen : Z.of_nat (length (window clientIP rl)) < 2 ^ 63) :
  let live := Z.of_nat (length (List.filter (λ t, now - Minute <? t) (window clientIP rl))) in
  let remaining := getRemainingRequests now clientIP limit rl in
  (is_Some (clients rl !! clientIP) →
     remaining = Z.max 0 (limit - live) ∧
     ((isAllowed now clientIP limit rl).1 = true ↔ 0 < remaining)) ∧
  (clients rl !! clientIP = None →
     remaining = limit - 1 ∧
     ((isAllowed now clientIP limit rl).1 = true ↔ 0 < limit)).
Proof.
  intros live remaining.
  assert (∀ x, - 2 ^ 63 <= x < 2 ^ 63 → GoInt.wrap x = x) as Hwrap.
  { intros x Hx. unfold GoInt.wrap. rewrite Z.mod_small; lia. }
  pose proof (isAllowed_decision clientIP limit now rl) as Hd.
  pose proof (validRequests_length (now - Minute) (window clientIP rl)) as Hle.
  assert (live = Z.of_nat (length (validRequests (now - Minute) (window clientIP rl))))
    as Hlive by done.
  rewrite <- Hlive in Hd.
  assert (0 <= live < 2 ^ 63) as Hrange by lia.
  clearbody live.
  split.
  - intros [client Hclient]. unfold remaining, getRemainingRequests.
    unfold window in Hlive. rewrite Hclient in *.
    unfold Add. replace (now + - Minute) with (now - Minute) by lia.
    rewrite <- Hlive.
    unfold GoInt.sub. rewrite Hwrap by lia.
    rewrite Hd, bool_decide_eq_true.
    destruct (Z.ltb_spec (limit - live) 0); lia.
  - intros Hnone. unfold remaining, getRemainingRequests. rewrite Hnone.
    unfold GoInt.sub. rewrite Hwrap by lia. split; [done|].
    rewrite Hd, bool_decide_eq_true. unfold window in Hlive. rewrite Hnone in Hlive.
    simpl in Hlive. lia.
Qed.

(** ** Identity resolution, continued *)

Section Fields.
Lemma splitBytes_none sep (l : list ascii) :
  sep ∉ l → splitBytes sep l = [l].
Proof.
  induction l as [|c l IH]; intros Hnin; simpl; [done|].
  rewrite decide_False by (intros ->; apply Hnin; left).
  rewrite IH; [done|]. by intros ?; apply Hnin; right.
Qed.

Lemma first_Split_head (sep : ascii) (head rest : string) :
  sep ∉ list_ascii_of_string head →
  first (Split (head +:+ String sep rest) sep) = head ∧
  first (Split head sep) = head.
Proof.
  intros Hhead. unfold Split, first. split.
  - rewrite list_ascii_of_string_app. simpl.
    destruct (splitBytes_head sep (list_ascii_of_string head)
                (list_ascii_of_string rest) Hhead) as [fields ->].
    simpl. apply string_of_list_ascii_of_string.
  - rewrite splitBytes_none by done. simpl. apply string_of_list_ascii_of_string.
Qed.

End Fields.

(** X7. The identity of a request without forwarding header. When
    X-Forwarded-For is absent or empty: a non-empty X-Real-IP is the
    identity, as it stands; without it, the identity is the text of the
    peer address before its first colon, so the whole address when it has
    no colon, and the host for host:port, whatever the port. *)
Theorem identity_without_forwarding_header
    (r : Request)
    (Hxff : Get (ReqHeader r) "X-Forwarded-For" = "") :
  (Get (ReqHeader r) "X-Real-IP" ≠ "" → getClientIP r = Get (ReqHeader r) "X-Real-IP") ∧
  (Get (ReqHeader r) "X-Real-IP" = "" →
   ∀ host, ":"%char ∉ list_ascii_of_string host →
     (RemoteAddr r = host → getClientIP r = host) ∧
     (∀ rest, RemoteAddr r = host +:+ ":" +:+ rest → getClientIP r = host)).
Proof.
  split.
  - intros Hxri. by apply getClientIP_real_ip.
  - intros Hxri host Hhost. rewrite getClientIP_peer by done. split.
    + intros ->. by apply first_Split_head.
    + intros rest ->. by apply (first_Split_head ":"%char host rest).
Qed.

Section Trim.
Lemma isPrefix_head p0 p c l : p0 ≠ c → isPrefix (p0 :: p) (c :: l) = false.
Proof. intros Hne. simpl. by rewrite decide_False. Qed.

Lemma stripRune_None runes l :
  Forall (λ p, isPrefix p l = false) runes → stripRune runes l = None.
Proof. induction 1 as [|p runes Hp _ IH]; simpl; [done|]. by rewrite Hp. Qed.

Lemma stripRune_nil runes : Forall (λ p, p ≠ []) runes → stripRune runes [] = None.
Proof.
  intros Hne. apply stripRune_None. eapply Forall_impl; [exact Hne|].
  intros [|p0 p]; simpl; done.
Qed.

Ltac not_visible :=
  match goal with
  | Hv : visible ?c |- _ =>
      repeat constructor; apply isPrefix_head; intros <-; unfold visible in Hv;
      vm_compute in Hv; lia
  end.

Lemma stripRune_visible c l : visible c → stripRune spaceRunes (c :: l) = None.
Proof. intros Hv. apply stripRune_None. unfold spaceRunes. simpl. not_visible. Qed.

Lemma stripRune_visible_reverse c l :
  visible c → stripRune (reverse <$> spaceRunes) (c :: l) = None.
Proof.
  intros Hv. apply stripRune_None.
  remember (reverse <$> spaceRunes) as runes eqn:E. vm_compute in E. subst runes.
  not_visible.
Qed.

Lemma stripRune_space c l : asciiSpace c → stripRune spaceRunes (c :: l) = Some l.
Proof.
  unfold asciiSpace, bytes. simpl.
  rewrite !elem_of_cons, elem_of_nil.
  intros [->|[->|[->|[->|[->|[->|[]]]]]]]; by vm_compute.
Qed.

Lemma stripRune_space_reverse c l :
  asciiSpace c → stripRune (reverse <$> spaceRunes) (c :: l) = Some l.
Proof.
  unfold asciiSpace, bytes. simpl.
  rewrite !elem_of_cons, elem_of_nil.
  intros [->|[->|[->|[->|[->|[->|[]]]]]]]; by vm_compute.
Qed.
End Trim.

Section Trim2.
Lemma spaceRunes_nonempty : Forall (λ p, p ≠ []) spaceRunes.
Proof. unfold spaceRunes. simpl. repeat constructor; done. Qed.

Lemma spaceRunes_reverse_nonempty : Forall (λ p, p ≠ []) (reverse <$> spaceRunes).
Proof.
  remember (reverse <$> spaceRunes) as runes eqn:E. vm_compute in E. subst runes.
  repeat constructor; done.
Qed.

(** Stripping stops at the first visible character, or at the end. *)
Lemma trimLeftFuel_pad runes pad rest :
  (∀ c l, asciiSpace c → stripRune runes (c :: l) = Some l) →
  stripRune runes rest = None →
  Forall asciiSpace pad →
  ∀ fuel, (length pad ≤ fuel)%nat → trimLeftFuel runes fuel (pad ++ rest) = rest.
Proof.
  intros Hspace Hstop Hpad. induction Hpad as [|c pad Hc _ IH]; intros fuel Hfuel.
  - simpl. destruct fuel; simpl; [done|]. by rewrite Hstop.
  - destruct fuel as [|fuel]; simpl in *; [lia|].
    rewrite Hspace by done. apply IH. lia.
Qed.

Lemma stop_left rest :
  match rest with [] => True | c :: _ => visible c end → stripRune spaceRunes rest = None.
Proof.
  destruct rest as [|c l]; intros H.
  - apply stripRune_nil, spaceRunes_nonempty.
  - by apply stripRune_visible.
Qed.

Lemma stop_right rest :
  match rest with [] => True | c :: _ => visible c end →
  stripRune (reverse <$> spaceRunes) rest = None.
Proof.
  destruct rest as [|c l]; intros H.
  - apply stripRune_nil, spaceRunes_reverse_nonempty.
  - by apply stripRune_visible_reverse.
Qed.

Lemma trim_padded (lead core trail : list ascii) :
  Forall asciiSpace lead → Forall asciiSpace trail → Forall visible core →
  trimRight (trimLeft (lead ++ core ++ trail)) = core.
Proof.
  intros Hlead Htrail Hcore.
  assert (Forall asciiSpace (reverse trail)) as Htrail' by (by apply Forall_reverse).
  destruct core as [|c core].
  - simpl. assert (trimLeft (lead ++ trail) = []) as ->; [|done].
    unfold trimLeft.
    pose proof (trimLeftFuel_pad spaceRunes (lead ++ trail) [] stripRune_space
                  (stop_left [] I)) as Hstrip.
    rewrite app_nil_r in Hstrip. apply Hstrip; [by apply Forall_app | done].
  - unfold trimLeft.
    rewrite trimLeftFuel_pad;
      [ | apply stripRune_space | apply stop_left; by inversion Hcore | done
        | rewrite length_app; lia ].
    unfold trimRight. rewrite reverse_app.
    rewrite trimLeftFuel_pad;
      [ by rewrite reverse_involutive | apply stripRune_space_reverse | | done
        | rewrite length_app, length_reverse; lia ].
    apply stop_right.
    assert (Forall visible (reverse (c :: core))) as Hrev by (by apply Forall_reverse).
    destruct (reverse (c :: core)); [done | by inversion Hrev].
Qed.

Lemma TrimSpace_padded (lead core trail : string) :
  blank lead → blank trail → Forall visible (list_ascii_of_string core) →
  TrimSpace (lead +:+ core +:+ trail) = core.
Proof.
  intros Hlead Htrail Hcore. unfold TrimSpace.
  rewrite !list_ascii_of_string_app, trim_padded by done.
  apply string_of_list_ascii_of_string.
Qed.
End Trim2.

(** X8. The identity of a request with a forwarding header. When the
    first entry of X-Forwarded-For is an address (visible characters, no
    comma) with ASCII white space before and after it, the identity is that
    address with the white space removed, whether or not further entries
    follow, and whatever X-Real-IP and the peer address are. When the first
    entry is empty or white space only, the identity is the empty text. *)
Theorem forwarded_identity_is_first_entry_trimmed
    (r : Request) (lead trail : string)
    (Hlead : blank lead) (Htrail : blank trail) :
  (∀ ip, token ip →
     (Get (ReqHeader r) "X-Forwarded-For" = lead +:+ ip +:+ trail → getClientIP r = ip) ∧
     (∀ others,
        Get (ReqHeader r) "X-Forwarded-For" = (lead +:+ ip +:+ trail) +:+ "," +:+ others →
        getClientIP r = ip)) ∧
  (∀ others,
     Get (ReqHeader r) "X-Forwarded-For" = lead +:+ "," +:+ others → getClientIP r = "").
Proof.
  assert (∀ s, blank s → ","%char ∉ list_ascii_of_string s) as Hblank.
  { intros s Hs Hin. unfold blank in Hs. rewrite Forall_forall in Hs.
    specialize (Hs _ Hin). unfold asciiSpace, bytes in Hs. simpl in Hs.
    repeat (apply elem_of_cons in Hs as [Hs|Hs]; [discriminate|]).
    by apply elem_of_nil in Hs. }
  split.
  - intros ip [Hne Hip].
    assert (Forall visible (list_ascii_of_string ip)) as Hvis.
    { apply Forall_forall. intros c Hc. rewrite Forall_forall in Hip.
      by destruct (Hip c Hc). }
    assert (","%char ∉ list_ascii_of_string (lead +:+ ip +:+ trail)) as Hcomma.
    { rewrite !list_ascii_of_string_app, !elem_of_app.
      intros [?|[Hin|?]]; [by apply (Hblank lead) | | by apply (Hblank trail)].
      rewrite Forall_forall in Hip. by destruct (Hip _ Hin). }
    assert (lead +:+ ip +:+ trail ≠ "") as Hfull.
    { intros E. apply (f_equal list_ascii_of_string) in E.
      rewrite !list_ascii_of_string_app in E. simpl in E.
      apply app_eq_nil in E as [_ [E _]%app_eq_nil].
      apply Hne. rewrite <- (string_of_list_ascii_of_string ip). by rewrite E. }
    destruct (first_Split_head ","%char (lead +:+ ip +:+ trail) "") as [_ Hone]; [done|].
    split.
    + intros Hxff. rewrite getClientIP_forwarded by (by rewrite Hxff).
      rewrite Hxff, Hone. by apply TrimSpace_padded.
    + intros others Hxff.
      destruct (first_Split_head ","%char (lead +:+ ip +:+ trail) others) as [Hmany _];
        [done|].
      rewrite getClientIP_forwarded; [|rewrite Hxff; by destruct (lead +:+ ip +:+ trail)].
      rewrite Hxff. change ("," +:+ others) with (String ","%char others).
      rewrite Hmany. by apply TrimSpace_padded.
  - intros others Hxff.
    destruct (first_Split_head ","%char lead others) as [Hmany _]; [by apply Hblank|].
    rewrite getClientIP_forwarded; [|rewrite Hxff; by destruct lead].
    rewrite Hxff. change ("," +:+ others) with (String ","%char others).
    rewrite Hmany.
    apply (TrimSpace_padded "" "" lead); [constructor | done | constructor].
Qed.

(** ** The answers of the pipeline *)

Section Pipeline.
Context (requestsPerMinute : Z).

(** The rate-limit stage, by the decision of [isAllowed]. *)
Lemma rateLimitMiddleware_unfold next w r s :
  let clientIP := getClientIP r in
  let t0 := clock s (reads s) in
  let t1 := clock s (S (reads s)) in
  let t2 := clock s (S (S (reads s))) in
  let decision := isAllowed t0 clientIP requestsPerMinute (limiter s) in
  rateLimitMiddleware requestsPerMinute next w r s =
  if negb decision.1 then
    (GoHTTP.Error
       (SetHeader (SetHeader (SetHeader (SetHeader (SetHeader (SetHeader w
          "X-RateLimit-Limit" (GoInt.Itoa requestsPerMinute))
          "X-RateLimit-Remaining" "0")
          "X-RateLimit-Reset" (GoInt.Itoa (Unix (t1 + Minute))))
          "Access-Control-Allow-Origin" "*")
          "Access-Control-Allow-Methods" "GET, POST, OPTIONS")
          "Access-Control-Allow-Headers" "Content-Type")
       rateLimitBody StatusTooManyRequests,
     {| limiter := decision.2; clock := clock s; reads := S (S (reads s));
        outbound := outbound s |})
  else
    next
      (SetHeader (SetHeader (SetHeader w
         "X-RateLimit-Limit" (GoInt.Itoa requestsPerMinute))
         "X-RateLimit-Remaining"
           (GoInt.Itoa (getRemainingRequests t1 clientIP requestsPerMinute decision.2)))
         "X-RateLimit-Reset" (GoInt.Itoa (Unix (t2 + Minute))))
      r
      {| limiter := decision.2; clock := clock s; reads := S (S (S (reads s)));
         outbound := outbound s |}.
Proof.
  intros clientIP t0 t1 t2 decision.
  unfold rateLimitMiddleware, timeNow.
  cbn [limiter clock reads outbound setLimiter fst snd].
  fold clientIP t0 t1 t2. fold decision. by destruct decision as [[] rl].
Qed.
End Pipeline.

Section Headers.
Lemma RespHeader_WriteHeader w code : RespHeader (WriteHeader w code) = RespHeader w.
Proof. unfold WriteHeader. by destruct (Status w). Qed.

Lemma Written_Error w text code :
  Written (GoHTTP.Error w text code) =
  Written w ++ [Text (text +:+ String (ascii_of_nat 10) EmptyString)].
Proof.
  unfold GoHTTP.Error, Write, WriteHeader. cbn [Status Written].
  by destruct (Status w).
Qed.

Lemma RespHeader_Write w chunk : RespHeader (Write w chunk) = RespHeader w.
Proof. unfold Write. simpl. apply RespHeader_WriteHeader. Qed.

(** Header names other than those a handler writes. *)
Lemma Get_sendErrorResponse w statusCode message key :
  CanonicalMIMEHeaderKey key ≠ CanonicalMIMEHeaderKey "Content-Type" →
  Get (RespHeader (sendErrorResponse w statusCode message)) key = Get (RespHeader w) key.
Proof.
  intros Hne. unfold sendErrorResponse.
  by rewrite RespHeader_Write, RespHeader_WriteHeader, Get_SetHeader_ne.
Qed.

Lemma Get_sendText w response key :
  CanonicalMIMEHeaderKey key ≠ CanonicalMIMEHeaderKey "Content-Type" →
  Get (RespHeader (sendText w response)) key = Get (RespHeader w) key.
Proof.
  intros Hne. unfold sendText.
  by rewrite RespHeader_Write, RespHeader_WriteHeader, Get_SetHeader_ne.
Qed.

Lemma corsHeaders_sendErrorResponse w statusCode message :
  corsHeaders w → corsHeaders (sendErrorResponse w statusCode message).
Proof.
  intros (Ho & Hm & Hh). unfold corsHeaders.
  by rewrite !Get_sendErrorResponse by (by vm_compute).
Qed.

Lemma corsHeaders_sendText w response : corsHeaders w → corsHeaders (sendText w response).
Proof.
  intros (Ho & Hm & Hh). unfold corsHeaders.
  by rewrite !Get_sendText by (by vm_compute).
Qed.

Lemma corsHeaders_SetHeader w key value :
  CanonicalMIMEHeaderKey key ∉
    [CanonicalMIMEHeaderKey "Access-Control-Allow-Origin";
     CanonicalMIMEHeaderKey "Access-Control-Allow-Methods";
     CanonicalMIMEHeaderKey "Access-Control-Allow-Headers"] →
  corsHeaders w → corsHeaders (SetHeader w key value).
Proof.
  intros Hne (Ho & Hm & Hh). unfold corsHeaders.
  rewrite !Get_SetHeader_ne; [done|..]; intros E; apply Hne; rewrite E; set_solver.
Qed.

Lemma corsHeaders_status w w' :
  RespHeader w' = RespHeader w → corsHeaders w → corsHeaders w'.
Proof. unfold corsHeaders. by intros ->. Qed.

Lemma corsHeaders_set w :
  corsHeaders (SetHeader (SetHeader (SetHeader w
     "Access-Control-Allow-Origin" "*")
     "Access-Control-Allow-Methods" "GET, POST, OPTIONS")
     "Access-Control-Allow-Headers" "Content-Type").
Proof.
  unfold corsHeaders. split_and!.
  - rewrite !Get_SetHeader_ne by (by vm_compute). apply Get_SetHeader_eq.
  - rewrite !Get_SetHeader_ne by (by vm_compute). apply Get_SetHeader_eq.
  - apply Get_SetHeader_eq.
Qed.

Lemma corsHeaders_Error w text code : corsHeaders w → corsHeaders (GoHTTP.Error w text code).
Proof.
  intros (Ho & Hm & Hh). unfold corsHeaders.
  by rewrite !Get_Error_ne by other_header.
Qed.

End Headers.

Section HandlersKeep.
Context (decode : Decode) (json : Unmarshal) (h : AIHandler).

Lemma keepsCors_HandleChatCompletion : keepsCors (HandleChatCompletion decode json h).
Proof.
  intros w r s Hw. unfold HandleChatCompletion.
  case_decide; [by apply corsHeaders_sendErrorResponse|].
  destruct (decodeChat decode (Body r)) as [req|]; [|by apply corsHeaders_sendErrorResponse].
  case_decide; [by apply corsHeaders_sendErrorResponse|].
  destruct (GetChatCompletion _ _ _ _ _) as [[aiResponse|err] calls]; simpl.
  - by apply corsHeaders_sendText.
  - by apply corsHeaders_sendErrorResponse.
Qed.

Lemma keepsCors_HandleComplete : keepsCors (HandleComplete decode json h).
Proof.
  intros w r s Hw. unfold HandleComplete.
  case_decide; [by apply corsHeaders_sendErrorResponse|].
  destruct (decodePrompt decode (Body r)) as [req|]; [|by apply corsHeaders_sendErrorResponse].
  case_decide; [by apply corsHeaders_sendErrorResponse|].
  destruct (GetComplete _ _ _ _ _) as [[aiResponse|err] calls]; simpl.
  - by apply corsHeaders_sendText.
  - by apply corsHeaders_sendErrorResponse.
Qed.

Lemma keepsCors_HandleGenerate : keepsCors (HandleGenerate decode json h).
Proof.
  intros w r s Hw. unfold HandleGenerate.
  case_decide; [by apply corsHeaders_sendErrorResponse|].
  destruct (decodePrompt decode (Body r)) as [req|]; [|by apply corsHeaders_sendErrorResponse].
  case_decide; [by apply corsHeaders_sendErrorResponse|].
  destruct (GetGenerate _ _ _ _ _) as [[aiResponse|err] calls]; simpl.
  - by apply corsHeaders_sendText.
  - by apply corsHeaders_sendErrorResponse.
Qed.

Lemma keepsCors_HandleHealth : keepsCors (HandleHealth h).
Proof.
  intros w r s Hw. unfold HandleHealth. simpl.
  eapply corsHeaders_status; [apply RespHeader_Write|].
  eapply corsHeaders_status; [apply RespHeader_WriteHeader|].
  apply corsHeaders_SetHeader; [|done].
  rewrite !not_elem_of_cons; split_and!; [by vm_compute.. | apply not_elem_of_nil].
Qed.

Lemma keepsCors_HandleModelInfo : keepsCors (HandleModelInfo json h).
Proof.
  intros w r s Hw. unfold HandleModelInfo.
  destruct (GetModelInfo _ _) as [[modelInfo|err] calls]; simpl.
  - eapply corsHeaders_status; [apply RespHeader_Write|].
    eapply corsHeaders_status; [apply RespHeader_WriteHeader|].
    apply corsHeaders_SetHeader; [|done].
    rewrite !not_elem_of_cons; split_and!; [by vm_compute.. | apply not_elem_of_nil].
  - by apply corsHeaders_sendErrorResponse.
Qed.

Lemma keepsCors_rootHandler : keepsCors rootHandler.
Proof.
  intros w r s Hw. unfold rootHandler.
  case_decide.
  - case_decide; simpl.
    + eapply corsHeaders_status; [apply RespHeader_WriteHeader|]. apply corsHeaders_set.
    + eapply corsHeaders_status; [apply RespHeader_Write|].
      eapply corsHeaders_status; [apply RespHeader_WriteHeader|].
      apply corsHeaders_SetHeader; [|apply corsHeaders_set].
      rewrite !not_elem_of_cons; split_and!; [by vm_compute.. | apply not_elem_of_nil].
  - destruct (HasPrefix _ _); simpl; [done|].
    apply corsHeaders_Error.
    destruct Hw as (Ho & Hm & Hh). unfold corsHeaders.
    rewrite Get_SetHeader_eq, !Get_SetHeader_ne by (by vm_compute). done.
Qed.

Lemma corsHeaders_protectedHandler handler rateLimit w r s :
  keepsCors handler → corsHeaders (protectedHandler handler rateLimit w r s).1.
Proof.
  intros Hkeeps. unfold protectedHandler, corsMiddleware.
  case_decide; simpl.
  - eapply corsHeaders_status; [apply RespHeader_WriteHeader|]. apply corsHeaders_set.
  - rewrite rateLimitMiddleware_unfold.
    destruct (negb _); simpl.
    + apply corsHeaders_Error, corsHeaders_set.
    + apply Hkeeps.
      repeat (apply corsHeaders_SetHeader;
              [rewrite !not_elem_of_cons; split_and!;
               [by vm_compute.. | apply not_elem_of_nil]|]).
      apply corsHeaders_set.
Qed.
End HandlersKeep.

(** X9. Every answer carries the CORS headers. On each route [main]
    registers behind the pipeline, the closure for "/" included, whatever
    the request, the writer and the state of the limiter and of the
    backend, the answer has Access-Control-Allow-Origin "*",
    Access-Control-Allow-Methods "GET, POST, OPTIONS" and
    Access-Control-Allow-Headers "Content-Type": on a preflight, on a 429,
    on an error of the handler and on a success alike. *)
Theorem every_answer_carries_cors_headers
    (decode : Decode) (json : Unmarshal) (aiHandler : AIHandler) :
  Forall (λ route : string * HandlerFunc, ∀ w r s, corsHeaders (route.2 w r s).1)
    (mainRoutes decode json aiHandler).
Proof.
  unfold mainRoutes, routes.
  repeat apply Forall_cons_2; [..|apply Forall_nil_2]; simpl; intros w r s;
    apply corsHeaders_protectedHandler.
  - apply keepsCors_HandleChatCompletion.
  - apply keepsCors_HandleComplete.
  - apply keepsCors_HandleGenerate.
  - apply keepsCors_HandleModelInfo.
  - apply keepsCors_HandleHealth.
  - apply keepsCors_rootHandler.
Qed.

Ltac in_list := repeat first [apply list_elem_of_here | apply list_elem_of_further].

Section Once.
Context (decode : Decode) (json : Unmarshal) (h : AIHandler).

Lemma GetGenerate_calls prompt n t :
  (length (GetGenerate json (aiService h) prompt n t).2 ≤ 1)%nat.
Proof.
  unfold GetGenerate, callLLMEndpoint. case_decide; [simpl; lia|].
  destruct (negb _); [simpl; lia|].
  match goal with
  | |- context [match ?x with inl _ => _ | inr _ => _ end] => by destruct x
  end.
Qed.

Lemma GetComplete_calls prompt n t :
  (length (GetComplete json (aiService h) prompt n t).2 ≤ 1)%nat.
Proof.
  unfold GetComplete. case_decide; [simpl; lia|].
  destruct (negb _); simpl; lia.
Qed.

Lemma GetChatCompletion_calls messages n t :
  (length (GetChatCompletion json (aiService h) messages n t).2 ≤ 1)%nat.
Proof.
  unfold GetChatCompletion, callLLMEndpointWithJSON. case_decide; [simpl; lia|].
  destruct (negb _); [simpl; lia|].
  match goal with
  | |- context [match ?x with inl _ => _ | inr _ => _ end] =>
      destruct x as [response|err]; [|done]
  end.
  destruct (response !! "content") as [[content|raw]|]; [done|..];
    by destruct (response !! "generated_text") as [[text|raw']|].
Qed.

Lemma GetModelInfo_calls : (length (GetModelInfo json (aiService h)).2 ≤ 1)%nat.
Proof. unfold GetModelInfo. simpl. lia. Qed.

Lemma answersOnce_error w s code message :
  Status w = None → code ∈ [400; 405] →
  answersOnce w s (sendErrorResponse w code message, s).
Proof.
  intros Hw Hcode. eexists code, _, []. cbn [fst snd]. split_and!.
  - by apply Status_sendErrorResponse.
  - apply elem_of_cons in Hcode as [->|Hcode%list_elem_of_singleton]; subst; in_list.
  - apply (Written_sendErrorResponse w code message).
  - by rewrite app_nil_r.
  - simpl. lia.
  - done.
Qed.

Lemma answersOnce_failure w s calls message :
  Status w = None → (length calls ≤ 1)%nat →
  answersOnce w s (sendErrorResponse w StatusInternalServerError message, sent calls s).
Proof.
  intros Hw Hcalls. eexists 500, _, calls. cbn [fst snd]. split_and!.
  - by apply Status_sendErrorResponse.
  - in_list.
  - apply (Written_sendErrorResponse w 500 message).
  - done.
  - done.
  - intros Hc. repeat (apply elem_of_cons in Hc as [Hc|Hc]; [done|]).
    by apply elem_of_nil in Hc.
Qed.

Lemma answersOnce_text w s calls response :
  Status w = None → (length calls ≤ 1)%nat →
  answersOnce w s (sendText w response, (timeNow (sent calls s)).2).
Proof.
  intros Hw Hcalls. eexists 200, (Json (EncText response)), calls. simpl. split_and!.
  - unfold sendText, Write, WriteHeader. simpl. by rewrite Hw.
  - in_list.
  - unfold sendText, Write, WriteHeader. simpl. by rewrite Hw.
  - done.
  - done.
  - intros Hc. repeat (apply elem_of_cons in Hc as [Hc|Hc]; [done|]).
    by apply elem_of_nil in Hc.
Qed.

Lemma answers_HandleChatCompletion : answers (HandleChatCompletion decode json h).
Proof.
  intros w r s Hw. unfold HandleChatCompletion.
  case_decide; [apply answersOnce_error; [done | in_list]|].
  destruct (decodeChat decode (Body r)) as [req|];
    [|apply answersOnce_error; [done | in_list]].
  case_decide; [apply answersOnce_error; [done | in_list]|].
  pose proof (GetChatCompletion_calls (Messages req)
    (if decide (ChatMaxTokens req = 0) then 150 else ChatMaxTokens req)
    (if PrimFloat.eqb (ChatTemperature req) 0 then 0x1.6666666666666p-1%float
     else ChatTemperature req)) as Hcalls.
  destruct (GetChatCompletion _ _ _ _ _) as [[aiResponse|err] calls]; simpl in Hcalls.
  - by apply answersOnce_text.
  - by apply answersOnce_failure.
Qed.

Lemma answers_HandleComplete : answers (HandleComplete decode json h).
Proof.
  intros w r s Hw. unfold HandleComplete.
  case_decide; [apply answersOnce_error; [done | in_list]|].
  destruct (decodePrompt decode (Body r)) as [req|];
    [|apply answersOnce_error; [done | in_list]].
  case_decide; [apply answersOnce_error; [done | in_list]|].
  pose proof (GetComplete_calls (Prompt req)
    (if decide (MaxTokens req = 0) then 150 else MaxTokens req)
    (if PrimFloat.eqb (Temperature req) 0 then 0x1.6666666666666p-1%float
     else Temperature req)) as Hcalls.
  destruct (GetComplete _ _ _ _ _) as [[aiResponse|err] calls]; simpl in Hcalls.
  - by apply answersOnce_text.
  - by apply answersOnce_failure.
Qed.

Lemma answers_HandleGenerate : answers (HandleGenerate decode json h).
Proof.
  intros w r s Hw. unfold HandleGenerate.
  case_decide; [apply answersOnce_error; [done | in_list]|].
  destruct (decodePrompt decode (Body r)) as [req|];
    [|apply answersOnce_error; [done | in_list]].
  case_decide; [apply answersOnce_error; [done | in_list]|].
  pose proof (GetGenerate_calls (Prompt req)
    (if decide (MaxTokens req = 0) then 150 else MaxTokens req)
    (if PrimFloat.eqb (Temperature req) 0 then 0x1.6666666666666p-1%float
     else Temperature req)) as Hcalls.
  destruct (GetGenerate _ _ _ _ _) as [[aiResponse|err] calls]; simpl in Hcalls.
  - by apply answersOnce_text.
  - by apply answersOnce_failure.
Qed.

Lemma answers_HandleHealth : answers (HandleHealth h).
Proof.
  intros w r s Hw. unfold HandleHealth. eexists 200, _, []. simpl. split_and!.
  - unfold Write, WriteHeader. simpl. by rewrite Hw.
  - in_list.
  - unfold Write, WriteHeader. simpl. by rewrite Hw.
  - by rewrite app_nil_r.
  - lia.
  - done.
Qed.

Lemma answers_HandleModelInfo : answers (HandleModelInfo json h).
Proof.
  intros w r s Hw. unfold HandleModelInfo.
  pose proof GetModelInfo_calls as Hcalls.
  destruct (GetModelInfo _ _) as [[modelInfo|err] calls]; simpl in Hcalls.
  - eexists 200, _, calls. simpl. split_and!.
    + unfold Write, WriteHeader. simpl. by rewrite Hw.
    + in_list.
    + unfold Write, WriteHeader. simpl. by rewrite Hw.
    + done.
    + done.
    + intros Hc. repeat (apply elem_of_cons in Hc as [Hc|Hc]; [done|]).
      by apply elem_of_nil in Hc.
  - by apply answersOnce_failure.
Qed.

End Once.

Section OnceRoot.
Lemma answersOnce_rootHandler w r s :
  Status w = None → Method r ≠ "OPTIONS" →
  URLPath r = "/" ∨ HasPrefix (URLPath r) "/swagger/" = false →
  answersOnce w s (rootHandler w r s).
Proof.
  intros Hw Hmethod Hpath. unfold rootHandler.
  case_decide as Hroot.
  - rewrite decide_False by done.
    eexists 200, _, []. cbn [fst snd]. split_and!.
    + unfold Write, WriteHeader. simpl. by rewrite Hw.
    + in_list.
    + unfold Write, WriteHeader. simpl. by rewrite Hw.
    + by rewrite app_nil_r.
    + simpl. lia.
    + done.
  - destruct Hpath as [? | ->]; [done|].
    eexists 404, _, []. cbn [fst snd]. split_and!.
    + unfold NotFound. by apply Status_Error.
    + in_list.
    + unfold NotFound. rewrite Written_Error. reflexivity.
    + by rewrite app_nil_r.
    + simpl. lia.
    + done.
Qed.
End OnceRoot.

Lemma answersOnce_pipeline handler rateLimit w r s :
  (∀ w' s', Status w' = None → answersOnce w' s' (handler w' r s')) →
  Status w = None → Method r ≠ "OPTIONS" →
  answersOnce w s (protectedHandler handler rateLimit w r s).
Proof.
  intros Hanswers Hw Hmethod.
  unfold protectedHandler, corsMiddleware.
  rewrite decide_False by done.
  rewrite rateLimitMiddleware_unfold.
  destruct (negb _); cbn [fst snd].
  - eexists 429, _, []. cbn [fst snd outbound]. split_and!.
    + by apply Status_Error.
    + in_list.
    + rewrite Written_Error. reflexivity.
    + by rewrite app_nil_r.
    + simpl. lia.
    + done.
  - match goal with
    | |- answersOnce _ _ (handler ?w' r ?s') =>
        destruct (Hanswers w' s' Hw)
          as (code & chunk & calls & H1 & H2 & H3 & H4 & H5 & H6)
    end.
    by exists code, chunk, calls.
Qed.

(** X10. Every request is answered once. On each route [main] registers
    behind the pipeline, a request for the route's path with a method other
    than OPTIONS, arriving on a writer without a status, gets exactly one
    status, out of 200, 400, 404, 405, 429 and 500, and exactly one piece
    of body; it makes the gateway send at most one request to the backend,
    and none when the status is 400, 404, 405 or 429. The same holds of
    the closure for "/" on any path that does not start with /swagger/. *)
Theorem every_request_is_answered_once
    (decode : Decode) (json : Unmarshal) (aiHandler : AIHandler) :
  Forall (λ route : string * HandlerFunc,
            ∀ w r s, Status w = None → Method r ≠ "OPTIONS" → URLPath r = route.1 →
                     answersOnce w s (route.2 w r s))
    (mainRoutes decode json aiHandler) ∧
  (∀ w r s, Status w = None → Method r ≠ "OPTIONS" →
            HasPrefix (URLPath r) "/swagger/" = false →
            answersOnce w s (protectedHandler rootHandler 100 w r s)).
Proof.
  split.
  - unfold mainRoutes, routes.
    repeat apply Forall_cons_2; [..|apply Forall_nil_2]; cbn [fst snd];
      intros w r s Hw Hmethod Hpath; (apply answersOnce_pipeline; [|done..]);
      intros w' s' Hw'.
    + by apply answers_HandleChatCompletion.
    + by apply answers_HandleComplete.
    + by apply answers_HandleGenerate.
    + by apply answers_HandleModelInfo.
    + by apply answers_HandleHealth.
    + apply answersOnce_rootHandler; [done | done | by left].
  - intros w r s Hw Hmethod Hpath. apply answersOnce_pipeline; [|done..].
    intros w' s' Hw'. apply answersOnce_rootHandler; [done | done | by right].
Qed.

Section Rejected.
Context (rateLimit : Z) (w : ResponseWriter) (r : Request) (s : World).
Context (Hfresh : Status w = None) (Hmethod : Method r ≠ "OPTIONS").
Context (Hadmitted :
  (isAllowed (clock s (reads s)) (getClientIP r) rateLimit (limiter s)).1 = true).

Lemma rejectedButCounted_protectedHandler handler code message :
  (∀ w' s', handler w' r s' = (sendErrorResponse w' code message, s')) →
  rejectedButCounted code message w r s (protectedHandler handler rateLimit w r s).
Proof.
  intros Hrejects. unfold protectedHandler, corsMiddleware.
  rewrite decide_False by done.
  rewrite rateLimitMiddleware_unfold, Hadmitted. cbn [negb].
  rewrite Hrejects. unfold rejectedButCounted. cbn [fst snd limiter outbound].
  split_and!.
  - by apply Status_sendErrorResponse.
  - by rewrite Written_sendErrorResponse.
  - done.
  - by rewrite isAllowed_window, Hadmitted.
Qed.
End Rejected.

(** X11. A request the handler rejects has been counted. The rate-limit
    stage runs before the handler looks at the request: when a request on
    the generate, complete or chat route is admitted and then rejected by
    the handler, for its method (405), for a body that does not decode
    (400) or for an empty prompt or message list (400), the answer is the
    error envelope with the handler's message, nothing was sent to the
    backend, and the identity's window holds the timestamp of the request,
    which counts against its quota like a served one. *)
Theorem rejected_requests_are_counted
    (decode : Decode) (json : Unmarshal) (h : AIHandler)
    (rateLimit : Z) (w : ResponseWriter) (r : Request) (s : World)
    (Hfresh : Status w = None)
    (Hmethod : Method r ≠ "OPTIONS")
    (Hadmitted :
       (isAllowed (clock s (reads s)) (getClientIP r) rateLimit (limiter s)).1 = true) :
  let generate := protectedHandler (HandleGenerate decode json h) rateLimit w r s in
  let complete := protectedHandler (HandleComplete decode json h) rateLimit w r s in
  let chat := protectedHandler (HandleChatCompletion decode json h) rateLimit w r s in
  (Method r ≠ "POST" →
     rejectedButCounted 405 "Method not allowed" w r s generate ∧
     rejectedButCounted 405 "Method not allowed" w r s complete ∧
     rejectedButCounted 405 "Method not allowed" w r s chat) ∧
  (Method r = "POST" → decodePrompt decode (Body r) = None →
     rejectedButCounted 400 "Invalid JSON format" w r s generate ∧
     rejectedButCounted 400 "Invalid JSON format" w r s complete) ∧
  (Method r = "POST" → decodeChat decode (Body r) = None →
     rejectedButCounted 400 "Invalid JSON format" w r s chat) ∧
  (Method r = "POST" →
     ∀ req, decodePrompt decode (Body r) = Some req → Prompt req = "" →
       rejectedButCounted 400 "Prompt cannot be empty" w r s generate ∧
       rejectedButCounted 400 "Prompt cannot be empty" w r s complete) ∧
  (Method r = "POST" →
     ∀ req, decodeChat decode (Body r) = Some req → Messages req = [] →
       rejectedButCounted 400 "Messages cannot be empty" w r s chat).
Proof.
  intros generate complete chat.
  split_and!.
  - intros Hpost.
    split_and!; (apply rejectedButCounted_protectedHandler; [done..|]); intros w' s';
      by destruct (post_routes_reject_other_methods decode json h w' r s' Hpost)
        as (? & ? & ?).
  - intros Hpost Hdec.
    split_and!; (apply rejectedButCounted_protectedHandler; [done..|]); intros w' s';
      unfold HandleGenerate, HandleComplete, MethodPost;
      rewrite decide_False by (by intros []); by rewrite Hdec.
  - intros Hpost Hdec.
    apply rejectedButCounted_protectedHandler; [done..|]. intros w' s'.
    unfold HandleChatCompletion, MethodPost.
    rewrite decide_False by (by intros []). by rewrite Hdec.
  - intros Hpost req Hdec Hempty.
    split_and!; (apply rejectedButCounted_protectedHandler; [done..|]); intros w' s';
      unfold HandleGenerate, HandleComplete, MethodPost;
      rewrite decide_False by (by intros []); rewrite Hdec; by rewrite decide_True.
  - intros Hpost req Hdec Hempty.
    apply rejectedButCounted_protectedHandler; [done..|]. intros w' s'.
    unfold HandleChatCompletion, MethodPost.
    rewrite decide_False by (by intros []). rewrite Hdec.
    rewrite decide_True; [done | by rewrite Hempty].
Qed.

Section Success.
Context (decode : Decode) (json : Unmarshal) (h : AIHandler).

Lemma GetGenerate_success req body reply :
  Prompt req ≠ "" → finite (Temperature req) = true →
  client (aiService h) (promptCall h "/generate" req) = Reply 200 body →
  unmarshalLLMResponse json body = inl reply → GeneratedText reply ≠ "" →
  GetGenerate json (aiService h) (Prompt req)
    (orDefaultTokens (MaxTokens req)) (orDefaultTemperature (Temperature req)) =
  (inl (GeneratedText reply), [promptCall h "/generate" req]).
Proof.
  intros Hprompt Hfin Hreply Hparse Htext. unfold GetGenerate, callLLMEndpoint.
  rewrite decide_False by done.
  fold (orDefaultTokens (orDefaultTokens (MaxTokens req))).
  fold (orDefaultTemperature (orDefaultTemperature (Temperature req))).
  rewrite orDefaultTokens_idem, orDefaultTemperature_idem.
  cbn [LLMTemperature TopP]. rewrite orDefaultTemperature_finite by done.
  assert (finite 0 = true) as -> by (vm_compute; reflexivity). cbn [negb andb].
  unfold promptCall in Hreply. rewrite Hreply.
  rewrite decide_False by (by intros []). rewrite Hparse.
  by rewrite decide_False.
Qed.

Lemma GetComplete_success req body object completion :
  Prompt req ≠ "" → finite (Temperature req) = true →
  client (aiService h) (promptCall h "/complete" req) = Reply 200 body →
  unmarshalObject json body = inl object →
  object !! "completion" = Some (JString completion) → completion ≠ "" →
  GetComplete json (aiService h) (Prompt req)
    (orDefaultTokens (MaxTokens req)) (orDefaultTemperature (Temperature req)) =
  (inl completion, [promptCall h "/complete" req]).
Proof.
  intros Hprompt Hfin Hreply Hparse Hfield Htext. unfold GetComplete.
  rewrite decide_False by done.
  fold (orDefaultTokens (orDefaultTokens (MaxTokens req))).
  fold (orDefaultTemperature (orDefaultTemperature (Temperature req))).
  rewrite orDefaultTokens_idem, orDefaultTemperature_idem.
  rewrite orDefaultTemperature_finite by done. cbn [negb].
  unfold promptCall in Hreply. rewrite Hreply.
  rewrite decide_False by (by intros []). rewrite Hparse, Hfield.
  by rewrite decide_True.
Qed.

(** The text [GetChatCompletion] takes from a decoded answer. *)
Lemma GetChatCompletion_success req body object :
  Messages req ≠ [] → finite (ChatTemperature req) = true →
  client (aiService h) (chatCall h req) = Reply 200 body →
  unmarshalObject json body = inl object →
  GetChatCompletion json (aiService h) (Messages req)
    (orDefaultTokens (ChatMaxTokens req)) (orDefaultTemperature (ChatTemperature req)) =
  (match object !! "content" with
   | Some (JString content) => inl (TrimSpace content)
   | _ => match object !! "generated_text" with
          | Some (JString generatedText) => inl (TrimSpace generatedText)
          | _ => inr "unexpected response format from LLM server"
          end
   end, [chatCall h req]).
Proof.
  intros Hmsgs Hfin Hreply Hparse. unfold GetChatCompletion, callLLMEndpointWithJSON.
  rewrite decide_False by (by destruct (Messages req)).
  rewrite orDefaultTemperature_finite by done. cbn [negb].
  unfold chatCall in Hreply. rewrite Hreply.
  rewrite decide_False by (by intros []). rewrite Hparse.
  destruct (object !! "content") as [[content|raw]|]; [done|..];
    by destruct (object !! "generated_text") as [[text|raw']|].
Qed.
End Success.

(** X12. What a successful answer carries. For a POST whose body decodes
    and has the required prompt or messages and a finite temperature, when
    the backend answers the handler's request with status 200 and a body
    that parses: the generate handler answers 200 with the backend's
    generated_text as it stands, provided it is not empty; the complete
    handler with the backend's completion member, provided it is a
    non-empty string; the chat handler with the content member when it is
    a string, and otherwise with a string generated_text member, white
    space trimmed in both cases. Each answer repeats the caller's user_id,
    names the model of the service and is stamped with the clock reading
    made after the backend's answer; one request went to the backend. *)
Theorem successful_answers_carry_backend_text
    (decode : Decode) (json : Unmarshal) (h : AIHandler)
    (w : ResponseWriter) (r : Request) (s : World)
    (Hpost : Method r = "POST") :
  (∀ req body reply,
     decodePrompt decode (Body r) = Some req → Prompt req ≠ "" →
     finite (Temperature req) = true →
     client (aiService h) (promptCall h "/generate" req) = Reply 200 body →
     unmarshalLLMResponse json body = inl reply → GeneratedText reply ≠ "" →
     HandleGenerate decode json h w r s =
     (textAnswer h w s (GeneratedText reply) (UserID req),
      afterCall (promptCall h "/generate" req) s)) ∧
  (∀ req body object completion,
     decodePrompt decode (Body r) = Some req → Prompt req ≠ "" →
     finite (Temperature req) = true →
     client (aiService h) (promptCall h "/complete" req) = Reply 200 body →
     unmarshalObject json body = inl object →
     object !! "completion" = Some (JString completion) → completion ≠ "" →
     HandleComplete decode json h w r s =
     (textAnswer h w s completion (UserID req),
      afterCall (promptCall h "/complete" req) s)) ∧
  (∀ req body object,
     decodeChat decode (Body r) = Some req → Messages req ≠ [] →
     finite (ChatTemperature req) = true →
     client (aiService h) (chatCall h req) = Reply 200 body →
     unmarshalObject json body = inl object →
     (∀ content, object !! "content" = Some (JString content) →
        HandleChatCompletion decode json h w r s =
        (textAnswer h w s (TrimSpace content) (ChatUserID req),
         afterCall (chatCall h req) s)) ∧
     (∀ generatedText,
        (∀ content, object !! "content" ≠ Some (JString content)) →
        object !! "generated_text" = Some (JString generatedText) →
        HandleChatCompletion decode json h w r s =
        (textAnswer h w s (TrimSpace generatedText) (ChatUserID req),
         afterCall (chatCall h req) s))).
Proof.
  split_and!.
  - intros req body reply Hdec Hprompt Hfin Hreply Hparse Htext.
    unfold HandleGenerate, MethodPost.
    rewrite decide_False by (by intros []). rewrite Hdec, decide_False by done.
    fold (orDefaultTokens (MaxTokens req)). fold (orDefaultTemperature (Temperature req)).
    by rewrite (GetGenerate_success json h req body reply).
  - intros req body object completion Hdec Hprompt Hfin Hreply Hparse Hfield Htext.
    unfold HandleComplete, MethodPost.
    rewrite decide_False by (by intros []). rewrite Hdec, decide_False by done.
    fold (orDefaultTokens (MaxTokens req)). fold (orDefaultTemperature (Temperature req)).
    by rewrite (GetComplete_success json h req body object completion).
  - intros req body object Hdec Hmsgs Hfin Hreply Hparse.
    assert (HandleChatCompletion decode json h w r s =
            match object !! "content" with
            | Some (JString content) =>
                (textAnswer h w s (TrimSpace content) (ChatUserID req),
                 afterCall (chatCall h req) s)
            | _ => match object !! "generated_text" with
                   | Some (JString generatedText) =>
                       (textAnswer h w s (TrimSpace generatedText) (ChatUserID req),
                        afterCall (chatCall h req) s)
                   | _ => (sendErrorResponse w StatusInternalServerError
                             "Failed to get chat completion", sent [chatCall h req] s)
                   end
            end) as Hout.
    { unfold HandleChatCompletion, MethodPost.
      rewrite decide_False by (by intros []).
      rewrite Hdec, decide_False by (by destruct (Messages req)).
      fold (orDefaultTokens (ChatMaxTokens req)).
      fold (orDefaultTemperature (ChatTemperature req)).
      rewrite (GetChatCompletion_success json h req body object) by done.
      destruct (object !! "content") as [[content|raw]|]; [done|..];
        by destruct (object !! "generated_text") as [[text|raw']|]. }
    split.
    + intros content Hcontent. by rewrite Hout, Hcontent.
    + intros generatedText Hnone Hfield. rewrite Hout, Hfield.
      destruct (object !! "content") as [[content|raw]|] eqn:E; [|done..].
      by destruct (Hnone content).
Qed.

(** X13. No success without the backend's 200. When one of the four
    service calls returns a result without error, it has sent exactly one
    request, which the backend answered with status 200; the text that
    [GetGenerate] and [GetComplete] return is then not empty, and the
    prompt or message list was not empty either. *)
Theorem success_requires_backend_ok (json : Unmarshal) (s : AIService) :
  (∀ prompt maxTokens temperature text,
     (GetGenerate json s prompt maxTokens temperature).1 = inl text →
     text ≠ "" ∧ prompt ≠ "" ∧
     ∃ call body, (GetGenerate json s prompt maxTokens temperature).2 = [call] ∧
                  client s call = Reply 200 body) ∧
  (∀ prompt maxTokens temperature text,
     (GetComplete json s prompt maxTokens temperature).1 = inl text →
     text ≠ "" ∧ prompt ≠ "" ∧
     ∃ call body, (GetComplete json s prompt maxTokens temperature).2 = [call] ∧
                  client s call = Reply 200 body) ∧
  (∀ messages maxTokens temperature text,
     (GetChatCompletion json s messages maxTokens temperature).1 = inl text →
     messages ≠ [] ∧
     ∃ call body, (GetChatCompletion json s messages maxTokens temperature).2 = [call] ∧
                  client s call = Reply 200 body) ∧
  (∀ modelInfo,
     (GetModelInfo json s).1 = inl modelInfo →
     ∃ call body, (GetModelInfo json s).2 = [call] ∧ client s call = Reply 200 body).
Proof.
  split_and!.
  - intros prompt maxTokens temperature text. unfold GetGenerate, callLLMEndpoint.
    destruct (decide (prompt = "")) as [Hprompt|Hprompt]; [(simpl; discriminate)|].
    destruct (negb _); [(simpl; discriminate)|].
    destruct (client s _) as [err|err|code body] eqn:Hreply; [(simpl; discriminate)..|].
    destruct (decide (code ≠ StatusOK)) as [Hcode|Hcode]; [(simpl; discriminate)|].
    destruct (unmarshalLLMResponse json body) as [reply|err]; [|(simpl; discriminate)].
    destruct (decide (GeneratedText reply = "")) as [Htext|Htext]; [(simpl; discriminate)|]. cbn [fst snd]. intros [= <-].
    split_and!; [done..|]. eexists _, body. split; [done|].
    rewrite Hreply. f_equal. unfold StatusOK in Hcode. lia.
  - intros prompt maxTokens temperature text. unfold GetComplete.
    destruct (decide (prompt = "")) as [Hprompt|Hprompt]; [(simpl; discriminate)|].
    destruct (negb _); [(simpl; discriminate)|].
    destruct (client s _) as [err|err|code body] eqn:Hreply; [(simpl; discriminate)..|].
    destruct (decide (code ≠ StatusOK)) as [Hcode|Hcode]; [(simpl; discriminate)|].
    destruct (unmarshalObject json body) as [object|err]; [|(simpl; discriminate)].
    destruct (object !! "completion") as [[completion|raw]|]; [|(simpl; discriminate)..].
    destruct (decide (completion ≠ "")) as [Htext|Htext]; [|(simpl; discriminate)]. cbn [fst snd]. intros [= <-].
    split_and!; [done..|]. eexists _, body. split; [done|].
    rewrite Hreply. f_equal. unfold StatusOK in Hcode. lia.
  - intros messages maxTokens temperature text.
    unfold GetChatCompletion, callLLMEndpointWithJSON.
    destruct (decide (length messages = 0%nat)) as [Hmsgs|Hmsgs]; [(simpl; discriminate)|].
    destruct (negb _); [(simpl; discriminate)|].
    destruct (client s _) as [err|err|code body] eqn:Hreply; [(simpl; discriminate)..|].
    destruct (decide (code ≠ StatusOK)) as [Hcode|Hcode]; [(simpl; discriminate)|].
    destruct (unmarshalObject json body) as [object|err]; [|(simpl; discriminate)].
    intros Hok. split; [by destruct messages|].
    eexists _, body. split.
    + destruct (object !! "content") as [[content|raw]|]; [done|..];
        by destruct (object !! "generated_text") as [[generatedText|raw']|].
    + rewrite Hreply. f_equal. unfold StatusOK in Hcode. lia.
  - intros modelInfo. unfold GetModelInfo.
    destruct (client s _) as [err|err|code body] eqn:Hreply; [(simpl; discriminate)..|].
    destruct (decide (code ≠ StatusOK)) as [Hcode|Hcode]; [(simpl; discriminate)|].
    intros _. eexists _, body. split; [done|].
    rewrite Hreply. f_equal. unfold StatusOK in Hcode. lia.
Qed.

Section Unusable.
Context (decode : Decode) (json : Unmarshal) (h : AIHandler).

Lemma HandleGenerate_error w r s req err calls :
  Status w = None → Method r = "POST" →
  decodePrompt decode (Body r) = Some req → Prompt req ≠ "" →
  GetGenerate json (aiService h) (Prompt req)
    (orDefaultTokens (MaxTokens req)) (orDefaultTemperature (Temperature req)) =
    (inr err, calls) →
  genericError w "Failed to get generation" (HandleGenerate decode json h w r s).1.
Proof.
  intros Hw Hpost Hdec Hprompt Hcall. unfold HandleGenerate, MethodPost.
  rewrite decide_False by (by intros []). rewrite Hdec, decide_False by done.
  fold (orDefaultTokens (MaxTokens req)). fold (orDefaultTemperature (Temperature req)).
  rewrite Hcall. by apply genericError_sendErrorResponse.
Qed.

Lemma HandleComplete_error w r s req err calls :
  Status w = None → Method r = "POST" →
  decodePrompt decode (Body r) = Some req → Prompt req ≠ "" →
  GetComplete json (aiService h) (Prompt req)
    (orDefaultTokens (MaxTokens req)) (orDefaultTemperature (Temperature req)) =
    (inr err, calls) →
  genericError w "Failed to get completion" (HandleComplete decode json h w r s).1.
Proof.
  intros Hw Hpost Hdec Hprompt Hcall. unfold HandleComplete, MethodPost.
  rewrite decide_False by (by intros []). rewrite Hdec, decide_False by done.
  fold (orDefaultTokens (MaxTokens req)). fold (orDefaultTemperature (Temperature req)).
  rewrite Hcall. by apply genericError_sendErrorResponse.
Qed.

Lemma HandleChatCompletion_error w r s req err calls :
  Status w = None → Method r = "POST" →
  decodeChat decode (Body r) = Some req → Messages req ≠ [] →
  GetChatCompletion json (aiService h) (Messages req)
    (orDefaultTokens (ChatMaxTokens req)) (orDefaultTemperature (ChatTemperature req)) =
    (inr err, calls) →
  genericError w "Failed to get chat completion"
    (HandleChatCompletion decode json h w r s).1.
Proof.
  intros Hw Hpost Hdec Hmsgs Hcall. unfold HandleChatCompletion, MethodPost.
  rewrite decide_False by (by intros []).
  rewrite Hdec, decide_False by (by destruct (Messages req)).
  fold (orDefaultTokens (ChatMaxTokens req)).
  fold (orDefaultTemperature (ChatTemperature req)).
  rewrite Hcall. by apply genericError_sendErrorResponse.
Qed.

(** The service calls on an answer with status 200, by what the body
    parses to. *)
Lemma GetGenerate_replied req body :
  Prompt req ≠ "" → finite (Temperature req) = true →
  client (aiService h) (promptCall h "/generate" req) = Reply 200 body →
  GetGenerate json (aiService h) (Prompt req)
    (orDefaultTokens (MaxTokens req)) (orDefaultTemperature (Temperature req)) =
  (match unmarshalLLMResponse json body with
   | inr err => inr (wrapError "generation failed"
                       (wrapError "failed to parse LLM response" err))
   | inl reply =>
       if decide (GeneratedText reply = "")
       then inr (wrapError "generation failed" "LLM server returned empty generated text")
       else inl (GeneratedText reply)
   end, [promptCall h "/generate" req]).
Proof.
  intros Hprompt Hfin Hreply. unfold GetGenerate, callLLMEndpoint.
  rewrite decide_False by done.
  fold (orDefaultTokens (orDefaultTokens (MaxTokens req))).
  fold (orDefaultTemperature (orDefaultTemperature (Temperature req))).
  rewrite orDefaultTokens_idem, orDefaultTemperature_idem.
  cbn [LLMTemperature TopP]. rewrite orDefaultTemperature_finite by done.
  assert (finite 0 = true) as -> by (vm_compute; reflexivity). cbn [negb andb].
  unfold promptCall in Hreply. rewrite Hreply.
  rewrite decide_False by (by intros []).
  destruct (unmarshalLLMResponse json body) as [reply|err]; [|done].
  by destruct (decide (GeneratedText reply = "")).
Qed.

Lemma GetComplete_replied req body :
  Prompt req ≠ "" → finite (Temperature req) = true →
  client (aiService h) (promptCall h "/complete" req) = Reply 200 body →
  GetComplete json (aiService h) (Prompt req)
    (orDefaultTokens (MaxTokens req)) (orDefaultTemperature (Temperature req)) =
  (match unmarshalObject json body with
   | inr err => inr (wrapError "failed to parse LLM response" err)
   | inl object =>
       match object !! "completion" with
       | Some (JString completion) =>
           if decide (completion ≠ "") then inl completion
           else inr "LLM server returned empty or invalid completion"
       | _ => inr "LLM server returned empty or invalid completion"
       end
   end, [promptCall h "/complete" req]).
Proof.
  intros Hprompt Hfin Hreply. unfold GetComplete.
  rewrite decide_False by done.
  fold (orDefaultTokens (orDefaultTokens (MaxTokens req))).
  fold (orDefaultTemperature (orDefaultTemperature (Temperature req))).
  rewrite orDefaultTokens_idem, orDefaultTemperature_idem.
  rewrite orDefaultTemperature_finite by done. cbn [negb].
  unfold promptCall in Hreply. rewrite Hreply.
  by rewrite decide_False by (by intros []).
Qed.

Lemma GetChatCompletion_replied req body :
  Messages req ≠ [] → finite (ChatTemperature req) = true →
  client (aiService h) (chatCall h req) = Reply 200 body →
  GetChatCompletion json (aiService h) (Messages req)
    (orDefaultTokens (ChatMaxTokens req)) (orDefaultTemperature (ChatTemperature req)) =
  (match unmarshalObject json body with
   | inr err => inr (wrapError "chat completion failed"
                       (wrapError "failed to parse LLM response" err))
   | inl object =>
       match object !! "content" with
       | Some (JString content) => inl (TrimSpace content)
       | _ => match object !! "generated_text" with
              | Some (JString generatedText) => inl (TrimSpace generatedText)
              | _ => inr "unexpected response format from LLM server"
              end
       end
   end, [chatCall h req]).
Proof.
  intros Hmsgs Hfin Hreply. unfold GetChatCompletion, callLLMEndpointWithJSON.
  rewrite decide_False by (by destruct (Messages req)).
  rewrite orDefaultTemperature_finite by done. cbn [negb].
  unfold chatCall in Hreply. rewrite Hreply.
  rewrite decide_False by (by intros []).
  destruct (unmarshalObject json body) as [object|err]; [|done].
  destruct (object !! "content") as [[content|raw]|]; [done|..];
    by destruct (object !! "generated_text") as [[text|raw']|].
Qed.
End Unusable.

(** X19. A 200 of the backend with an unusable body is a 500 of the
    gateway. For a POST whose body decodes and has the required prompt or
    messages and a finite temperature, when the backend answers with
    status 200: the generate handler answers 500 with its literal message
    if the body does not parse or its generated_text is empty; the
    complete handler if the body does not parse or has no non-empty string
    as completion; the chat handler if the body does not parse or has a
    string neither as content nor as generated_text; and the model-info
    handler if the body does not parse. A chat content of white space
    only is no error: the answer is 200 with an empty response text. *)
Theorem unusable_backend_answer_is_generic_500
    (decode : Decode) (json : Unmarshal) (h : AIHandler)
    (w : ResponseWriter) (r : Request) (s : World)
    (Hfresh : Status w = None) :
  (∀ req body,
     Method r = "POST" → decodePrompt decode (Body r) = Some req → Prompt req ≠ "" →
     finite (Temperature req) = true →
     client (aiService h) (promptCall h "/generate" req) = Reply 200 body →
     (∀ reply, unmarshalLLMResponse json body = inl reply → GeneratedText reply = "") →
     genericError w "Failed to get generation" (HandleGenerate decode json h w r s).1) ∧
  (∀ req body,
     Method r = "POST" → decodePrompt decode (Body r) = Some req → Prompt req ≠ "" →
     finite (Temperature req) = true →
     client (aiService h) (promptCall h "/complete" req) = Reply 200 body →
     (∀ object completion,
        unmarshalObject json body = inl object →
        object !! "completion" = Some (JString completion) → completion = "") →
     genericError w "Failed to get completion" (HandleComplete decode json h w r s).1) ∧
  (∀ req body,
     Method r = "POST" → decodeChat decode (Body r) = Some req → Messages req ≠ [] →
     finite (ChatTemperature req) = true →
     client (aiService h) (chatCall h req) = Reply 200 body →
     (∀ object text,
        unmarshalObject json body = inl object →
        object !! "content" ≠ Some (JString text) ∧
        object !! "generated_text" ≠ Some (JString text)) →
     genericError w "Failed to get chat completion"
       (HandleChatCompletion decode json h w r s).1) ∧
  (∀ body err,
     client (aiService h) (modelInfoCall h) = Reply 200 body →
     unmarshalObject json body = inr err →
     genericError w "Failed to get model information" (HandleModelInfo json h w r s).1) ∧
  (∀ req body object content,
     Method r = "POST" → decodeChat decode (Body r) = Some req → Messages req ≠ [] →
     finite (ChatTemperature req) = true →
     client (aiService h) (chatCall h req) = Reply 200 body →
     unmarshalObject json body = inl object →
     object !! "content" = Some (JString content) → blank content →
     (HandleChatCompletion decode json h w r s).1 =
       textAnswer h w s "" (ChatUserID req)).
Proof.
  split_and!.
  - intros req body Hpost Hdec Hprompt Hfin Hreply Hbody.
    pose proof (GetGenerate_replied json h req body Hprompt Hfin Hreply) as Hcall.
    destruct (unmarshalLLMResponse json body) as [reply|err].
    + rewrite decide_True in Hcall by (by apply Hbody).
      by eapply HandleGenerate_error.
    + by eapply HandleGenerate_error.
  - intros req body Hpost Hdec Hprompt Hfin Hreply Hbody.
    pose proof (GetComplete_replied json h req body Hprompt Hfin Hreply) as Hcall.
    destruct (unmarshalObject json body) as [object|err];
      [|by eapply HandleComplete_error].
    destruct (object !! "completion") as [[completion|raw]|] eqn:Hfield;
      [|by eapply HandleComplete_error..].
    rewrite decide_False in Hcall by (intros Hne; apply Hne; by eapply Hbody).
    by eapply HandleComplete_error.
  - intros req body Hpost Hdec Hmsgs Hfin Hreply Hbody.
    pose proof (GetChatCompletion_replied json h req body Hmsgs Hfin Hreply) as Hcall.
    destruct (unmarshalObject json body) as [object|err];
      [|by eapply HandleChatCompletion_error].
    destruct (object !! "content") as [[content|raw]|] eqn:Hcontent.
    + by destruct (Hbody object content eq_refl) as [Hno _].
    + destruct (object !! "generated_text") as [[text|raw']|] eqn:Htext;
        [|by eapply HandleChatCompletion_error..].
      by destruct (Hbody object text eq_refl) as [_ Hno].
    + destruct (object !! "generated_text") as [[text|raw']|] eqn:Htext;
        [|by eapply HandleChatCompletion_error..].
      by destruct (Hbody object text eq_refl) as [_ Hno].
  - intros body err Hreply Hparse. unfold HandleModelInfo, GetModelInfo.
    unfold modelInfoCall in Hreply. rewrite Hreply.
    rewrite decide_False by (by intros []). rewrite Hparse.
    by apply genericError_sendErrorResponse.
  - intros req body object content Hpost Hdec Hmsgs Hfin Hreply Hparse Hcontent Hblank.
    unfold HandleChatCompletion, MethodPost.
    rewrite decide_False by (by intros []).
    rewrite Hdec, decide_False by (by destruct (Messages req)).
    fold (orDefaultTokens (ChatMaxTokens req)).
    fold (orDefaultTemperature (ChatTemperature req)).
    rewrite (GetChatCompletion_replied json h req body) by done.
    rewrite Hparse, Hcontent.
    assert (TrimSpace content = "") as ->
      by (apply (TrimSpace_padded "" "" content); [constructor | done | constructor]).
    done.
Qed.

(** X14. The answer of the rate-limit stage to a request over quota, on a
    new writer, through the pipeline: status 429; the body is the JSON text
    of the source followed by a line feed, while Content-Type says
    text/plain; charset=utf-8 and X-Content-Type-Options nosniff, as
    [http.Error] sets them; X-RateLimit-Limit is the quota and the CORS
    headers are there; the handler did not run: nothing went to the
    backend, and the clock was read twice. *)
Theorem limiter_answers_in_plain_text
    (requestsPerMinute : Z) (handler : HandlerFunc) (r : Request) (s : World)
    (Hmethod : Method r ≠ "OPTIONS")
    (Hdenied : (isAllowed (clock s (reads s)) (getClientIP r) requestsPerMinute
                  (limiter s)).1 = false) :
  let out := protectedHandler handler requestsPerMinute newWriter r s in
  Status out.1 = Some 429 ∧
  Written out.1 = [Text (rateLimitBody +:+ String (ascii_of_nat 10) EmptyString)] ∧
  Get (RespHeader out.1) "Content-Type" = "text/plain; charset=utf-8" ∧
  Get (RespHeader out.1) "X-Content-Type-Options" = "nosniff" ∧
  Get (RespHeader out.1) "X-RateLimit-Limit" = GoInt.Itoa requestsPerMinute ∧
  corsHeaders out.1 ∧
  outbound out.2 = outbound s ∧
  reads out.2 = S (S (reads s)).
Proof.
  intros out. unfold out, protectedHandler, corsMiddleware.
  rewrite decide_False by done.
  rewrite rateLimitMiddleware_unfold, Hdenied. cbn [negb fst snd outbound reads].
  by split_and!.
Qed.

(** X15. The answers of the closure for "/", through the pipeline, to an
    admitted request with a method other than OPTIONS on a new writer: on
    the path "/" itself, status 200 and the text describing the service as
    JSON; on any other path that does not start with /swagger/, status 404
    with the text of [http.NotFound]; on a path that starts with /swagger/
    nothing is written. In each case X-RateLimit-Limit is 100, nothing goes
    to the backend, and the limiter has counted the request. *)
Theorem root_route_answers
    (r : Request) (s : World)
    (Hmethod : Method r ≠ "OPTIONS")
    (Hadmitted : (isAllowed (clock s (reads s)) (getClientIP r) 100 (limiter s)).1 = true) :
  let out := protectedHandler rootHandler 100 newWriter r s in
  (URLPath r = "/" →
     Status out.1 = Some 200 ∧ Written out.1 = [Text apiInformation] ∧
     Get (RespHeader out.1) "Content-Type" = "application/json") ∧
  (URLPath r ≠ "/" → HasPrefix (URLPath r) "/swagger/" = false →
     Status out.1 = Some 404 ∧
     Written out.1 =
       [Text ("404 page not found" +:+ String (ascii_of_nat 10) EmptyString)] ∧
     Get (RespHeader out.1) "Content-Type" = "text/plain; charset=utf-8") ∧
  (URLPath r ≠ "/" → HasPrefix (URLPath r) "/swagger/" = true →
     Status out.1 = None ∧ Written out.1 = []) ∧
  Get (RespHeader out.1) "X-RateLimit-Limit" = "100" ∧
  outbound out.2 = outbound s ∧
  limiter out.2 =
    (isAllowed (clock s (reads s)) (getClientIP r) 100 (limiter s)).2.
Proof.
  intros out. unfold out, protectedHandler, corsMiddleware.
  rewrite decide_False by done.
  rewrite rateLimitMiddleware_unfold, Hadmitted. cbn [negb].
  unfold rootHandler. split_and!.
  - intros ->. rewrite decide_True by done. rewrite decide_False by done. by split_and!.
  - intros Hpath Hprefix. rewrite decide_False by done. rewrite Hprefix. by split_and!.
  - intros Hpath Hprefix. rewrite decide_False by done. rewrite Hprefix. by split_and!.
  - destruct (decide (URLPath r = "/")); [by rewrite decide_False by done|].
    by destruct (HasPrefix _ _).
  - destruct (decide (URLPath r = "/")); [by rewrite decide_False by done|].
    by destruct (HasPrefix _ _).
  - destruct (decide (URLPath r = "/")); [by rewrite decide_False by done|].
    by destruct (HasPrefix _ _).
Qed.

(** ** The text of a chat answer *)

Section Idempotent.
Lemma isPrefix_take p : ∀ l k, isPrefix p (take k l) = true → isPrefix p l = true.
Proof.
  induction p as [|a p IH]; intros l k; [done|].
  destruct l as [|b l]; [by rewrite take_nil|].
  destruct k as [|k]; [done|]. simpl.
  case_decide; [apply IH | done].
Qed.

Lemma stripRune_take runes l k : stripRune runes l = None → stripRune runes (take k l) = None.
Proof.
  induction runes as [|p runes IH]; [done|]. simpl.
  destruct (isPrefix p l) eqn:E; [done|]. intros Hnone.
  destruct (isPrefix p (take k l)) eqn:E'; [|by apply IH].
  apply isPrefix_take in E'. congruence.
Qed.

Lemma stripRune_shorter runes l l' :
  Forall (λ p, p ≠ []) runes → stripRune runes l = Some l' → (length l' < length l)%nat.
Proof.
  induction 1 as [|p runes Hp _ IH]; [done|]. simpl.
  destruct (isPrefix p l) eqn:E; [|done]. intros [= <-].
  destruct p as [|a p]; [done|]. destruct l as [|b l]; [done|].
  rewrite length_drop. simpl. lia.
Qed.

Lemma stripRune_suffix runes l l' : stripRune runes l = Some l' → ∃ k, l' = drop k l.
Proof.
  induction runes as [|p runes IH]; [done|]. simpl.
  destruct (isPrefix p l); [|done]. intros [= <-]. eauto.
Qed.

(** With fuel for every byte, stripping goes on until no rune is left to
    strip. *)
Lemma trimLeftFuel_done runes : Forall (λ p, p ≠ []) runes →
  ∀ fuel l, (length l ≤ fuel)%nat → stripRune runes (trimLeftFuel runes fuel l) = None.
Proof.
  intros Hne fuel. induction fuel as [|fuel IH]; intros l Hlen; simpl.
  - destruct l; [|simpl in Hlen; lia]. by apply stripRune_nil.
  - destruct (stripRune runes l) as [l'|] eqn:E; [|done].
    apply IH. apply (stripRune_shorter runes l l' Hne) in E. lia.
Qed.

Lemma trimLeftFuel_suffix runes : ∀ fuel l, ∃ k, trimLeftFuel runes fuel l = drop k l.
Proof.
  induction fuel as [|fuel IH]; intros l; simpl; [by exists 0%nat|].
  destruct (stripRune runes l) as [l'|] eqn:E; [|by exists 0%nat].
  apply stripRune_suffix in E as [k ->].
  destruct (IH (drop k l)) as [k' ->]. exists (k + k')%nat. by rewrite drop_drop.
Qed.

Lemma trimLeftFuel_fixed runes fuel l :
  stripRune runes l = None → trimLeftFuel runes fuel l = l.
Proof. intros Hnone. destruct fuel; simpl; [done|]. by rewrite Hnone. Qed.

Lemma trimLeft_done l : stripRune spaceRunes (trimLeft l) = None.
Proof. apply trimLeftFuel_done; [apply spaceRunes_nonempty | done]. Qed.

Lemma trimRight_prefix l : ∃ k, trimRight l = take k l.
Proof.
  unfold trimRight.
  destruct (trimLeftFuel_suffix (reverse <$> spaceRunes) (length l) (reverse l)) as [k ->].
  exists (length l - k)%nat.
  by rewrite drop_reverse, reverse_involutive.
Qed.

Lemma trimRight_done l :
  stripRune (reverse <$> spaceRunes) (reverse (trimRight l)) = None.
Proof.
  unfold trimRight. rewrite reverse_involutive.
  apply trimLeftFuel_done; [apply spaceRunes_reverse_nonempty|].
  by rewrite length_reverse.
Qed.

Lemma trim_idempotent l :
  trimRight (trimLeft (trimRight (trimLeft l))) = trimRight (trimLeft l).
Proof.
  assert (trimLeft (trimRight (trimLeft l)) = trimRight (trimLeft l)) as ->.
  { unfold trimLeft at 1. apply trimLeftFuel_fixed.
    destruct (trimRight_prefix (trimLeft l)) as [k ->].
    apply stripRune_take, trimLeft_done. }
  unfold trimRight at 1. rewrite trimLeftFuel_fixed by apply trimRight_done.
  apply reverse_involutive.
Qed.

Lemma TrimSpace_idempotent s : TrimSpace (TrimSpace s) = TrimSpace s.
Proof.
  unfold TrimSpace. rewrite list_ascii_of_string_of_list_ascii.
  by rewrite trim_idempotent.
Qed.
End Idempotent.

Section Edges.
Lemma stripRune_None_inv runes l :
  stripRune runes l = None → Forall (λ p, isPrefix p l = false) runes.
Proof.
  induction runes as [|p runes IH]; [constructor|]. simpl.
  destruct (isPrefix p l) eqn:E; [done|]. intros Hnone. constructor; [done | by apply IH].
Qed.

(** What [TrimSpace] returns neither starts nor ends with white space. *)
Lemma TrimSpace_edges s :
  Forall (λ rune, isPrefix rune (list_ascii_of_string (TrimSpace s)) = false) spaceRunes ∧
  Forall (λ rune, isPrefix (reverse rune)
                    (reverse (list_ascii_of_string (TrimSpace s))) = false) spaceRunes.
Proof.
  unfold TrimSpace. rewrite list_ascii_of_string_of_list_ascii. split.
  - apply stripRune_None_inv.
    destruct (trimRight_prefix (trimLeft (list_ascii_of_string s))) as [k ->].
    apply stripRune_take, trimLeft_done.
  - pose proof (stripRune_None_inv _ _ (trimRight_done (trimLeft (list_ascii_of_string s))))
      as Hend.
    by rewrite Forall_fmap in Hend.
Qed.
End Edges.

(** X16. The text of a chat completion is trimmed. Whatever
    [GetChatCompletion] returns without error is a fixed point of
    [strings.TrimSpace]: it neither starts nor ends with a white-space
    character, ASCII or not. *)
Theorem chat_text_is_trimmed
    (json : Unmarshal) (s : AIService) (messages : list ChatMessage)
    (maxTokens : Z) (temperature : float) (text : string)
    (Hok : (GetChatCompletion json s messages maxTokens temperature).1 = inl text) :
  TrimSpace text = text ∧
  Forall (λ rune, isPrefix rune (list_ascii_of_string text) = false) spaceRunes ∧
  Forall (λ rune, isPrefix (reverse rune) (reverse (list_ascii_of_string text)) = false)
    spaceRunes.
Proof.
  assert (∃ raw, text = TrimSpace raw) as [raw ->].
  { revert Hok. unfold GetChatCompletion.
    destruct (decide (length messages = 0%nat)); [simpl; discriminate|].
    destruct (callLLMEndpointWithJSON _ _ _ _ _ _) as [[response|err] calls];
      [|simpl; discriminate].
    destruct (response !! "content") as [[content|other]|].
    - simpl. intros [= <-]. by exists content.
    - destruct (response !! "generated_text") as [[generatedText|other']|];
        [|simpl; discriminate..].
      simpl. intros [= <-]. by exists generatedText.
    - destruct (response !! "generated_text") as [[generatedText|other']|];
        [|simpl; discriminate..].
      simpl. intros [= <-]. by exists generatedText. }
  split; [apply TrimSpace_idempotent | apply TrimSpace_edges].
Qed.

(** ** Goroutines of any identities *)

Ltac by_pc :=
  unfold admitted, denied, observed, outcome, reading, inCritical, holdsClient, locals,
    at_, write;
  simpl; repeat match goal with H : pc _ = _ |- _ => rewrite H end; try done.

Section Locks.
Lemma MapMutexInvariant_launch calls rl : MapMutexInvariant (launch calls rl).
Proof.
  split; simpl.
  - intros i g Hg. apply list_lookup_fmap_Some in Hg as (call & -> & _). done.
  - done.
Qed.

Lemma ClientMutexInvariant_launch calls rl : ClientMutexInvariant (launch calls rl).
Proof.
  split; simpl.
  - intros i g Hg. apply list_lookup_fmap_Some in Hg as (call & -> & _). done.
  - intros k i. by rewrite lookup_empty.
Qed.

(** A point that leaves [rateLimiter.mutex] alone and the goroutine
    inside the critical section. *)
Lemma MapMutexInvariant_frame c i g p m :
  MapMutexInvariant c → goroutines c !! i = Some g →
  mapMutex m = mapMutex (shared c) → inCritical (at_ g p) = inCritical g →
  MapMutexInvariant {| shared := m; goroutines := <[i := at_ g p]> (goroutines c) |}.
Proof.
  intros [Hholder Hexists] Hg Hm Hp. split; simpl; rewrite Hm.
  - intros j gj Hj. at_lookup Hj; [rewrite Hp|]; by apply Hholder.
  - intros j Hj. by apply is_Some_insert, Hexists.
Qed.

Lemma MapMutexInvariant_step i now c c' :
  MapMutexInvariant c → step i now c = Some c' → MapMutexInvariant c'.
Proof.
  intros Hinv Hstep.
  pose proof (others_outside i now c c' (mm_holder _ Hinv) Hstep) as Hout.
  apply step_inv in Hstep as (g & g' & m' & Hg & Hp & ->).
  pose proof (mm_holder _ Hinv i g Hg) as Hi.
  unfold perform in Hp.
  destruct (pc g) eqn:Hpc; simplify_eq;
    try (apply MapMutexInvariant_frame; try done; by by_pc).
  - destruct (mapMutex (shared c)) eqn:Hmap; simplify_eq.
    destruct Hinv as [Hholder Hexists]. split; simpl.
    + intros j gj Hj. at_lookup Hj; [by by_pc|].
      rewrite (Hout j gj) by done. split; [done | by intros [=]].
    + intros j [= <-]. by apply is_Some_insert.
  - destruct (clients _ !! _); simplify_eq;
      apply MapMutexInvariant_frame; try done; by by_pc.
  - destruct (clientMutex (shared c) !! clientIP g); simplify_eq.
    apply MapMutexInvariant_frame; try done; by by_pc.
  - destruct (_ >=? _); simplify_eq;
      apply MapMutexInvariant_frame; try done; by by_pc.
  - split; simpl; [|done].
    intros j gj Hj. at_lookup Hj; [by by_pc|].
    split; [|done]. intros Hcrit. by rewrite (Hout j gj) in Hcrit.
Qed.
End Locks.

Section ClientLocks.
Lemma ClientMutexInvariant_step i now c c' :
  ClientMutexInvariant c → step i now c = Some c' → ClientMutexInvariant c'.
Proof.
  intros [Hholder Hexists] (g & g' & m' & Hg & Hp & ->)%step_inv.
  assert (∀ p m, clientMutex m = clientMutex (shared c) →
            holdsClient (at_ g p) = holdsClient g →
            ClientMutexInvariant
              {| shared := m; goroutines := <[i := at_ g p]> (goroutines c) |}) as Hsame.
  { intros p m Hm Hp'. split; simpl; rewrite Hm.
    - intros j gj Hj Hhold. at_lookup Hj.
      + simpl. apply Hholder; [done|]. by rewrite <- Hp'.
      + by apply Hholder.
    - intros k j Hk. destruct (Hexists k j Hk) as (gj & Hj & Hip & Hhold).
      destruct (decide (j = i)) as [->|Hne].
      + exists (at_ g p). rewrite list_lookup_insert_eq by (by eapply lookup_lt_Some).
        simplify_eq. by rewrite Hp'.
      + exists gj. by rewrite list_lookup_insert_ne. }
  unfold perform in Hp.
  destruct (pc g) eqn:Hpc; simplify_eq; try (apply Hsame; by by_pc).
  - destruct (mapMutex (shared c)); simplify_eq. apply Hsame; by by_pc.
  - destruct (clients _ !! _); simplify_eq; apply Hsame; by by_pc.
  - destruct (clientMutex (shared c) !! clientIP g) eqn:Hcm; simplify_eq.
    split; simpl.
    + intros j gj Hj Hhold. at_lookup Hj.
      * simpl. by rewrite lookup_insert_eq.
      * pose proof (Hholder j gj Hj Hhold) as Hgj.
        rewrite lookup_insert_ne; [done|]. intros E. rewrite E in Hcm. congruence.
    + intros k j Hk. destruct (decide (k = clientIP g)) as [->|Hk'].
      * rewrite lookup_insert_eq in Hk. simplify_eq.
        exists (at_ g AtNow). by rewrite list_lookup_insert_eq by (by eapply lookup_lt_Some).
      * rewrite lookup_insert_ne in Hk by done.
        destruct (Hexists k j Hk) as (gj & Hj & Hip & Hhold).
        destruct (decide (j = i)) as [->|Hne].
        -- simplify_eq; by by_pc.
        -- exists gj. by rewrite list_lookup_insert_ne.
  - destruct (_ >=? _); simplify_eq; apply Hsame; by by_pc.
  - assert (clientMutex (shared c) !! clientIP g = Some i) as Hmine
      by (apply Hholder; [done | by by_pc]).
    split; simpl.
    + intros j gj Hj Hhold. at_lookup Hj; try (by by_pc).
      pose proof (Hholder j gj Hj Hhold) as Hgj.
      rewrite lookup_delete_ne; [done|]. intros E. rewrite E in Hmine. congruence.
    + intros k j Hk. destruct (decide (k = clientIP g)) as [->|Hk'].
      * by rewrite lookup_delete_eq in Hk.
      * rewrite lookup_delete_ne in Hk by done.
        destruct (Hexists k j Hk) as (gj & Hj & Hip & Hhold).
        destruct (decide (j = i)) as [->|Hne].
        -- simplify_eq; by by_pc.
        -- exists gj. by rewrite list_lookup_insert_ne.
Qed.
End ClientLocks.

(** The clock reading that travels with a point is the one the goroutine
    made. *)
Ltac clock :=
  unfold reading; simpl; intros ? [= <-];
  first [ assumption | match goal with H : ∀ now, _ → (_, now) ∈ _ |- _ => by apply H end ].

Section Serial.
Context (rl : RateLimiter) (steps : list (nat * Time)).

Lemma serveAll_length arrivals : ∀ rl0,
  length (serveAll arrivals rl0).1 = length arrivals.
Proof.
  induction arrivals as [|a rest IH]; intros rl0; [done|]. simpl.
  destruct (isAllowed _ _ _ _) as [ok rl1]. specialize (IH rl1).
  destruct (serveAll rest rl1) as [oks rl2]. simpl in *. by rewrite IH.
Qed.

Lemma serveAll_snoc arrivals a : ∀ rl0,
  serveAll (arrivals ++ [a]) rl0 =
  let served := serveAll arrivals rl0 in
  let call := isAllowed (instant a) (identity a) (quota a) served.2 in
  (served.1 ++ [call.1], call.2).
Proof.
  induction arrivals as [|b rest IH]; intros rl0; cbn [serveAll app fst snd].
  - by destruct (isAllowed _ _ _ _).
  - destruct (isAllowed (instant b) _ _ _) as [ok rl1]. rewrite IH.
    destruct (serveAll rest rl1) as [oks rl2]. cbn [fst snd].
    by destruct (isAllowed (instant a) _ _ _).
Qed.

Lemma Serialized_launch calls : Serialized rl steps (launch calls rl) [].
Proof.
  split; simpl.
  - constructor.
  - intros i g Hg. apply list_lookup_fmap_Some in Hg as (call & -> & _).
    by intros [? ?].
  - intros i g now Hg. by apply list_lookup_fmap_Some in Hg as (call & -> & _).
  - intros i g Hg. by apply list_lookup_fmap_Some in Hg as (call & -> & _).
  - done.
  - done.
Qed.

(** A point that neither decides nor changes what the goroutine has
    decided keeps the order. *)
Lemma Serialized_frame c order i g p m :
  Serialized rl steps c order →
  (∀ j gj, j ≠ i → goroutines c !! j = Some gj → inCritical gj = false) →
  goroutines c !! i = Some g →
  outcome (at_ g p) = outcome g →
  (∀ now, reading (at_ g p) = Some now → (i, now) ∈ steps) →
  locals (at_ g p) (store m) →
  match mapMutex m with
  | Some j => ∃ gj, <[i := at_ g p]> (goroutines c) !! j = Some gj ∧
                    store m = stage gj (serveAll order.*2 rl).2
  | None => store m = (serveAll order.*2 rl).2
  end →
  Serialized rl steps {| shared := m; goroutines := <[i := at_ g p]> (goroutines c) |} order.
Proof.
  intros [Hnodup Hdecided Hclock Hlocals Hcalls Hstore] Hout Hg Hdec Hp Hloc Hm.
  split; simpl.
  - done.
  - intros j gj Hj Hsome. at_lookup Hj.
    + apply (Hdecided i g Hg). by rewrite <- Hdec.
    + by apply (Hdecided j gj).
  - intros j gj now Hj Hpc. at_lookup Hj.
    + by apply Hp.
    + by apply (Hclock j gj).
  - intros j gj Hj. at_lookup Hj; [done|]. apply outside_locals. by eapply Hout.
  - intros k j a Hk. destruct (Hcalls k j a Hk) as (Ht & gj & Hj & Hid & Hq & Hsome & Hok).
    split; [done|].
    destruct (decide (j = i)) as [->|Hne].
    + exists (at_ g p). rewrite list_lookup_insert_eq by (by eapply lookup_lt_Some).
      simplify_eq. by rewrite Hdec.
    + exists gj. by rewrite list_lookup_insert_ne.
  - done.
Qed.

(** The point that decides puts the call at the end of the order. *)
Lemma Serialized_decide c order i g t ok n m :
  MapMutexInvariant c → Serialized rl steps c order →
  (∀ j gj, j ≠ i → goroutines c !! j = Some gj → inCritical gj = false) →
  goroutines c !! i = Some g → reading g = Some t → inCritical g = true →
  mapMutex m = mapMutex (shared c) →
  isAllowed t (clientIP g) (limit g) (serveAll order.*2 rl).2 = (ok, store m) →
  Serialized rl steps
    {| shared := m; goroutines := <[i := at_ g (AtUnlockClient ok n)]> (goroutines c) |}
    (order ++ [(i, arrival g t)]).
Proof.
  intros [Hholder Hexists] [Hnodup Hdecided Hclock Hlocals Hcalls Hstore] Hout Hg Hread Hcrit
    Hm Hcall.
  assert (outcome g = None) as Hnone.
  { unfold reading in Hread. unfold outcome. by destruct (pc g). }
  assert (i ∉ order.*1) as Hfresh.
  { intros ([j a] & -> & [k Hk]%list_elem_of_lookup)%list_elem_of_fmap.
    destruct (Hcalls k j a Hk) as (_ & gj & Hj & _ & _ & [ok' Hsome] & _).
    simpl in *. simplify_eq. }
  assert (<[i := at_ g (AtUnlockClient ok n)]> (goroutines c) !! i =
          Some (at_ g (AtUnlockClient ok n))) as Hat
    by (apply list_lookup_insert_eq; by eapply lookup_lt_Some).
  assert ((order ++ [(i, arrival g t)]).*2 = order.*2 ++ [arrival g t]) as Harr
    by (by rewrite fmap_app).
  pose proof (serveAll_length order.*2 rl) as Hlen. rewrite length_fmap in Hlen.
  split; simpl.
  - rewrite fmap_app. simpl. apply NoDup_app. split_and!; [done| |apply NoDup_singleton].
    intros j Hj ->%list_elem_of_singleton. done.
  - intros j gj Hj Hsome. rewrite fmap_app. apply elem_of_app.
    at_lookup Hj; [right; by left|]. left. by apply (Hdecided j gj).
  - intros j gj now Hj Hpc'. at_lookup Hj; try done. by apply (Hclock j gj).
  - intros j gj Hj. at_lookup Hj; [done|]. apply outside_locals. by eapply Hout.
  - intros k j a Hk. rewrite Harr, serveAll_snoc. cbn [fst snd instant identity quota arrival].
    rewrite Hcall. cbn [fst].
    apply lookup_app_Some in Hk as [Hk|[Hge Hk]].
    + destruct (Hcalls k j a Hk) as (Ht & gj & Hj & Hid & Hq & Hsome & Hok).
      split; [done|]. exists gj.
      assert (j ≠ i) as Hne.
      { intros ->. apply Hfresh. apply list_elem_of_fmap. exists (i, a).
        split; [done|]. by eapply list_elem_of_lookup_2. }
      rewrite list_lookup_insert_ne by done. split_and!; try done.
      rewrite lookup_app_l; [done|]. rewrite Hlen. by eapply lookup_lt_Some.
    + apply list_lookup_singleton_Some in Hk as [Hk [= <- <-]].
      split; [simpl; by apply (Hclock i g)|].
      exists (at_ g (AtUnlockClient ok n)). rewrite Hat. split_and!; try done.
      replace k with (length (serveAll order.*2 rl).1) by lia.
      by rewrite list_lookup_middle.
  - rewrite Harr, serveAll_snoc. cbn [fst snd instant identity quota arrival].
    rewrite Hcall. cbn [snd].
    rewrite Hm, (proj1 (Hholder i g Hg)) by done.
    exists (at_ g (AtUnlockClient ok n)). by rewrite Hat.
Qed.

Lemma Serialized_step i now c c' order :
  (i, now) ∈ steps →
  MapMutexInvariant c → Serialized rl steps c order → step i now c = Some c' →
  ∃ order', Serialized rl steps c' order'.
Proof.
  intros Hnow Hmap Hser Hstep.
  pose proof (others_outside i now c c' (mm_holder _ Hmap) Hstep) as Hout.
  apply step_inv in Hstep as (g & g' & m' & Hg & Hp & ->).
  pose proof (mm_holder _ Hmap i g Hg) as Hi.
  pose proof (ser_store _ _ _ _ Hser) as Hstore.
  pose proof (ser_locals _ _ _ _ Hser i g Hg) as Hloc.
  pose proof (λ now, ser_clock _ _ _ _ Hser i g now Hg) as Hread.
  assert (inCritical g = true → store (shared c) = stage g (serveAll order.*2 rl).2) as Hmine.
  { intros Hcrit. apply Hi in Hcrit. rewrite Hcrit in Hstore.
    destruct Hstore as (g0 & Hg0 & Hs). by simplify_eq. }
  assert (∀ p, <[i := at_ g p]> (goroutines c) !! i = Some (at_ g p)) as Hat
    by (intros p; apply list_lookup_insert_eq; by eapply lookup_lt_Some).
  unfold perform in Hp. unfold locals in Hloc. unfold reading in Hread.
  destruct (pc g) as [| | | | | |t|t valid|t|t n|t n appended|b n|b n|b n] eqn:Hpc;
    simplify_eq.
  - (* rateLimiter.mutex.Lock() *)
    destruct (mapMutex (shared c)) eqn:Hfree; simplify_eq.
    exists order. apply Serialized_frame; try done; try (by by_pc). simpl.
    exists (at_ g AtLookup). by rewrite Hat.
  - (* rateLimiter.clients[clientIP] == nil *)
    assert (store (shared c) = (serveAll order.*2 rl).2) as Hbase
      by (rewrite Hmine by by_pc; unfold stage; by rewrite Hpc).
    destruct (clients (store (shared c)) !! clientIP g) eqn:Hentry; simplify_eq;
      exists order; apply Serialized_frame; try done; try (by by_pc).
    + rewrite (proj1 Hi) by by_pc.
      exists (at_ g AtClient). rewrite Hat. split; [done|].
      rewrite Hbase. unfold stage, getOrCreate. simpl.
      rewrite Hbase in Hentry. by rewrite Hentry.
    + rewrite (proj1 Hi) by by_pc.
      exists (at_ g AtCreate). by rewrite Hat.
  - (* rateLimiter.clients[clientIP] = &ClientLimiter{...} *)
    assert (store (shared c) = (serveAll order.*2 rl).2) as Hbase
      by (rewrite Hmine by by_pc; unfold stage; by rewrite Hpc).
    exists order. apply Serialized_frame; try done; try (by by_pc). simpl.
    rewrite (proj1 Hi) by by_pc.
    exists (at_ g AtClient). rewrite Hat. split; [done|].
    unfold stage, getOrCreate. simpl. rewrite Hbase in Hloc |- *.
    by rewrite Hloc.
  - (* client := rateLimiter.clients[clientIP] *)
    exists order. apply Serialized_frame; try done; try (by by_pc).
    rewrite (proj1 Hi) by by_pc.
    exists (at_ g AtClientLock). rewrite Hat. split; [done|].
    rewrite Hmine by by_pc. unfold stage. simpl. by rewrite Hpc.
  - (* client.mutex.Lock() *)
    destruct (clientMutex (shared c) !! clientIP g) eqn:Hcm; simplify_eq.
    exists order. apply Serialized_frame; try done; try (by by_pc). simpl.
    rewrite (proj1 Hi) by by_pc.
    exists (at_ g AtNow). rewrite Hat. split; [done|].
    rewrite Hmine by by_pc. unfold stage. simpl. by rewrite Hpc.
  - (* now := time.Now() *)
    exists order. apply Serialized_frame; try done; try (by by_pc); try by clock.
    rewrite (proj1 Hi) by by_pc.
    exists (at_ g (AtLoop now)). rewrite Hat. split; [done|].
    rewrite Hmine by by_pc. unfold stage. simpl. by rewrite Hpc.
  - (* the loop over client.requests *)
    exists order. apply Serialized_frame; try done; try (by by_pc); try by clock.
    rewrite (proj1 Hi) by by_pc.
    eexists. rewrite Hat. split; [done|].
    rewrite Hmine by by_pc. unfold stage. simpl. by rewrite Hpc.
  - (* client.requests = validRequests *)
    exists order. apply Serialized_frame; try done; try (by by_pc); try by clock.
    simpl. rewrite (proj1 Hi) by by_pc.
    exists (at_ g (AtCheck t)). rewrite Hat. split; [done|].
    rewrite Hmine by by_pc. unfold stage. rewrite Hpc. simpl.
    by rewrite window_getOrCreate.
  - (* len(client.requests) >= limit *)
    assert (store (shared c) =
            setRequests (clientIP g)
              (validRequests (Add t (- Minute)) (window (clientIP g) (serveAll order.*2 rl).2))
              (getOrCreate (clientIP g) (serveAll order.*2 rl).2)) as Hs.
    { rewrite Hmine by by_pc. unfold stage. by rewrite Hpc. }
    rewrite Hs, window_setRequests in Hp.
    destruct (_ >=? _) eqn:Hge; simplify_eq.
    + exists (order ++ [(i, arrival g t)]).
      eapply (Serialized_decide c order i g t false); try done; try (by by_pc).
      unfold isAllowed. rewrite window_getOrCreate, Hge. by rewrite <- Hs.
    + exists order. apply Serialized_frame; try done; try (by by_pc); try by clock.
      * unfold locals. simpl. rewrite Hs, window_setRequests. split; [done | lia].
      * rewrite (proj1 Hi) by by_pc.
        eexists. rewrite Hat. split; [done|].
        rewrite Hs. unfold stage. by simpl.
  - (* append(client.requests, now) *)
    exists order. apply Serialized_frame; try done; try (by by_pc); try by clock.
    + unfold locals. simpl. by destruct Hloc.
    + rewrite (proj1 Hi) by by_pc.
      eexists. rewrite Hat. split; [done|].
      rewrite Hmine by by_pc. unfold stage. simpl. by rewrite Hpc.
  - (* client.requests = the slice appended to *)
    assert (store (shared c) =
            setRequests (clientIP g)
              (validRequests (Add t (- Minute)) (window (clientIP g) (serveAll order.*2 rl).2))
              (getOrCreate (clientIP g) (serveAll order.*2 rl).2)) as Hs.
    { rewrite Hmine by by_pc. unfold stage. by rewrite Hpc. }
    destruct Hloc as (Hn & Hroom & ->). rewrite Hs, window_setRequests in Hn.
    exists (order ++ [(i, arrival g t)]).
    eapply (Serialized_decide c order i g t true); try done; try (by by_pc).
    unfold isAllowed. rewrite window_getOrCreate.
    replace (_ >=? _) with false by (symmetry; rewrite Z.geb_leb; apply Z.leb_gt; lia).
    unfold write. simpl. f_equal. rewrite Hs, window_setRequests.
    unfold setRequests. simpl. by rewrite insert_insert_eq.
  - (* deferred client.mutex.Unlock() *)
    exists order. apply Serialized_frame; try done; try (by by_pc). simpl.
    rewrite (proj1 Hi) by by_pc.
    eexists. rewrite Hat. split; [done|].
    rewrite Hmine by by_pc. unfold stage. simpl. by rewrite Hpc.
  - (* deferred rateLimiter.mutex.Unlock() *)
    exists order. apply Serialized_frame; try done; try (by by_pc). simpl.
    rewrite Hmine by by_pc. unfold stage. by rewrite Hpc.
Qed.
End Serial.

Section Runs.
Context (rl : RateLimiter) (steps : list (nat * Time)).

Lemma MapMutexInvariant_run schedule : ∀ c,
  MapMutexInvariant c → MapMutexInvariant (run schedule c).
Proof.
  induction schedule as [|[i now] rest IH]; intros c Hinv; [done|]. simpl.
  destruct (step i now c) as [c'|] eqn:Hstep; [|by apply IH].
  apply IH. by eapply MapMutexInvariant_step.
Qed.

Lemma ClientMutexInvariant_run schedule : ∀ c,
  ClientMutexInvariant c → ClientMutexInvariant (run schedule c).
Proof.
  induction schedule as [|[i now] rest IH]; intros c Hinv; [done|]. simpl.
  destruct (step i now c) as [c'|] eqn:Hstep; [|by apply IH].
  apply IH. by eapply ClientMutexInvariant_step.
Qed.

Lemma Serialized_run schedule : ∀ c order,
  (∀ e, e ∈ schedule → e ∈ steps) →
  MapMutexInvariant c → Serialized rl steps c order →
  ∃ order', Serialized rl steps (run schedule c) order'.
Proof.
  induction schedule as [|[i now] rest IH]; intros c order Htimes Hmap Hser;
    [by exists order|].
  simpl. assert ((i, now) ∈ steps) as Hnow by (apply Htimes; left).
  assert (∀ e, e ∈ rest → e ∈ steps) as Hrest by (intros e ?; apply Htimes; by right).
  destruct (step i now c) as [c'|] eqn:Hstep; [|by eapply IH].
  destruct (Serialized_step rl steps i now c c' order Hnow Hmap Hser Hstep) as [order' Hser'].
  eapply IH; [done | by eapply MapMutexInvariant_step | done].
Qed.

(** Some goroutine can run its point, unless all have returned; and a
    goroutine never waits for the mutex of its client. *)
Lemma progress_any c :
  MapMutexInvariant c → ClientMutexInvariant c →
  (Forall (λ g, returned g = true) (goroutines c) ∨ ∃ i, ∀ now, is_Some (step i now c)) ∧
  (∀ i g, goroutines c !! i = Some g → pc g = AtClientLock → ∀ now, is_Some (step i now c)).
Proof.
  intros [Hholder Hexists] [Hcholder Hcexists].
  assert (∀ i g, goroutines c !! i = Some g → pc g = AtClientLock →
                 clientMutex (shared c) !! clientIP g = None) as Hfree.
  { intros i g Hg Hpc.
    destruct (clientMutex (shared c) !! clientIP g) as [k|] eqn:Hk; [|done].
    destruct (Hcexists _ k Hk) as (gk & Hgk & Hip & Hhold).
    assert (mapMutex (shared c) = Some k) as Hk'.
    { apply (Hholder k gk Hgk). unfold holdsClient in Hhold. unfold inCritical.
      by destruct (pc gk). }
    assert (mapMutex (shared c) = Some i) as Hi by (apply (Hholder i g Hg); by by_pc).
    simplify_eq. unfold holdsClient in Hhold. by rewrite Hpc in Hhold. }
  split.
  - destruct (mapMutex (shared c)) as [j|] eqn:Hmap.
    + right. exists j. destruct (Hexists j eq_refl) as [g Hg].
      pose proof (proj2 (Hholder j g Hg) eq_refl) as Hin.
      intros now. unfold step. rewrite Hg. unfold perform. unfold inCritical in Hin.
      destruct (pc g) eqn:Hpc; try done.
      * by destruct (clients _ !! _).
      * by rewrite (Hfree j g Hg Hpc).
      * by destruct (_ >=? _).
    + destruct (decide (Forall (λ g, returned g = true) (goroutines c))) as [|Hsome];
        [by left|right].
      apply not_Forall_Exists in Hsome; [|apply _].
      apply Exists_exists in Hsome as (g & [i Hg]%list_elem_of_lookup & Hnot).
      exists i. intros now. unfold step. rewrite Hg. unfold perform.
      pose proof (proj1 (Hholder i g Hg)) as Hcrit.
      unfold inCritical in Hcrit. unfold returned in Hnot.
      simpl in Hnot.
      destruct (pc g); simpl in *;
        [by rewrite Hmap | by specialize (Hcrit eq_refl).. | done].
  - intros i g Hg Hpc now. unfold step. rewrite Hg. unfold perform.
    by rewrite Hpc, (Hfree i g Hg Hpc).
Qed.

Lemma completes_any now :
  ∀ k c, (work (goroutines c) ≤ k)%nat → MapMutexInvariant c → ClientMutexInvariant c →
  ∃ more,
    Forall (λ e : nat * Time, e.2 = now) more ∧
    Forall (λ g, returned g = true) (goroutines (run more c)).
Proof.
  intros k. induction k as [|k IH]; intros c Hwork Hmap Hclient.
  - destruct (progress_any c Hmap Hclient) as [[Hall|[i Hi]] _]; [by exists []|].
    destruct (Hi now) as [c' Hstep]. apply step_work in Hstep. lia.
  - destruct (progress_any c Hmap Hclient) as [[Hall|[i Hi]] _]; [by exists []|].
    destruct (Hi now) as [c' Hstep].
    destruct (IH c') as (more & Hmore & Hret).
    + apply step_work in Hstep. lia.
    + by eapply MapMutexInvariant_step.
    + by eapply ClientMutexInvariant_step.
    + exists ((i, now) :: more). split; [by constructor|].
      simpl. by rewrite Hstep.
Qed.
End Runs.

(** X17. Concurrent calls are serializable. Goroutines call [isAllowed]
    for whatever identities and quotas, starting on any limiter, under any
    schedule. In every configuration the schedule reaches, the calls that
    have decided can be put in an order, that of their decisions, such that
    making these calls one after the other in that order, each with the
    clock reading its goroutine made, gives each call the decision it holds
    and, when no goroutine is inside the critical section, the limiter the
    configuration holds. Once all calls have returned, the order lists
    every goroutine once. *)
Theorem concurrent_calls_are_serializable
    (calls : list (string * Z)) (rl : RateLimiter) (schedule : list (nat * Time)) :
  let reached := run schedule (launch calls rl) in
  ∃ order : list (nat * Arrival),
    Serialized rl schedule reached order ∧
    (Forall (λ g, returned g = true) (goroutines reached) →
       order.*1 ≡ₚ seq 0 (length calls) ∧
       store (shared reached) = (serveAll order.*2 rl).2).
Proof.
  intros reached.
  pose proof (MapMutexInvariant_run schedule _ (MapMutexInvariant_launch calls rl))
    as [Hholder Hexists]. fold reached in Hholder, Hexists.
  destruct (Serialized_run rl schedule schedule (launch calls rl) [])
    as [order Hser].
  { done. }
  { apply MapMutexInvariant_launch. }
  { apply Serialized_launch. }
  fold reached in Hser. exists order. split; [done|].
  intros Hall. rewrite Forall_forall in Hall.
  assert (length (goroutines reached) = length calls) as Hlen.
  { unfold reached. rewrite run_length. simpl. apply length_fmap. }
  split.
  - apply NoDup_Permutation; [apply (ser_nodup _ _ _ _ Hser) | apply NoDup_seq |].
    intros i. rewrite elem_of_seq. split.
    + intros ([j a] & -> & [k Hk]%list_elem_of_lookup)%list_elem_of_fmap.
      destruct (ser_calls _ _ _ _ Hser k j a Hk) as (_ & g & Hg & _).
      apply lookup_lt_Some in Hg. simpl. lia.
    + intros [_ Hi]. simpl in Hi. rewrite <- Hlen in Hi.
      apply lookup_lt_is_Some in Hi as [g Hg].
      apply (ser_decided _ _ _ _ Hser i g Hg).
      assert (returned g = true) as Hret
        by (apply Hall; by eapply list_elem_of_lookup_2).
      unfold returned in Hret. unfold outcome. by destruct (pc g).
  - pose proof (ser_store _ _ _ _ Hser) as Hstore.
    destruct (mapMutex (shared reached)) as [i|] eqn:Hmap; [|done].
    destruct (Hexists i eq_refl) as [g Hg].
    pose proof (proj2 (Hholder i g Hg) eq_refl) as Hcrit.
    assert (returned g = true) as Hret by (apply Hall; by eapply list_elem_of_lookup_2).
    unfold returned in Hret. unfold inCritical in Hcrit. by destruct (pc g).
Qed.

(** X18. Concurrent calls never deadlock. In every configuration a pool
    of [isAllowed] calls reaches, for whatever identities and quotas: at
    most one goroutine stands between Lock and Unlock of the limiter's
    mutex; a goroutine about to lock the mutex of its client never waits
    for it; unless all calls have returned, some goroutine can run its next
    statement; and the schedule can be continued so that all calls return. *)
Theorem concurrent_calls_never_deadlock
    (calls : list (string * Z)) (rl : RateLimiter) (schedule : list (nat * Time)) :
  let reached := run schedule (launch calls rl) in
  (∀ i j gi gj,
     goroutines reached !! i = Some gi → goroutines reached !! j = Some gj →
     inCritical gi = true → inCritical gj = true → i = j) ∧
  (∀ i g, goroutines reached !! i = Some g → pc g = AtClientLock →
          ∀ now, is_Some (step i now reached)) ∧
  (Forall (λ g, returned g = true) (goroutines reached) ∨
   ∃ i, ∀ now, is_Some (step i now reached)) ∧
  (∀ now, ∃ more,
     Forall (λ e : nat * Time, e.2 = now) more ∧
     Forall (λ g, returned g = true)
       (goroutines (run (schedule ++ more) (launch calls rl)))).
Proof.
  intros reached.
  pose proof (MapMutexInvariant_run schedule _ (MapMutexInvariant_launch calls rl)) as Hmap.
  pose proof (ClientMutexInvariant_run schedule _ (ClientMutexInvariant_launch calls rl))
    as Hclient.
  fold reached in Hmap, Hclient.
  destruct (progress_any reached Hmap Hclient) as [Hprogress Hnowait].
  split_and!; [|done|done|].
  - intros i j gi gj Hi Hj Hci Hcj.
    apply (mm_holder _ Hmap i gi Hi) in Hci. apply (mm_holder _ Hmap j gj Hj) in Hcj.
    congruence.
  - intros now.
    destruct (completes_any now _ reached (le_n _) Hmap Hclient) as (more & Hmore & Hret).
    exists more. split; [done|]. by rewrite run_app.
Qed.

(** * The further properties on sample inputs *)

(** X2 on three health checks within two seconds (quota 200), then an AI
    request at second 3 on a route whose quota is 3: the checks are
    admitted, the request is denied. *)
Lemma quota_is_shared_between_routes_witness :
  agedOut (window sampleIP sampleHistory) (sampleTimes ++ [3 * Second]) ∧
  oneWindow (sampleTimes ++ [3 * Second]) ∧
  (serveAll (arrivalsAt sampleIP 200 sampleTimes) sampleHistory).1 = [true; true; true] ∧
  (isAllowed (3 * Second) sampleIP 3
     (serveAll (arrivalsAt sampleIP 200 sampleTimes) sampleHistory).2).1 = false.
Proof.
  assert (agedOut (window sampleIP sampleHistory) (sampleTimes ++ [3 * Second])) as Haged
    by (repeat constructor; by vm_compute).
  assert (oneWindow (sampleTimes ++ [3 * Second])) as Hwindow
    by (repeat constructor; by vm_compute).
  destruct (quota_is_shared_between_routes sampleIP 200 3 sampleTimes (3 * Second)
              sampleHistory Haged Hwindow ltac:(simpl; lia) ltac:(simpl; lia))
    as (Hall & _ & Hdenied).
  split_and!; [exact Haged | exact Hwindow | exact Hall | exact Hdenied].
Defined.

(** X3 on three requests against a quota of 2, after a request two
    minutes earlier: the decisions are those of a new limiter. *)
Lemma stale_history_is_forgotten_witness :
  agedOut (window sampleIP sampleHistory) sampleTimes ∧
  (serve sampleIP 2 sampleTimes sampleHistory).1 = [true; true; false] ∧
  (serve sampleIP 2 sampleTimes rateLimiter).1 = [true; true; false].
Proof.
  assert (agedOut (window sampleIP sampleHistory) sampleTimes) as Haged
    by (repeat constructor; by vm_compute).
  destruct (stale_history_is_forgotten sampleIP 2 sampleTimes sampleHistory Haged)
    as [Hsame _].
  split_and!; [exact Haged | | reflexivity].
  rewrite Hsame. reflexivity.
Defined.

(** X4 on two identities idle for ten minutes that come back right after
    a reclaim cycle removed them: both are admitted, as without the cycle. *)
Lemma reclaim_is_invisible_to_admission_witness :
  Forall (λ a, 10 * Minute - 4 * Minute <= instant a) returningArrivals ∧
  clients (cleanupCycle (10 * Minute) ["a"; "b"] sampleIdle) = ∅ ∧
  (serveAll returningArrivals (cleanupCycle (10 * Minute) ["a"; "b"] sampleIdle)).1 =
    [true; true] ∧
  (serveAll returningArrivals sampleIdle).1 = [true; true].
Proof.
  assert (Forall (λ a, 10 * Minute - 4 * Minute <= instant a) returningArrivals) as Hlater
    by (repeat constructor; by vm_compute).
  destruct (reclaim_is_invisible_to_admission (10 * Minute) ["a"; "b"] sampleIdle
              returningArrivals Hlater) as [Hsame _].
  split_and!; [exact Hlater | by vm_compute | | reflexivity].
  rewrite Hsame. reflexivity.
Defined.

(** X5 on three requests in the order of time against a quota of 2. *)
Lemma window_is_chronological_witness :
  StronglySorted Z.le (window sampleIP sampleHistory ++ sampleTimes) ∧
  window sampleIP (serve sampleIP 2 sampleTimes sampleHistory).2 = [0; Second] ∧
  StronglySorted Z.le (window sampleIP (serve sampleIP 2 sampleTimes sampleHistory).2).
Proof.
  assert (StronglySorted Z.le (window sampleIP sampleHistory ++ sampleTimes)) as Hsorted
    by (repeat constructor; by vm_compute).
  destruct (window_is_chronological sampleIP 2 sampleTimes sampleHistory Hsorted)
    as [Hkept _].
  split_and!; [exact Hsorted | reflexivity | exact Hkept].
Defined.

(** X6 on an identity whose one timestamp has aged out, against a quota
    of 2: two requests remain, and a call is admitted. *)
Lemma getRemainingRequests_matches_isAllowed_witness :
  0 <= 2 < 2 ^ 63 ∧
  Z.of_nat (length (window sampleIP sampleHistory)) < 2 ^ 63 ∧
  getRemainingRequests 0 sampleIP 2 sampleHistory = 2 ∧
  (isAllowed 0 sampleIP 2 sampleHistory).1 = true.
Proof.
  destruct (getRemainingRequests_matches_isAllowed 0 sampleIP 2 sampleHistory
              ltac:(lia) ltac:(by vm_compute)) as [Hknown _].
  destruct (Hknown ltac:(by eexists)) as [Hremaining Hagree].
  split_and!; [lia | lia | by vm_compute | |].
  - rewrite Hremaining. reflexivity.
  - apply Hagree. rewrite Hremaining. by vm_compute.
Defined.

(** X7 on a request that came without proxy: the identity is the peer's
    host. *)
Lemma identity_without_forwarding_header_witness :
  Get (ReqHeader (sampleRequest "POST" "/ai/generate" promptBody)) "X-Forwarded-For" = "" ∧
  getClientIP (sampleRequest "POST" "/ai/generate" promptBody) = sampleIP.
Proof.
  split; [reflexivity|].
  destruct (identity_without_forwarding_header
              (sampleRequest "POST" "/ai/generate" promptBody) eq_refl) as [_ Hpeer].
  destruct (Hpeer eq_refl sampleIP) as [_ Hport].
  - intros Hin. repeat (apply elem_of_cons in Hin as [Hin|Hin]; [discriminate|]).
    by apply elem_of_nil in Hin.
  - by apply (Hport "40112").
Defined.

(** X8 on a request that came through a proxy. *)
Lemma forwarded_identity_is_first_entry_trimmed_witness :
  blank " " ∧
  token sampleIP ∧
  Get (ReqHeader forwardedRequest) "X-Forwarded-For" =
    (" " +:+ sampleIP +:+ " ") +:+ "," +:+ " 10.0.0.1" ∧
  getClientIP forwardedRequest = sampleIP.
Proof.
  assert (blank " ") as Hblank.
  { unfold blank, asciiSpace. apply (bool_decide_unpack _). by vm_compute. }
  assert (token sampleIP) as Htoken.
  { split; [discriminate|]. unfold visible. apply (bool_decide_unpack _). by vm_compute. }
  destruct (forwarded_identity_is_first_entry_trimmed forwardedRequest " " " "
              Hblank Hblank) as [Haddress _].
  destruct (Haddress sampleIP Htoken) as [_ Hmany].
  split_and!; [exact Hblank | exact Htoken | reflexivity |].
  by apply (Hmany " 10.0.0.1").
Defined.

(** X11 on a GET for the generate route, by an identity within its quota:
    405, and the request is on record. *)
Lemma rejected_requests_are_counted_witness :
  let r := sampleRequest "GET" "/ai/generate" "" in
  let out := protectedHandler
               (HandleGenerate sampleDecode sampleUnmarshal (NewAIHandler backendDown)) 30
               newWriter r sampleWorld in
  Status newWriter = None ∧
  Method r ≠ "OPTIONS" ∧
  (isAllowed (clock sampleWorld (reads sampleWorld)) (getClientIP r) 30
     (limiter sampleWorld)).1 = true ∧
  Method r ≠ "POST" ∧
  Status out.1 = Some 405 ∧
  outbound out.2 = [] ∧
  window sampleIP (limiter out.2) = [0].
Proof.
  intros r out.
  assert ((isAllowed (clock sampleWorld (reads sampleWorld)) (getClientIP r) 30
             (limiter sampleWorld)).1 = true) as Hadmitted by (by vm_compute).
  destruct (rejected_requests_are_counted sampleDecode sampleUnmarshal
              (NewAIHandler backendDown) 30 newWriter r sampleWorld
              eq_refl ltac:(discriminate) Hadmitted) as [Hmethod _].
  destruct (Hmethod ltac:(discriminate)) as [(Hstatus & _ & Hcalls & Hwindow) _].
  split_and!; [reflexivity | discriminate | exact Hadmitted | discriminate
              | exact Hstatus | exact Hcalls | exact Hwindow].
Defined.

(** X12 on a generate request and a chat request that a backend answers:
    the generated text as it stands, the chat content trimmed. *)
Lemma successful_answers_carry_backend_text_witness :
  let h := NewAIHandler backendUp in
  let generate := HandleGenerate sampleDecode answerUnmarshal h newWriter
                    (sampleRequest "POST" "/ai/generate" promptBody) sampleWorld in
  let chat := HandleChatCompletion sampleDecode answerUnmarshal h newWriter
                (sampleRequest "POST" "/ai/chat/completions" chatBody) sampleWorld in
  Method (sampleRequest "POST" "/ai/generate" promptBody) = "POST" ∧
  client (aiService h) (promptCall h "/generate" samplePrompt) = Reply 200 generateAnswer ∧
  client (aiService h) (chatCall h sampleChat) = Reply 200 chatAnswer ∧
  generate.1 = textAnswer h newWriter sampleWorld "Hello there" "" ∧
  chat.1 = textAnswer h newWriter sampleWorld "Hello there" "" ∧
  Status generate.1 = Some 200 ∧
  outbound chat.2 = [chatCall h sampleChat].
Proof.
  intros h generate chat.
  destruct (successful_answers_carry_backend_text sampleDecode answerUnmarshal h newWriter
              (sampleRequest "POST" "/ai/generate" promptBody) sampleWorld eq_refl)
    as (Hgenerate & _ & _).
  destruct (successful_answers_carry_backend_text sampleDecode answerUnmarshal h newWriter
              (sampleRequest "POST" "/ai/chat/completions" chatBody) sampleWorld eq_refl)
    as (_ & _ & Hchat).
  pose proof (Hgenerate samplePrompt generateAnswer
                {| GeneratedText := "Hello there"; EchoedPrompt := "Hello" |}
                ltac:(by vm_compute) ltac:(discriminate) ltac:(by vm_compute)
                ltac:(by vm_compute) ltac:(by vm_compute) ltac:(discriminate)) as Hg.
  destruct (Hchat sampleChat chatAnswer {[ "content" := JString "  Hello there  " ]}
              ltac:(by vm_compute) ltac:(discriminate) ltac:(by vm_compute)
              ltac:(by vm_compute) ltac:(by vm_compute)) as [Hcontent _].
  pose proof (Hcontent "  Hello there  " ltac:(by vm_compute)) as Hc.
  split_and!; [reflexivity | by vm_compute | by vm_compute | | | |].
  - unfold generate. by rewrite Hg.
  - unfold chat. rewrite Hc. by vm_compute.
  - unfold generate. rewrite Hg. reflexivity.
  - unfold chat. by rewrite Hc.
Defined.

(** X14 on a request denied at second 30. *)
Lemma limiter_answers_in_plain_text_witness :
  let r := sampleRequest "POST" "/ai/generate" promptBody in
  let out := protectedHandler
               (HandleGenerate sampleDecode sampleUnmarshal (NewAIHandler backendDown)) 1
               newWriter r busyWorld in
  Method r ≠ "OPTIONS" ∧
  (isAllowed (clock busyWorld (reads busyWorld)) (getClientIP r) 1
     (limiter busyWorld)).1 = false ∧
  Status out.1 = Some 429 ∧
  Get (RespHeader out.1) "Content-Type" = "text/plain; charset=utf-8" ∧
  outbound out.2 = [].
Proof.
  intros r out.
  assert ((isAllowed (clock busyWorld (reads busyWorld)) (getClientIP r) 1
             (limiter busyWorld)).1 = false) as Hdenied by (by vm_compute).
  destruct (limiter_answers_in_plain_text 1
              (HandleGenerate sampleDecode sampleUnmarshal (NewAIHandler backendDown))
              r busyWorld ltac:(discriminate) Hdenied)
    as (Hstatus & _ & Htype & _ & _ & _ & Hcalls & _).
  split_and!; [discriminate | exact Hdenied | exact Hstatus | exact Htype | exact Hcalls].
Defined.

(** X15 on a GET for a path the gateway does not serve. *)
Lemma root_route_answers_witness :
  let r := sampleRequest "GET" "/ai/unknown" "" in
  let out := protectedHandler rootHandler 100 newWriter r sampleWorld in
  Method r ≠ "OPTIONS" ∧
  (isAllowed (clock sampleWorld (reads sampleWorld)) (getClientIP r) 100
     (limiter sampleWorld)).1 = true ∧
  Status out.1 = Some 404 ∧
  window sampleIP (limiter out.2) = [0].
Proof.
  intros r out.
  assert ((isAllowed (clock sampleWorld (reads sampleWorld)) (getClientIP r) 100
             (limiter sampleWorld)).1 = true) as Hadmitted by (by vm_compute).
  destruct (root_route_answers r sampleWorld ltac:(discriminate) Hadmitted)
    as (_ & Hunknown & _ & _ & _ & Hlimiter).
  destruct (Hunknown ltac:(discriminate) ltac:(by vm_compute)) as (Hstatus & _).
  split_and!; [discriminate | exact Hadmitted | exact Hstatus |].
  unfold out. rewrite Hlimiter. by vm_compute.
Defined.

(** X16 on a chat request whose answer has blanks around its content. *)
Lemma chat_text_is_trimmed_witness :
  (GetChatCompletion answerUnmarshal (NewAIService backendUp) (Messages sampleChat)
     150 0x1.6666666666666p-1%float).1 = inl "Hello there" ∧
  TrimSpace "Hello there" = "Hello there".
Proof.
  assert ((GetChatCompletion answerUnmarshal (NewAIService backendUp) (Messages sampleChat)
             150 0x1.6666666666666p-1%float).1 = inl "Hello there") as Hok
    by (by vm_compute).
  destruct (chat_text_is_trimmed answerUnmarshal (NewAIService backendUp)
              (Messages sampleChat) 150 0x1.6666666666666p-1%float "Hello there" Hok)
    as [Hfixed _].
  split; [exact Hok | exact Hfixed].
Defined.

(** X19 on a backend that answers 200 with a page that is no JSON, with
    an empty completion, and with a chat content of blanks: generate and
    complete answer 500, chat answers 200 with an empty text. *)
Lemma unusable_backend_answer_is_generic_500_witness :
  let h := NewAIHandler backendOdd in
  let generate :=
    HandleGenerate sampleDecode oddUnmarshal h newWriter
      (sampleRequest "POST" "/ai/generate" promptBody) sampleWorld in
  let complete :=
    HandleComplete sampleDecode oddUnmarshal h newWriter
      (sampleRequest "POST" "/ai/complete" promptBody) sampleWorld in
  let chat :=
    HandleChatCompletion sampleDecode oddUnmarshal h newWriter
      (sampleRequest "POST" "/ai/chat/completions" chatBody) sampleWorld in
  Status newWriter = None ∧
  client (aiService h) (promptCall h "/generate" samplePrompt) = Reply 200 proxyPage ∧
  client (aiService h) (promptCall h "/complete" samplePrompt) = Reply 200 emptyCompletion ∧
  client (aiService h) (chatCall h sampleChat) = Reply 200 blankContent ∧
  blank "   " ∧
  Status generate.1 = Some 500 ∧
  Written generate.1 =
    [Json (EncError {| Models.Error := "Internal Server Error"; Code := 500;
                       Message := "Failed to get generation" |})] ∧
  Status complete.1 = Some 500 ∧
  Written complete.1 =
    [Json (EncError {| Models.Error := "Internal Server Error"; Code := 500;
                       Message := "Failed to get completion" |})] ∧
  chat.1 = textAnswer h newWriter sampleWorld EmptyString (ChatUserID sampleChat).
Proof.
  intros h generate complete chat.
  assert (blank "   ") as Hblank by (apply (bool_decide_unpack _); by vm_compute).
  destruct (unusable_backend_answer_is_generic_500 sampleDecode oddUnmarshal h newWriter
              (sampleRequest "POST" "/ai/generate" promptBody) sampleWorld eq_refl)
    as (Hgenerate & _).
  destruct (unusable_backend_answer_is_generic_500 sampleDecode oddUnmarshal h newWriter
              (sampleRequest "POST" "/ai/complete" promptBody) sampleWorld eq_refl)
    as (_ & Hcomplete & _).
  destruct (unusable_backend_answer_is_generic_500 sampleDecode oddUnmarshal h newWriter
              (sampleRequest "POST" "/ai/chat/completions" chatBody) sampleWorld eq_refl)
    as (_ & _ & _ & _ & Hchat).
  destruct (Hgenerate samplePrompt proxyPage) as [Hstatus Hwritten];
    [reflexivity | by vm_compute | discriminate | by vm_compute | by vm_compute
    | intros reply; by vm_compute |].
  destruct (Hcomplete samplePrompt emptyCompletion) as [Hstatus' Hwritten'];
    [reflexivity | by vm_compute | discriminate | by vm_compute | by vm_compute
    | intros object completion Hobject Hmember;
      assert (unmarshalObject oddUnmarshal emptyCompletion =
              inl {[ "completion" := JString EmptyString ]}) as Hparsed by (by vm_compute);
      rewrite Hparsed in Hobject; injection Hobject as <-;
      apply lookup_singleton_Some in Hmember as [_ [= <-]]; reflexivity |].
  split_and!;
    [reflexivity | by vm_compute | by vm_compute | by vm_compute | exact Hblank
    | exact Hstatus | exact Hwritten | exact Hstatus' | exact Hwritten' |].
  apply (Hchat sampleChat blankContent {[ "content" := JString "   " ]} "   ");
    [reflexivity | by vm_compute | discriminate | by vm_compute | by vm_compute
    | by vm_compute | by apply lookup_singleton_Some | exact Hblank].
Defined.
